(** * The layered byte cipher and the decode-detection engine

    A shallow embedding of [script.js] (class [QuantumLayeredEncoder]) and of
    the detection part of the encoder/decoder tool (classes [ErrorHandler],
    [DetectionEngine], [AdvancedEncoders] and the function
    [detectAndDecode]), with the properties stated about them.

    JavaScript values are modelled as the code uses them: a string is the
    list of its UTF-16 code units, a number that the code keeps integral is
    an integer of [Z] with the 32-bit conversions of the bitwise operators
    written out, an array is a list, the confidence scores are IEEE binary64
    numbers, and an exception is an error result.  What the functions do to
    the page and the console is the record of their calls. *)

From Stdlib Require Import ZArith List Lia Bool String Ascii.
From Stdlib Require Import Permutation FinFun.
From Stdlib Require Import Floats.PrimFloat Floats.SpecFloat Floats.FloatOps.
Import ListNotations.
Local Open Scope Z_scope.

(* A decimal literal denotes the nearest binary64 number, as in the source. *)
Set Warnings "-inexact-float".

(* ================================================================= *)
(** ** JavaScript strings, numbers and arrays *)

Module JS.

(** A string is its sequence of UTF-16 code units. *)
Definition jsstring := list Z.

Definition code_unit (c : Z) : Prop := 0 <= c < 65536.
Definition wf_string (s : jsstring) : Prop := Forall code_unit s.

Definition charCode (c : ascii) : Z := Z.of_N (N_of_ascii c).

Fixpoint js (s : string) : jsstring :=
  match s with
  | EmptyString => []
  | String c r => charCode c :: js r
  end.

(** An argument that may be absent ([undefined] or [null]). *)
Inductive jsarg :=
| Undefined
| Str (s : jsstring).

(** [!x] for an argument that is a string or absent. *)
Definition falsy (x : jsarg) : bool :=
  match x with
  | Undefined => true
  | Str [] => true
  | Str (_ :: _) => false
  end.

Definition length (s : jsstring) : Z := Z.of_nat (List.length s).

Fixpoint str_eqb (a b : jsstring) : bool :=
  match a, b with
  | [], [] => true
  | x :: a', y :: b' => (x =? y) && str_eqb a' b'
  | _, _ => false
  end.

(** *** Integer conversions of the bitwise operators *)

Definition ToInt32 (x : Z) : Z := (x + 2147483648) mod 4294967296 - 2147483648.
Definition ToUint32 (x : Z) : Z := x mod 4294967296.
Definition ToUint16 (x : Z) : Z := x mod 65536.
Definition ToUint8 (x : Z) : Z := x mod 256.

Definition shl (a n : Z) : Z := ToInt32 (Z.shiftl (ToInt32 a) (n mod 32)).
Definition sar (a n : Z) : Z := Z.shiftr (ToInt32 a) (n mod 32).
Definition shr (a n : Z) : Z := Z.shiftr (ToUint32 a) (n mod 32).
Definition band (a b : Z) : Z := Z.land (ToInt32 a) (ToInt32 b).
Definition bor (a b : Z) : Z := Z.lor (ToInt32 a) (ToInt32 b).

(** A value read from an array may be [undefined]; under a bitwise operator
    it counts as 0. *)
Definition int32_of (v : option Z) : Z :=
  match v with
  | Some x => ToInt32 x
  | None => 0
  end.

(** *** Arrays *)

(** [arr[i]]: [None] is [undefined]. *)
Definition aget {A} (arr : list A) (i : Z) : option A :=
  if i <? 0 then None else nth_error arr (Z.to_nat i).

(** An array that may have holes; [arr[n] = v] extends it when [n] is
    beyond its end. *)
Fixpoint aset_nat {A} (arr : list (option A)) (n : nat) (v : A)
  : list (option A) :=
  match n, arr with
  | O, [] => [Some v]
  | O, _ :: t => Some v :: t
  | S n', [] => None :: aset_nat [] n' v
  | S n', x :: t => x :: aset_nat t n' v
  end.

Definition aset {A} (arr : list (option A)) (i : Z) (v : A) :=
  aset_nat arr (Z.to_nat i) v.

Definition aget_holes {A} (arr : list (option A)) (i : Z) : option A :=
  match aget arr i with
  | Some (Some v) => Some v
  | _ => None
  end.

(** [for (let i = 0; i < n; i++) st = body(i, st)]. *)
Definition for_upto {S} (n : nat) (body : Z -> S -> S) (init : S) : S :=
  fold_left (fun st i => body (Z.of_nat i) st) (seq 0 n) init.

(** *** Number to string *)

Definition digitChar (d : Z) : Z := if d <? 10 then 48 + d else 87 + d.

Fixpoint digits (fuel : nat) (radix n : Z) (acc : jsstring) : jsstring :=
  match fuel with
  | O => acc
  | S f =>
      let acc' := digitChar (n mod radix) :: acc in
      if n / radix =? 0 then acc' else digits f radix (n / radix) acc'
  end.

(** [n.toString(16)] for an integral [n]. *)
Definition toString16 (n : Z) : jsstring :=
  if n <? 0
  then 45 :: digits (S (Z.to_nat (Z.log2 (- n)))) 16 (- n) []
  else digits (S (Z.to_nat (Z.log2 n))) 16 n [].

(** [s.padStart(n, '0')]. *)
Definition padStart0 (n : nat) (s : jsstring) : jsstring :=
  repeat 48 (n - List.length s) ++ s.

(** *** [String.prototype.split] on one separator character *)

Fixpoint split_on (sep : Z) (s : jsstring) : list jsstring :=
  match s with
  | [] => [[]]
  | c :: r =>
      if c =? sep then [] :: split_on sep r
      else match split_on sep r with
           | [] => [[c]]
           | p :: ps => (c :: p) :: ps
           end
  end.

(** *** [parseInt] *)

(** White space and line terminators skipped in front of a numeral. *)
Definition isWhiteSpace (c : Z) : bool :=
  (c =? 9) || (c =? 10) || (c =? 11) || (c =? 12) || (c =? 13) || (c =? 32)
  || (c =? 160) || (c =? 5760) || ((8192 <=? c) && (c <=? 8202))
  || (c =? 8232) || (c =? 8233) || (c =? 8239) || (c =? 8287)
  || (c =? 12288) || (c =? 65279).

Fixpoint trimStart (s : jsstring) : jsstring :=
  match s with
  | c :: r => if isWhiteSpace c then trimStart r else s
  | [] => []
  end.

Definition trimEnd (s : jsstring) : jsstring := rev (trimStart (rev s)).
Definition trim (s : jsstring) : jsstring := trimEnd (trimStart s).

Definition digitValue (c : Z) : option Z :=
  if (48 <=? c) && (c <=? 57) then Some (c - 48)
  else if (97 <=? c) && (c <=? 122) then Some (c - 87)
  else if (65 <=? c) && (c <=? 90) then Some (c - 55)
  else None.

(** The longest prefix of digits of the radix, as a number; [None] when
    there is no digit. *)
Fixpoint digitsPrefix (radix : Z) (s : jsstring) (acc : option Z) : option Z :=
  match s with
  | [] => acc
  | c :: r =>
      match digitValue c with
      | Some d =>
          if d <? radix
          then digitsPrefix radix r
                 (Some (match acc with Some a => a * radix + d | None => d end))
          else acc
      | None => acc
      end
  end.

(** The integer a number of type Number holds for a non-negative integer
    [n]: [n] rounded to 53 significant bits, ties to even. *)
Definition roundToDouble (n : Z) : Z :=
  if n <? 9007199254740992 then n
  else
    let e := Z.log2 n - 52 in
    let q := Z.shiftr n e in
    let r := n - Z.shiftl q e in
    let half := Z.shiftl 1 (e - 1) in
    let q' := if r <? half then q
              else if half <? r then q + 1
              else if Z.even q then q else q + 1 in
    Z.shiftl q' e.

(** [parseInt(s, radix)] with [radix] 16, 2 or absent ([None]);
    the result [None] is NaN. *)
Definition parseInt (s : jsstring) (radix : option Z) : option Z :=
  let s := trimStart s in
  let '(sign, s) :=
    match s with
    | 45 :: r => (-1, r)
    | 43 :: r => (1, r)
    | _ => (1, s)
    end in
  let hexPrefix :=
    match s with
    | 48 :: x :: _ => (x =? 120) || (x =? 88)
    | _ => false
    end in
  let '(radix, s) :=
    match radix with
    | Some 16 => (16, if hexPrefix then skipn 2 s else s)
    | Some r => (r, s)
    | None => if hexPrefix then (16, skipn 2 s) else (10, s)
    end in
  match digitsPrefix radix s None with
  | Some n => Some (sign * roundToDouble n)
  | None => None
  end.

End JS.
Import JS.

(* ================================================================= *)
(** ** Errors *)

Inductive error :=
| KeyRequired        (* 'Encryption key is required' *)
| InvalidFormat      (* 'Invalid format' *)
| ChecksumFailed     (* 'Checksum verification failed' *)
| InvalidHexData     (* 'Invalid hex data' *)
| InvalidHexChar     (* 'Invalid hex character' *)
| DecodingFailed.    (* 'Decoding failed: Invalid key or corrupted data' *)

(** How a call completes: with a value or by throwing. *)
Inductive completion (A : Type) :=
| Ok (a : A)
| Throw (e : error).
Arguments Ok {A} a.
Arguments Throw {A} e.

Definition bind {A B} (r : completion A) (k : A -> completion B) : completion B :=
  match r with
  | Ok a => k a
  | Throw e => Throw e
  end.

Notation "x <- r ;; k" := (bind r (fun x => k))
  (at level 61, r at next level, right associativity).

(** [try { body } catch (error) { throw e }]. *)
Definition catch_rethrow {A} (body : completion A) (e : error) : completion A :=
  match body with
  | Ok a => Ok a
  | Throw _ => Throw e
  end.

(* ================================================================= *)
(** ** The host's UTF-8 conversions ([TextEncoder], [TextDecoder])

    The source only calls them; they are modelled after the Encoding
    standard: the encoder and the decoder of UTF-8 with replacement of
    ill-formed input, and the removal of a byte order mark in front. *)

Module Utf8.

Definition isHighSurrogate (c : Z) : bool := (55296 <=? c) && (c <=? 56319).
Definition isLowSurrogate (c : Z) : bool := (56320 <=? c) && (c <=? 57343).

(** The scalar values of a string: a surrogate pair is one code point, a
    lone surrogate becomes U+FFFD. *)
Fixpoint scalarValues (s : jsstring) : list Z :=
  match s with
  | [] => []
  | c :: r =>
      if isHighSurrogate c then
        match r with
        | d :: r' =>
            if isLowSurrogate d
            then (65536 + (c - 55296) * 1024 + (d - 56320)) :: scalarValues r'
            else 65533 :: scalarValues r
        | [] => [65533]
        end
      else if isLowSurrogate c then 65533 :: scalarValues r
      else c :: scalarValues r
  end.

Definition encodeCodePoint (cp : Z) : list Z :=
  if cp <? 128 then [cp]
  else if cp <? 2048 then [192 + cp / 64; 128 + cp mod 64]
  else if cp <? 65536 then
    [224 + cp / 4096; 128 + (cp / 64) mod 64; 128 + cp mod 64]
  else
    [240 + cp / 262144; 128 + (cp / 4096) mod 64;
     128 + (cp / 64) mod 64; 128 + cp mod 64].

(** [new TextEncoder().encode(text)]. *)
Definition TextEncoder_encode (text : jsstring) : list Z :=
  flat_map encodeCodePoint (scalarValues text).

(** The state of the UTF-8 decoder between two bytes. *)
Record decoder := {
  codePoint : Z;
  bytesSeen : Z;
  bytesNeeded : Z;
  lowerBoundary : Z;
  upperBoundary : Z
}.

Definition idle : decoder :=
  {| codePoint := 0; bytesSeen := 0; bytesNeeded := 0;
     lowerBoundary := 128; upperBoundary := 191 |}.

(** A byte read when no sequence is open: the code points emitted and the
    next state. *)
Definition leadByte (b : Z) : list Z * decoder :=
  if b <=? 127 then ([b], idle)
  else if (194 <=? b) && (b <=? 223) then
    ([], {| codePoint := b - 192; bytesSeen := 0; bytesNeeded := 1;
            lowerBoundary := 128; upperBoundary := 191 |})
  else if (224 <=? b) && (b <=? 239) then
    ([], {| codePoint := b - 224; bytesSeen := 0; bytesNeeded := 2;
            lowerBoundary := if b =? 224 then 160 else 128;
            upperBoundary := if b =? 237 then 159 else 191 |})
  else if (240 <=? b) && (b <=? 244) then
    ([], {| codePoint := b - 240; bytesSeen := 0; bytesNeeded := 3;
            lowerBoundary := if b =? 240 then 144 else 128;
            upperBoundary := if b =? 244 then 143 else 191 |})
  else ([65533], idle).

Fixpoint decodeFrom (st : decoder) (bytes : list Z) : list Z :=
  match bytes with
  | [] => if bytesNeeded st =? 0 then [] else [65533]
  | b :: r =>
      if bytesNeeded st =? 0 then
        let '(out, st') := leadByte b in out ++ decodeFrom st' r
      else if (b <? lowerBoundary st) || (upperBoundary st <? b) then
        (* the byte is read again with no sequence open *)
        let '(out, st') := leadByte b in 65533 :: out ++ decodeFrom st' r
      else
        let cp := codePoint st * 64 + (b - 128) in
        if bytesSeen st + 1 =? bytesNeeded st
        then cp :: decodeFrom idle r
        else decodeFrom
               {| codePoint := cp; bytesSeen := bytesSeen st + 1;
                  bytesNeeded := bytesNeeded st;
                  lowerBoundary := 128; upperBoundary := 191 |} r
  end.

Definition codeUnits (cp : Z) : jsstring :=
  if cp <? 65536 then [cp]
  else [55296 + (cp - 65536) / 1024; 56320 + (cp - 65536) mod 1024].

Definition stripBOM (bytes : list Z) : list Z :=
  match bytes with
  | a :: b :: c :: r =>
      if (a =? 239) && (b =? 187) && (c =? 191) then r else bytes
  | _ => bytes
  end.

(** A string without a lone surrogate. *)
Fixpoint wellFormed (s : jsstring) : bool :=
  match s with
  | [] => true
  | c :: r =>
      if isHighSurrogate c then
        match r with
        | d :: r' => isLowSurrogate d && wellFormed r'
        | [] => false
        end
      else negb (isLowSurrogate c) && wellFormed r
  end.

(** A string that begins with the byte order mark U+FEFF. *)
Definition startsWithBOM (s : jsstring) : bool :=
  match s with
  | c :: _ => c =? 65279
  | [] => false
  end.

(** [new TextDecoder().decode(new Uint8Array(bytes))]: the elements are
    taken modulo 256 ([undefined] is 0), a leading byte order mark is
    dropped and an ill-formed sequence decodes to U+FFFD. *)
Definition TextDecoder_decode (bytes : list (option Z)) : jsstring :=
  let u8 := map (fun v => match v with Some x => ToUint8 x | None => 0 end)
                bytes in
  flat_map codeUnits (decodeFrom idle (stripBOM u8)).

End Utf8.
Import Utf8.

(* ================================================================= *)
(** ** [QuantumLayeredEncoder] *)

Module QuantumLayeredEncoder.

(** [createSubstitutionMatrix]. *)
Definition createSubstitutionMatrix : list (option Z) :=
  for_upto 256 (fun i matrix => aset matrix i (Z.rem (i * 17 + 42) 256)) [].

(** The fields [substitutionMatrix] and [inverseMatrix] that the
    constructor sets, once and for all. *)
Definition substitutionMatrix : list (option Z) :=
  Eval vm_compute in createSubstitutionMatrix.

(** [createInverseMatrix]; [new Array(256)] is 256 holes. *)
Definition createInverseMatrix : list (option Z) :=
  for_upto 256
    (fun i inverse =>
       match aget_holes substitutionMatrix i with
       | Some t => aset inverse t i
       | None => inverse      (* would set the property 'undefined' *)
       end)
    (repeat None 256).

Definition inverseMatrix : list (option Z) :=
  Eval vm_compute in createInverseMatrix.

(** One step of the hash: [hash = ((hash << 5) + hash) + c;
    hash = hash & 0xFFFFFFFF]. *)
Definition mix (hash c : Z) : Z := band ((shl hash 5 + hash) + c) 4294967295.

(** [keyDerivation]. *)
Definition keyDerivation (key : jsarg) : completion (list Z) :=
  match key with
  | Undefined => Throw KeyRequired
  | Str [] => Throw KeyRequired
  | Str k =>
      let hash := fold_left mix k 5381 in
      let '(_, derivedKey) :=
        for_upto 256
          (fun i '(hash, derivedKey) =>
             let hash := mix hash (i + 7919) in
             (hash, derivedKey ++ [band hash 255]))
          (hash, []) in
      Ok derivedKey
  end.

(** [scrambleByte]. *)
Definition scrambleByte (byte position : Z) (derivedKey : list Z) : Z :=
  (* Layer 1: substitution *)
  let result := aget_holes substitutionMatrix byte in
  (* Layer 2: XOR with position-dependent key *)
  let result :=
    Z.lxor (int32_of result)
           (int32_of (aget derivedKey (Z.rem position (length derivedKey)))) in
  (* Layer 3: bit rotation based on position *)
  let rotateAmount := Z.rem position 8 in
  let result :=
    band (bor (shl result rotateAmount) (sar result (8 - rotateAmount))) 255 in
  (* Layer 4: add key-dependent value *)
  match aget derivedKey (Z.rem (position * 7) (length derivedKey)) with
  | Some k => band (result + k) 255
  | None => 0           (* NaN & 0xFF *)
  end.

(** [unscrambleByte]; the result is [undefined] when the inverse matrix has
    no entry. *)
Definition unscrambleByte (byte position : Z) (derivedKey : list Z)
  : option Z :=
  (* Reverse layer 4 *)
  let result :=
    match aget derivedKey (Z.rem (position * 7) (length derivedKey)) with
    | Some k => band (byte - k + 256) 255
    | None => 0         (* NaN & 0xFF *)
    end in
  (* Reverse layer 3 *)
  let rotateAmount := Z.rem position 8 in
  let result :=
    band (bor (sar result rotateAmount) (shl result (8 - rotateAmount))) 255 in
  (* Reverse layer 2 *)
  let result :=
    Z.lxor (ToInt32 result)
           (int32_of (aget derivedKey (Z.rem position (length derivedKey)))) in
  (* Reverse layer 1 *)
  aget_holes inverseMatrix result.

(** The number [calculateChecksum] arrives at before it is rendered. *)
Definition checksumValue (data : jsstring) (derivedKey : list Z) : Z :=
  let checksum :=
    fold_left (fun checksum c => Z.rem (checksum * 31 + c) 65536) data 0 in
  (* Add key influence *)
  for_upto (Nat.min (List.length derivedKey) 16)
    (fun i checksum =>
       match aget derivedKey i with
       | Some k => Z.rem (checksum + k * (i + 1)) 65536
       | None => checksum
       end)
    checksum.

(** [calculateChecksum]. *)
Definition calculateChecksum (data : jsstring) (derivedKey : list Z)
  : jsstring :=
  padStart0 4 (toString16 (checksumValue data derivedKey)).

(** [b.toString(16).padStart(2, '0')]. *)
Definition hex2 (b : Z) : jsstring := padStart0 2 (toString16 b).

(** [bytesToHex]. *)
Definition bytesToHex (bytes : list Z) (derivedKey : list Z) : jsstring :=
  let hex := fold_left (fun hex b => hex ++ hex2 b) bytes [] in
  (* Add simple checksum *)
  let checksum := calculateChecksum hex derivedKey in
  hex ++ [46] ++ checksum.

(** The loop of [hexToBytes]: [hexData.substr(i, 2)] for [i] in steps of
    two. *)
Fixpoint parsePairs (hexData : jsstring) : completion (list Z) :=
  match hexData with
  | [] => Ok []
  | a :: b :: r =>
      match parseInt [a; b] (Some 16) with
      | None => Throw InvalidHexChar
      | Some byte => bytes <- parsePairs r ;; Ok (byte :: bytes)
      end
  | [a] =>
      match parseInt [a] (Some 16) with
      | None => Throw InvalidHexChar
      | Some byte => Ok [byte]
      end
  end.

(** [hexToBytes]. *)
Definition hexToBytes (encoded : jsstring) (derivedKey : list Z)
  : completion (list Z) :=
  match split_on 46 encoded with
  | [hexData; checksum] =>
      let expectedChecksum := calculateChecksum hexData derivedKey in
      if negb (str_eqb checksum expectedChecksum) then Throw ChecksumFailed
      else if negb (Z.rem (length hexData) 2 =? 0) then Throw InvalidHexData
      else parsePairs hexData
  | _ => Throw InvalidFormat
  end.

(** The loops of [encode] and [decode] over the bytes, from index [i] on. *)
Fixpoint scrambleFrom (i : Z) (textBytes : list Z) (derivedKey : list Z)
  : list Z :=
  match textBytes with
  | [] => []
  | b :: r => scrambleByte b i derivedKey :: scrambleFrom (i + 1) r derivedKey
  end.

Fixpoint unscrambleFrom (i : Z) (decodedBytes : list Z) (derivedKey : list Z)
  : list (option Z) :=
  match decodedBytes with
  | [] => []
  | b :: r =>
      unscrambleByte b i derivedKey :: unscrambleFrom (i + 1) r derivedKey
  end.

(** [encode]. *)
Definition encode (text key : jsarg) : completion jsstring :=
  match text with
  | Undefined | Str [] => Ok []
  | Str t =>
      derivedKey <- keyDerivation key ;;
      let textBytes := TextEncoder_encode t in
      let encoded := scrambleFrom 0 textBytes derivedKey in
      Ok (bytesToHex encoded derivedKey)
  end.

(** [decode]. *)
Definition decode (encodedText key : jsarg) : completion jsstring :=
  match encodedText with
  | Undefined | Str [] => Ok []
  | Str e =>
      catch_rethrow
        (derivedKey <- keyDerivation key ;;
         decodedBytes <- hexToBytes e derivedKey ;;
         let original := unscrambleFrom 0 decodedBytes derivedKey in
         Ok (TextDecoder_decode original))
        DecodingFailed
  end.

End QuantumLayeredEncoder.
Import QuantumLayeredEncoder.

(* ================================================================= *)
(** ** Regular expressions

    The shape tests are regular expressions used through [test]; a regular
    expression is matched by derivatives.  [^re$] is a match of the whole
    string, an expression without anchors is searched anywhere. *)

Module Regex.

Inductive re :=
| Void                      (* matches no string *)
| Eps                       (* matches the empty string *)
| Class (p : Z -> bool)     (* one character of a class *)
| Seq (a b : re)
| Alt (a b : re)
| Star (a : re).

Fixpoint nullable (r : re) : bool :=
  match r with
  | Void => false
  | Eps => true
  | Class _ => false
  | Seq a b => nullable a && nullable b
  | Alt a b => nullable a || nullable b
  | Star _ => true
  end.

Definition isVoid (r : re) : bool :=
  match r with Void => true | _ => false end.

Definition seq' (a b : re) : re :=
  if isVoid a || isVoid b then Void
  else match a with Eps => b | _ => Seq a b end.

Definition alt' (a b : re) : re :=
  if isVoid a then b else if isVoid b then a else Alt a b.

Fixpoint deriv (c : Z) (r : re) : re :=
  match r with
  | Void => Void
  | Eps => Void
  | Class p => if p c then Eps else Void
  | Seq a b =>
      alt' (seq' (deriv c a) b) (if nullable a then deriv c b else Void)
  | Alt a b => alt' (deriv c a) (deriv c b)
  | Star a => seq' (deriv c a) (Star a)
  end.

(** [/^r$/.test(s)]. *)
Definition test_whole (r : re) (s : jsstring) : bool :=
  nullable (fold_left (fun r c => deriv c r) s r).

Definition anything : re := Star (Class (fun _ => true)).

(** [/r/.test(s)]. *)
Definition test_search (r : re) (s : jsstring) : bool :=
  test_whole (Seq anything (Seq r anything)) s.

Definition plus (r : re) : re := Seq r (Star r).
Definition opt (r : re) : re := Alt r Eps.

Definition ch (c : ascii) : Z -> bool := fun x => x =? charCode c.
Definition range (a b : ascii) : Z -> bool :=
  fun x => (charCode a <=? x) && (x <=? charCode b).
Definition union (p q : Z -> bool) : Z -> bool := fun x => p x || q x.

End Regex.
Import Regex.

(* ================================================================= *)
(** ** The host functions of the detection tool *)

(** What the browser provides and the source only calls.  [None] is a
    thrown exception. *)
Record Host := {
  (** [JSON.stringify(JSON.parse(s), null, 2)] *)
  JSON_reformat : jsstring -> option jsstring;
  decodeURIComponent : jsstring -> option jsstring;
  (** the text content of an element whose [innerHTML] is the argument *)
  innerHTML_text : jsstring -> jsstring;
  (** [DecompressionStream('gzip')] on a whole byte sequence *)
  gunzip : list Z -> option (list Z);
  (** [toUpperCase] and [toLowerCase] of a character outside ASCII *)
  upperCase : Z -> jsstring;
  lowerCase : Z -> jsstring;
  (** the message of the SyntaxError that the engine raises for a pattern
      whose class has a range out of order *)
  patternErrorMessage : jsstring
}.

(** [atob]: forgiving base64 decoding to a binary string. *)
Module Base64.

Definition isAsciiWhitespace (c : Z) : bool :=
  (c =? 9) || (c =? 10) || (c =? 12) || (c =? 13) || (c =? 32).

Definition sextet (c : Z) : option Z :=
  if (65 <=? c) && (c <=? 90) then Some (c - 65)
  else if (97 <=? c) && (c <=? 122) then Some (c - 71)
  else if (48 <=? c) && (c <=? 57) then Some (c + 4)
  else if c =? 43 then Some 62
  else if c =? 47 then Some 63
  else None.

Fixpoint sextets (s : jsstring) : option (list Z) :=
  match s with
  | [] => Some []
  | c :: r =>
      match sextet c, sextets r with
      | Some v, Some vs => Some (v :: vs)
      | _, _ => None
      end
  end.

Fixpoint bytesOf (vs : list Z) : jsstring :=
  match vs with
  | a :: b :: c :: d :: r =>
      let n := ((a * 64 + b) * 64 + c) * 64 + d in
      n / 65536 :: (n / 256) mod 256 :: n mod 256 :: bytesOf r
  | [a; b; c] =>
      let n := ((a * 64 + b) * 64 + c) / 4 in
      [n / 256; n mod 256]
  | [a; b] => [(a * 64 + b) / 16]
  | _ => []
  end.

Definition stripPadding (s : jsstring) : jsstring :=
  match rev s with
  | 61 :: 61 :: r => rev r
  | 61 :: r => rev r
  | _ => s
  end.

Definition atob (data : jsstring) : option jsstring :=
  let data := filter (fun c => negb (isAsciiWhitespace c)) data in
  let data := if Z.rem (length data) 4 =? 0 then stripPadding data else data in
  if Z.rem (length data) 4 =? 1 then None
  else match sextets data with
       | Some vs => Some (bytesOf vs)
       | None => None
       end.

End Base64.
Import Base64.

(* ================================================================= *)
(** ** The detection tool *)

(** The encoding types of [encodingTests], in trial order. *)
Inductive encoding :=
| jwt | base64 | base32 | base85 | hex | binary | url | morse | ascii
| html | quoted_printable | compress | rot13.

(** The string that names a type in the source. *)
Definition name (type : encoding) : jsstring :=
  match type with
  | jwt => js "jwt"
  | base64 => js "base64"
  | base32 => js "base32"
  | base85 => js "base85"
  | hex => js "hex"
  | binary => js "binary"
  | url => js "url"
  | morse => js "morse"
  | ascii => js "ascii"
  | html => js "html"
  | quoted_printable => js "quoted-printable"
  | compress => js "compress"
  | rot13 => js "rot13"
  end.

(** [appState.settings]. *)
Record Settings := {
  autoDetect : bool;
  detectionSensitivity : jsstring;
  enabledEncodings : list jsstring;
  strictValidation : bool;
  showConfidence : bool
}.

(** The settings the application starts with. *)
Definition defaultSettings : Settings :=
  {| autoDetect := true;
     detectionSensitivity := js "medium";
     enabledEncodings := [];
     strictValidation := false;
     showConfidence := false |}.

Definition includes (l : list jsstring) (s : jsstring) : bool :=
  existsb (str_eqb s) l.

Definition includesChar (s : jsstring) (c : Ascii.ascii) : bool :=
  existsb (fun x => x =? charCode c) s.

(** The patterns of the source. *)
Module Patterns.

Definition hexDigit : re :=
  Class (union (range "0" "9") (union (range "a" "f") (range "A" "F"))).
Definition whitespace : re := Class isWhiteSpace.
Definition digit : re := Class (range "0" "9").
Definition bit : re := Class (range "0" "1").
Definition eqSign : re := Class (ch "=").

(** [/^[A-Za-z0-9+/]*={0,2}$/] *)
Definition base64Shape : re :=
  Seq (Star (Class (union (range "A" "Z") (union (range "a" "z")
              (union (range "0" "9") (union (ch "+") (ch "/")))))))
      (Seq (opt eqSign) (opt eqSign)).

(** [/^[A-Z2-7=]*$/i]; without the [u] flag a character outside ASCII
    never folds to an ASCII one, so the class gains exactly [a-z]. *)
Definition base32Shape : re :=
  Star (Class (union (range "A" "Z") (union (range "a" "z")
         (union (range "2" "7") (ch "="))))).

(** The group [[0-9a-fA-F]{2}\s*]; [validateInput] has it under [*], the
    other places under [+], between [^] and [$]. *)
Definition hexGroup : re := Seq hexDigit (Seq hexDigit (Star whitespace)).
Definition hexGroupsStar : re := Star hexGroup.
Definition hexGroupsPlus : re := plus hexGroup.

(** The group [[01]{8}\s*], under [*] and [+] as for [hexGroup]. *)
Definition binaryGroup : re :=
  Seq bit (Seq bit (Seq bit (Seq bit (Seq bit (Seq bit (Seq bit (Seq bit
    (Star whitespace)))))))).
Definition binaryGroupsStar : re := Star binaryGroup.
Definition binaryGroupsPlus : re := plus binaryGroup.

(** [/%[0-9A-Fa-f]{2}/] *)
Definition percentEscape : re :=
  Seq (Class (ch "%")) (Seq hexDigit hexDigit).

(** [/^[.-\s/]+$/]: as [\s] is a class, the hyphen stands for itself. *)
Definition morseShape : re :=
  plus (Class (union (ch ".") (union (ch "-")
          (union isWhiteSpace (ch "/"))))).

(** The group [\d{2,3}\s*] under [+], between [^] and [$]. *)
Definition asciiShape : re :=
  plus (Seq digit (Seq digit (Seq (opt digit) (Star whitespace)))).

(** [/=[0-9A-Fa-f]{2}/] *)
Definition equalsEscape : re := Seq eqSign (Seq hexDigit hexDigit).

(** [/[a-zA-Z]/] *)
Definition letter : re :=
  Class (union (range "a" "z") (range "A" "Z")).

(** [/^[\x20-\x7E\s]*$/] *)
Definition printable : re :=
  Star (Class (union (fun c => (32 <=? c) && (c <=? 126)) isWhiteSpace)).

End Patterns.
Import Patterns.

Module ErrorHandler.

(** [validateInput(input, type)]; [false] when it throws.  The type is
    absent for the default ['general']. *)
Definition validateInput (input : jsstring) (type : option encoding) : bool :=
  if 1048576 <? length input then false
  else match type with
       | Some base64 =>
           if negb (test_whole base64Shape input) then false
           else if negb (Z.rem (length input) 4 =? 0) then false
           else true
       | Some hex => test_whole hexGroupsStar (trim input)
       | Some binary => test_whole binaryGroupsStar (trim input)
       | _ => true
       end.

End ErrorHandler.

Module DetectionEngine.

Local Open Scope float_scope.

(** [Math.min] of two numbers that are not NaN. *)
Definition Math_min (a b : float) : float := if PrimFloat.ltb b a then b else a.

(** [calculateConfidence]. *)
Definition calculateConfidence (input result : jsstring) (type : encoding)
  : float :=
  match result with
  | [] => 0
  | _ :: _ =>
      if str_eqb result input then 0
      else
        let confidence := 0.5 in
        let confidence :=
          if (10 <? length input)%Z then confidence + 0.1 else confidence in
        let confidence :=
          if (50 <? length input)%Z then confidence + 0.1 else confidence in
        let confidence :=
          match type with
          | base64 =>
              if (Z.rem (length input) 4 =? 0)%Z
                 && test_whole base64Shape input
              then confidence + 0.3 else confidence
          | hex =>
              if test_whole hexGroupsPlus (trim input)
              then confidence + 0.3 else confidence
          | url =>
              if includesChar input "%" && test_search percentEscape input
              then confidence + 0.2 else confidence
          | morse =>
              if test_whole morseShape input && includesChar input "."
                 && includesChar input "-"
              then confidence + 0.3 else confidence
          | _ => confidence
          end in
        let confidence :=
          if test_whole printable result then confidence + 0.1
          else confidence in
        Math_min confidence 1.0
  end.

(** The threshold that [shouldAttemptDecoding] looks up. *)
Definition minConfidenceOf (detectionSensitivity : jsstring) : float :=
  if str_eqb detectionSensitivity (js "strict") then 0.8
  else if str_eqb detectionSensitivity (js "medium") then 0.5
  else if str_eqb detectionSensitivity (js "loose") then 0.2
  else 0.5.

(** [shouldAttemptDecoding]; the source binds [minConfidence] and does not
    read it afterwards. *)
Definition shouldAttemptDecoding (input : jsstring) (type : encoding)
    (settings : Settings) : bool :=
  if negb (autoDetect settings) then false
  else if (0 <? Z.of_nat (List.length (enabledEncodings settings)))%Z
          && negb (includes (enabledEncodings settings) (name type))
  then false
  else
    let minConfidence := minConfidenceOf (detectionSensitivity settings) in
    match type with
    | base64 =>
        test_whole base64Shape input && (Z.rem (length input) 4 =? 0)%Z
    | hex => test_whole hexGroupsPlus (trim input)
    | binary => test_whole binaryGroupsPlus (trim input)
    | url => includesChar input "%" && test_search percentEscape input
    | morse => test_whole morseShape input
    | _ => true
    end.

End DetectionEngine.
Import DetectionEngine.

(** [String.fromCharCode(n)] of one number; NaN gives the character 0. *)
Definition fromCharCode (n : option Z) : Z :=
  match n with
  | Some x => ToUint16 x
  | None => 0
  end.

(** [s.split(/\s+/)]. *)
Fixpoint split_ws_from (inRun : bool) (s : jsstring) : list jsstring :=
  match s with
  | [] => [[]]
  | c :: r =>
      if isWhiteSpace c then
        if inRun then split_ws_from true r else [] :: split_ws_from true r
      else
        match split_ws_from false r with
        | p :: ps => (c :: p) :: ps
        | [] => [[c]]
        end
  end.

Definition split_ws (s : jsstring) : list jsstring := split_ws_from false s.

Fixpoint startsWith (s p : jsstring) : bool :=
  match p, s with
  | [], _ => true
  | x :: p', y :: s' => (x =? y) && startsWith s' p'
  | _ :: _, [] => false
  end.

(** [s.indexOf(p)]; [None] is -1. *)
Fixpoint indexOf (s p : jsstring) : option Z :=
  if startsWith s p then Some 0
  else match s with
       | [] => None
       | _ :: r =>
           match indexOf r p with
           | Some i => Some (i + 1)
           | None => None
           end
       end.

Definition base32Alphabet : jsstring := js "ABCDEFGHIJKLMNOPQRSTUVWXYZ234567".
Definition base85Alphabet : jsstring :=
  js "0123456789ABCDEFGHIJKLMNOPQRSTUVWXYZabcdefghijklmnopqrstuvwxyz!#$%&()*+-;<=>?@^_`{|}~".

Definition morseToChar : list (jsstring * jsstring) :=
  [ (js ".-", js "A"); (js "-...", js "B"); (js "-.-.", js "C");
    (js "-..", js "D"); (js ".", js "E"); (js "..-.", js "F");
    (js "--.", js "G"); (js "....", js "H"); (js "..", js "I");
    (js ".---", js "J"); (js "-.-", js "K"); (js ".-..", js "L");
    (js "--", js "M"); (js "-.", js "N"); (js "---", js "O");
    (js ".--.", js "P"); (js "--.-", js "Q"); (js ".-.", js "R");
    (js "...", js "S"); (js "-", js "T"); (js "..-", js "U");
    (js "...-", js "V"); (js ".--", js "W"); (js "-..-", js "X");
    (js "-.--", js "Y"); (js "--..", js "Z"); (js "-----", js "0");
    (js ".----", js "1"); (js "..---", js "2"); (js "...--", js "3");
    (js "....-", js "4"); (js ".....", js "5"); (js "-....", js "6");
    (js "--...", js "7"); (js "---..", js "8"); (js "----.", js "9");
    (js "/", js " ") ].

(** [morseToChar[code] || '']. *)
Fixpoint lookupOrEmpty (table : list (jsstring * jsstring)) (code : jsstring)
  : jsstring :=
  match table with
  | [] => []
  | (k, v) :: r => if str_eqb k code then v else lookupOrEmpty r code
  end.

(** [parts.join(sep)]. *)
Fixpoint join (sep : jsstring) (parts : list jsstring) : jsstring :=
  match parts with
  | [] => []
  | [p] => p
  | p :: r => p ++ sep ++ join sep r
  end.

(** [decodeMorse]. *)
Definition decodeMorse (morseText : jsstring) : jsstring :=
  trim
    (join (js " ")
       (map (fun word =>
               join [] (map (lookupOrEmpty morseToChar)
                            (split_on 32 (trim word))))
            (split_on 47 (trim morseText)))).

Module AdvancedEncoders.

(** The four bytes of a chunk value: [(value >> (j * 8)) & 0xFF] for [j]
    from 3 down to 0. *)
Definition chunkBytes (value : Z) : list Z :=
  map (fun j => band (sar value (j * 8)) 255) [3; 2; 1; 0].

(** The [while] loop of [decodeBase85]; each round consumes at least one
    character, so the length of the input bounds the number of rounds.  For
    a [z] the source appends the eight characters of its literal, four
    times a backslash and a zero digit. *)
Fixpoint decodeBase85_loop (rounds : nat) (input : jsstring)
  : option jsstring :=
  match rounds with
  | O => Some []
  | S n =>
      match input with
      | [] => Some []
      | c :: r =>
          if c =? charCode "z" then
            match decodeBase85_loop n r with
            | Some rest => Some (js "\0\0\0\0" ++ rest)
            | None => None
            end
          else
            let chunk := firstn 5 input in
            let value :=
              fold_left
                (fun value c =>
                   match value, indexOf base85Alphabet [c] with
                   | Some v, Some index => Some (v * 85 + index)
                   | _, _ => None
                   end)
                chunk (Some 0) in
            match value with
            | None => None          (* 'Invalid Base85 character' *)
            | Some value =>
                let chars :=
                  map (fun b => fromCharCode (Some b))
                      (firstn (List.length chunk - 1) (chunkBytes value)) in
                match decodeBase85_loop n (skipn 5 input) with
                | Some rest => Some (chars ++ rest)
                | None => None
                end
            end
      end
  end.

(** [decodeBase85]. *)
Definition decodeBase85 (input : jsstring) : option jsstring :=
  decodeBase85_loop (List.length input) input.

(** The first replacement of [decodeQuotedPrintable]: its pattern,
    [/=\\r\\n/g], is an equals sign followed by the four characters
    backslash, r, backslash, n. *)
Fixpoint removeSoftBreaks (s : jsstring) : jsstring :=
  match s with
  | 61 :: 92 :: 114 :: 92 :: 110 :: r => removeSoftBreaks r
  | c :: r => c :: removeSoftBreaks r
  | [] => []
  end.

Definition isHexDigit (c : Z) : bool :=
  ((48 <=? c) && (c <=? 57)) || ((65 <=? c) && (c <=? 70))
  || ((97 <=? c) && (c <=? 102)).

(** The second replacement: [/=([0-9A-Fa-f]{2})/g]. *)
Fixpoint unescapeHex (s : jsstring) : jsstring :=
  match s with
  | [] => []
  | c :: t =>
      match t with
      | a :: b :: r =>
          if (c =? 61) && isHexDigit a && isHexDigit b
          then fromCharCode (parseInt [a; b] (Some 16)) :: unescapeHex r
          else c :: unescapeHex t
      | _ => c :: unescapeHex t
      end
  end.

(** [decodeQuotedPrintable]. *)
Definition decodeQuotedPrintable (input : jsstring) : jsstring :=
  unescapeHex (removeSoftBreaks input).

End AdvancedEncoders.

(** [input.replace(/=+$/, '')]. *)
Fixpoint dropEquals (s : jsstring) : jsstring :=
  match s with
  | 61 :: r => dropEquals r
  | _ => s
  end.

Definition stripTrailingEquals (s : jsstring) : jsstring :=
  rev (dropEquals (rev s)).

(** The decoded record of a scan, and the running state of the loop. *)
Record DetectionResult := {
  result : jsstring;
  type : jsstring;
  confidence : float;
  originalType : encoding
}.

(** Besides the four variables of the source, the state has the first
    arguments of the calls of [console.warn] so far. *)
Record Scan := {
  bestResult : option jsstring;
  bestType : option jsstring;
  bestConfidence : float;
  results : list DetectionResult;
  warnings : list jsstring
}.

(** How the body of [detectAndDecode] ends, before anything is shown. *)
Inductive Outcome :=
| NothingToDecode            (* the input is blank: early return *)
| Rejected                   (* the first [validateInput] threw *)
| TestFailed (type : encoding) (s : Scan)
                             (* the [test] of [type] threw in the state [s]:
                                the loop is left for the outer [catch] *)
| Scanned (s : Scan).        (* the loop ran to its end *)

(** An exception as [handleEncodingError] reads it: the [type] that
    [createError] sets, absent on the errors of the engine, and the
    message. *)
Record Exception := {
  errorType : option jsstring;
  errorMessage : jsstring
}.

(** [s.includes(p)]. *)
Definition includesString (s p : jsstring) : bool :=
  match indexOf s p with Some _ => true | None => false end.

Section Detection.

Variable host : Host.

(** [c.toUpperCase()] of one character. *)
Definition toUpperCase (c : Z) : jsstring :=
  if (97 <=? c) && (c <=? 122) then [c - 32]
  else if c <? 128 then [c]
  else upperCase host c.

(** [c.toLowerCase()] of one character. *)
Definition toLowerCase (c : Z) : jsstring :=
  if (65 <=? c) && (c <=? 90) then [c + 32]
  else if c <? 128 then [c]
  else lowerCase host c.

(** [ErrorHandler.handleEncodingError(error, operation, input)]: the message
    for the user.  Its call of [console.error] is in [caught] below. *)
Definition handleEncodingError (error : Exception) (operation : jsstring)
  : jsstring :=
  let userMessage :=
    js "Error during " ++ flat_map toLowerCase operation ++ js ": " in
  let typeIs (t : jsstring) :=
    match errorType error with
    | Some type => str_eqb type t
    | None => false
    end in
  if typeIs (js "INVALID_INPUT") then
    userMessage ++ js "Invalid input format. Please check your data."
  else if typeIs (js "UNSUPPORTED_ENCODING") then
    userMessage ++ js "This encoding type is not supported."
  else if typeIs (js "DECODE_FAILED") then
    userMessage
      ++ js "Unable to decode this text. It may not be encoded or may be corrupted."
  else if typeIs (js "ENCODE_FAILED") then
    userMessage
      ++ js "Unable to encode this text. Please check the input format."
  else if includesString (errorMessage error) (js "Invalid") then
    userMessage
      ++ js "The input contains invalid characters for this encoding type."
  else if includesString (errorMessage error) (js "too large") then
    userMessage ++ js "The input is too large to process."
  else
    userMessage
      ++ match errorMessage error with
         | [] => js "An unexpected error occurred."
         | _ :: _ => errorMessage error
         end.

(** The error of [validateInput(input)] on a string, which has one cause,
    and the error of a pattern that the engine refuses. *)
Definition inputTooLarge : Exception :=
  {| errorType := Some (js "INVALID_INPUT");
     errorMessage := js "Input is too large (max 1MB)" |}.

Definition patternError : Exception :=
  {| errorType := None; errorMessage := patternErrorMessage host |}.

(** The loop of [decodeBase32] over the characters, with [value], [bits]
    and [output] as its state. *)
Fixpoint decodeBase32_loop (input : jsstring) (value bits : Z)
    (output : jsstring) : option jsstring :=
  match input with
  | [] => Some output
  | c :: r =>
      match indexOf base32Alphabet (toUpperCase c) with
      | None => None               (* 'Invalid base32 character' *)
      | Some index =>
          let value := bor (shl value 5) index in
          let bits := bits + 5 in
          if 8 <=? bits
          then decodeBase32_loop r value (bits - 8)
                 (output ++ [fromCharCode (Some (band (shr value (bits - 8)) 255))])
          else decodeBase32_loop r value bits output
      end
  end.

(** [decodeBase32]. *)
Definition decodeBase32 (input : jsstring) : option jsstring :=
  decodeBase32_loop (stripTrailingEquals input) 0 0 [].

(** [decodeJWT]. *)
Definition decodeJWT (token : jsstring) : option jsstring :=
  match split_on 46 token with
  | [_; part1; _] =>
      let payload :=
        map (fun c => if c =? 45 then 43 else if c =? 95 then 47 else c)
            part1 in
      let padding :=
        repeat 61 (Z.to_nat (Z.rem (4 - Z.rem (length payload) 4) 4)) in
      match atob (payload ++ padding) with
      | Some text => JSON_reformat host text
      | None => None
      end
  | _ => None                      (* 'Invalid JWT format' *)
  end.

(** [CompressionUtils.decompressLZ]. *)
Definition decompressLZ (compressedBase64 : jsstring) : option jsstring :=
  match atob compressedBase64 with
  | Some compressed =>
      match gunzip host compressed with
      | Some decompressed => Some (TextDecoder_decode (map Some decompressed))
      | None => None
      end
  | None => None
  end.

(** The replacement of the [rot13] case. *)
Definition rot13Char (char : Z) : Z :=
  if test_whole letter [char] then
    let base := if char <=? 90 then 65 else 97 in
    fromCharCode (Some (Z.rem (char - base + 13) 26 + base))
  else char.

(** The [switch] of the detection loop: the decoded [result], [None] when
    the case throws. *)
Definition decodeAs (type : encoding) (input : jsstring) : option jsstring :=
  match type with
  | jwt => decodeJWT input
  | base64 =>
      if ErrorHandler.validateInput input (Some base64) then atob input
      else None
  | base32 => decodeBase32 input
  | base85 => AdvancedEncoders.decodeBase85 input
  | hex =>
      if ErrorHandler.validateInput input (Some hex)
      then Some (map (fun hex => fromCharCode (parseInt hex (Some 16)))
                     (split_ws (trim input)))
      else None
  | binary =>
      if ErrorHandler.validateInput input (Some binary)
      then Some (map (fun bin => fromCharCode (parseInt bin (Some 2)))
                     (split_ws (trim input)))
      else None
  | url => decodeURIComponent host input
  | morse => Some (decodeMorse input)
  | ascii =>
      Some (map (fun code => fromCharCode (parseInt code None))
                (split_ws (trim input)))
  | html => Some (innerHTML_text host input)
  | quoted_printable => Some (AdvancedEncoders.decodeQuotedPrintable input)
  | compress => decompressLZ input
  | rot13 => Some (map rot13Char input)
  end.

Definition typeName (type : encoding) : jsstring :=
  match type with
  | jwt => js "JWT (JSON Web Token)"
  | base64 => js "Base64"
  | base32 => js "Base32"
  | base85 => js "Base85"
  | hex => js "Hexadecimal"
  | binary => js "Binary"
  | url => js "URL Encoding"
  | morse => js "Morse Code"
  | ascii => js "ASCII Codes"
  | html => js "HTML Entities"
  | quoted_printable => js "Quoted-Printable"
  | compress => js "LZ Compressed"
  | rot13 => js "ROT13"
  end.

(** [encodingTests]: the types in trial order, each with its [test];
    [None] when the call of [test] throws.  The pattern of the base85 entry,
    [/^[0-9A-Za-z!#$%&()*+\\-;<=>?@^_`{|}~z]*$/], has in its class a
    backslash, written with two, followed by [-;]: the range from the
    backslash (92) to the semicolon (59), whose bounds are out of order.
    It is no pattern of the language, and evaluating it raises a
    SyntaxError whatever the input.  (An engine that checks the literal
    when it reads the script refuses the script as a whole; the model
    follows the call.) *)
Definition encodingTests : list (encoding * (jsstring -> option bool)) :=
  [ (jwt, fun input =>
       Some (includesChar input "."
             && (List.length (split_on 46 input) =? 3)%nat));
    (base64, fun input =>
       Some (test_whole base64Shape input && (Z.rem (length input) 4 =? 0)));
    (base32, fun input => Some (test_whole base32Shape input));
    (base85, fun input => None);
    (hex, fun input => Some (test_whole hexGroupsPlus (trim input)));
    (binary, fun input => Some (test_whole binaryGroupsPlus (trim input)));
    (url, fun input =>
       Some (includesChar input "%" && test_search percentEscape input));
    (morse, fun input => Some (test_whole morseShape input));
    (ascii, fun input => Some (test_whole asciiShape (trim input)));
    (html, fun input =>
       Some (includesChar input "&" && includesChar input ";"));
    (quoted_printable, fun input =>
       Some (includesChar input "=" && test_search equalsEscape input));
    (compress, fun input => Some (test_whole base64Shape input));
    (rot13, fun input => Some (test_search letter input)) ].

Definition nonEmpty (s : jsstring) : bool :=
  match s with [] => false | _ :: _ => true end.

(** The inner [try] of a round: the [switch], the acceptance of the result
    and the inner [catch], which writes to the console when
    [settings.strictValidation] is set; the message of the error, the
    second argument of [console.warn], is not kept. *)
Definition decodeRound (settings : Settings) (input : jsstring) (s : Scan)
    (type : encoding) : Scan :=
  match decodeAs type input with
  | None =>
      if strictValidation settings
      then {| bestResult := bestResult s; bestType := bestType s;
              bestConfidence := bestConfidence s; results := results s;
              warnings := warnings s ++ [name type ++ js " decoding failed:"] |}
      else s
  | Some result =>
      if nonEmpty result && negb (str_eqb result input) then
        let confidence := calculateConfidence input result type in
        let results :=
          results s ++
            [ {| result := result; type := typeName type;
                 confidence := confidence; originalType := type |} ] in
        if PrimFloat.ltb (bestConfidence s) confidence
        then {| bestResult := Some result; bestType := Some (typeName type);
                bestConfidence := confidence; results := results;
                warnings := warnings s |}
        else {| bestResult := bestResult s; bestType := bestType s;
                bestConfidence := bestConfidence s; results := results;
                warnings := warnings s |}
      else s
  end.

(** One round of the loop [for (const { type, test } of encodingTests)];
    [None] when [test] throws, which is outside the inner [try]. *)
Definition tryEncoding (settings : Settings) (input : jsstring) (s : Scan)
    (entry : encoding * (jsstring -> option bool)) : option Scan :=
  let '(type, test) := entry in
  if negb (shouldAttemptDecoding input type settings) then Some s
  else match test input with
       | None => None
       | Some false => Some s
       | Some true => Some (decodeRound settings input s type)
       end.

(** The loop over the entries, from the state [s]. *)
Fixpoint detectionLoop (settings : Settings) (input : jsstring)
    (entries : list (encoding * (jsstring -> option bool))) (s : Scan)
  : Outcome :=
  match entries with
  | [] => Scanned s
  | entry :: rest =>
      match tryEncoding settings input s entry with
      | None => TestFailed (fst entry) s
      | Some s' => detectionLoop settings input rest s'
      end
  end.

Definition noScan : Scan :=
  {| bestResult := None; bestType := None; bestConfidence := 0%float;
     results := []; warnings := [] |}.

(** [detectAndDecode] on the text of the input field, through the loop:
    how the body of the outer [try] ends.  What the function then shows is
    [detectAndDecode_display] below. *)
Definition detectAndDecode (settings : Settings) (input : jsstring) : Outcome :=
  if negb (nonEmpty (trim input)) then NothingToDecode
  else if negb (ErrorHandler.validateInput input None) then Rejected
  else detectionLoop settings input encodingTests noScan.

End Detection.

(* ================================================================= *)
(** ** The key derivation in the words of the specification *)

Module KeyDerivationSpec.

Definition seed : Z := 5381.
Definition offset : Z := 7919.

(** The mixing step as the specification writes it:
    [acc = acc*33 + acc + charCode], truncated to 32 bits. *)
Definition fold_as_stated (acc c : Z) : Z :=
  (acc * 33 + acc + c) mod 4294967296.

(** The step of the classic DJB2 hash: [acc = acc*32 + acc + charCode],
    truncated to 32 bits. *)
Definition fold_djb2 (acc c : Z) : Z :=
  (acc * 32 + acc + c) mod 4294967296.

(** The keystream of a passphrase for a given mixing step: the passphrase
    is folded in from the seed, then for each index the accumulator is
    mixed with the index plus the offset and its low byte is taken. *)
Definition keystream (step : Z -> Z -> Z) (passphrase : jsstring) : list Z :=
  let acc := fold_left step passphrase seed in
  snd (fold_left
         (fun '(acc, out) i =>
            let acc := step acc (Z.of_nat i + offset) in
            (acc, out ++ [acc mod 256]))
         (seq 0 256) (acc, [])).

Definition derive_as_stated : jsstring -> list Z := keystream fold_as_stated.
Definition derive_djb2 : jsstring -> list Z := keystream fold_djb2.

End KeyDerivationSpec.

(* ================================================================= *)
(** ** Auxiliary definitions of the proofs *)

(** The [n] integers from [start] on, and those from 0 below [n]. *)
Fixpoint zrange_from (start : Z) (n : nat) : list Z :=
  match n with
  | O => []
  | S n' => start :: zrange_from (start + 1) n'
  end.

Definition zrange (n : nat) : list Z := zrange_from 0 n.

(** Layer 3 of [scrambleByte] and its reverse in [unscrambleByte]. *)
Definition rotl8 (x r : Z) : Z := band (bor (shl x r) (sar x (8 - r))) 255.
Definition rotr8 (x r : Z) : Z := band (bor (sar x r) (shl x (8 - r))) 255.

(** A string with the character at index [i] replaced by [c]. *)
Fixpoint replaceAt (i : nat) (c : Z) (s : jsstring) : jsstring :=
  match s, i with
  | [], _ => []
  | _ :: r, O => c :: r
  | x :: r, S i' => x :: replaceAt i' c r
  end.

Definition byte (b : Z) : Prop := 0 <= b <= 255.

(** A Unicode scalar value: a code point that is not a surrogate. *)
Definition scalar (cp : Z) : Prop :=
  0 <= cp < 1114112 /\ ~ (55296 <= cp <= 57343).

(** The checks that the proofs run over all bytes and all checksum values. *)
Definition table_entry_ok (b : Z) : bool :=
  match aget_holes substitutionMatrix b with
  | Some t =>
      (t =? (b * 17 + 42) mod 256) && (0 <=? t) && (t <? 256)
      && match aget_holes inverseMatrix t with
         | Some b' => b' =? b
         | None => false
         end
  | None => false
  end.

Definition lxor_byte_ok (a : Z) : bool :=
  forallb (fun b => let x := Z.lxor a b in (0 <=? x) && (x <=? 255))
          (zrange 256).

Definition rot_ok (x : Z) : bool :=
  forallb (fun r => let y := rotl8 x r in
                    (0 <=? y) && (y <=? 255) && (rotr8 y r =? x))
          (zrange 8).

Definition isLowerHex (c : Z) : bool :=
  ((48 <=? c) && (c <=? 57)) || ((97 <=? c) && (c <=? 102)).

Definition hex2_ok (b : Z) : bool :=
  match hex2 b with
  | [h; l] =>
      isLowerHex h && isLowerHex l
      && match parseInt [h; l] (Some 16) with
         | Some v => v =? b
         | None => false
         end
  | _ => false
  end.

Definition render4_ok (v : Z) : bool :=
  match padStart0 4 (toString16 v) with
  | [a; b; c; d] =>
      isLowerHex a && isLowerHex b && isLowerHex c && isLowerHex d
      && match digitsPrefix 16 [a; b; c; d] None with
         | Some v' => v' =? v
         | None => false
         end
  | _ => false
  end.

(** A host none of whose functions succeeds, for concrete runs. *)
Definition failingHost : Host :=
  {| JSON_reformat := fun _ => None;
     decodeURIComponent := fun _ => None;
     innerHTML_text := fun _ => [];
     gunzip := fun _ => None;
     upperCase := fun c => [c];
     lowerCase := fun c => [c];
     patternErrorMessage := js "Invalid regular expression" |}.

(** A host for texts without markup and without character reference, whose
    text content is the text itself. *)
Definition plainTextHost : Host :=
  {| JSON_reformat := fun _ => None;
     decodeURIComponent := fun _ => None;
     innerHTML_text := fun s => s;
     gunzip := fun _ => None;
     upperCase := fun c => [c];
     lowerCase := fun c => [c];
     patternErrorMessage := js "Invalid regular expression" |}.

(** Settings that enable the one type [rot13], with the sensitivity
    [strict] and with [loose]. *)
Definition strictSettings : Settings :=
  {| autoDetect := true;
     detectionSensitivity := js "strict";
     enabledEncodings := [js "rot13"];
     strictValidation := false;
     showConfidence := false |}.

Definition looseSettings : Settings :=
  {| autoDetect := true;
     detectionSensitivity := js "loose";
     enabledEncodings := [js "rot13"];
     strictValidation := false;
     showConfidence := false |}.

(** The default settings with a list of enabled types. *)
Definition enabling (types : list jsstring) : Settings :=
  {| autoDetect := true;
     detectionSensitivity := js "medium";
     enabledEncodings := types;
     strictValidation := false;
     showConfidence := false |}.

(** The scans that the two example inputs end with. *)
Definition helloScan : Scan :=
  {| bestResult := Some (js "Hello");
     bestType := Some (js "Base64");
     bestConfidence := (0.5 + 0.3 + 0.1)%float;
     results :=
       [ {| result := js "Hello"; type := js "Base64";
            confidence := (0.5 + 0.3 + 0.1)%float;
            originalType := base64 |} ];
     warnings := [] |}.

Definition rot13Scan : Scan :=
  {| bestResult := Some (js "n o");
     bestType := Some (js "ROT13");
     bestConfidence := (0.5 + 0.1)%float;
     results :=
       [ {| result := js "n o"; type := js "ROT13";
            confidence := (0.5 + 0.1)%float;
            originalType := rot13 |} ];
     warnings := [] |}.

Section LoopInvariant.

Variable host : Host.
Variable input : jsstring.

(** What the loop keeps true of its state: every accepted result is the
    decoding of the input under its type and differs from the input, and
    the best result is one of the accepted ones. *)
Definition accepted (r : DetectionResult) : Prop :=
  decodeAs host (originalType r) input = Some (result r)
  /\ result r <> input
  /\ type r = typeName (originalType r)
  /\ confidence r = calculateConfidence input (result r) (originalType r).

Definition consistent (s : Scan) : Prop :=
  Forall accepted (results s)
  /\ ((bestResult s = None /\ bestType s = None)
      \/ exists r, In r (results s)
                   /\ bestResult s = Some (result r)
                   /\ bestType s = Some (type r)
                   /\ bestConfidence s = confidence r).

End LoopInvariant.

(* ================================================================= *)
(** ** The buttons of the cipher page, the Caesar cipher and what the
    proofs about the scan use *)

(** The message of an error. *)
Definition message (e : error) : jsstring :=
  match e with
  | KeyRequired => js "Encryption key is required"
  | InvalidFormat => js "Invalid format"
  | ChecksumFailed => js "Checksum verification failed"
  | InvalidHexData => js "Invalid hex data"
  | InvalidHexChar => js "Invalid hex character"
  | DecodingFailed => js "Decoding failed: Invalid key or corrupted data"
  end.

(** What a click on a button ends with: an [alert] or a new value of the
    output field. *)
Inductive Shown :=
| Alert (msg : jsstring)
| Output (value : jsstring).

Definition blank (s : jsstring) : bool :=
  match trim s with [] => true | _ :: _ => false end.

(** The click handler of [encodeBtn] on the values of the text and key
    fields. *)
Definition encodeClick (text key : jsstring) : Shown :=
  if blank text then Alert (js "Please enter text to encode")
  else if blank key then Alert (js "Please enter an encryption key")
  else match encode (Str text) (Str key) with
       | Ok encoded => Output encoded
       | Throw error => Alert (js "Encoding failed: " ++ message error)
       end.

(** The click handler of [decodeBtn]. *)
Definition decodeClick (text key : jsstring) : Shown :=
  if blank text then Alert (js "Please enter encoded text to decode")
  else if blank key then Alert (js "Please enter the encryption key")
  else match decode (Str text) (Str key) with
       | Ok decoded => Output decoded
       | Throw error => Alert (js "Decoding failed: " ++ message error)
       end.

(** The scores that [calculateConfidence] can give to an accepted result:
    the base with what the length adds, then what the type adds, then what
    a printable result adds, capped at 1. *)
Definition acceptedScores : list float :=
  flat_map
    (fun afterLength =>
       flat_map
         (fun afterType =>
            [Math_min afterType 1.0; Math_min (afterType + 0.1) 1.0])
         [afterLength; afterLength + 0.3; afterLength + 0.2])%float
    [0.5; 0.5 + 0.1; 0.5 + 0.1 + 0.1]%float.

(** The types of [encodingTests], in trial order. *)
Definition trialOrder : list encoding :=
  [jwt; base64; base32; base85; hex; binary; url; morse; ascii; html;
   quoted_printable; compress; rot13].

(** Whether a round of the loop accepts a result for its type. *)
Definition accepts (host : Host) (settings : Settings) (input : jsstring)
    (entry : encoding * (jsstring -> option bool)) : bool :=
  shouldAttemptDecoding input (fst entry) settings
  && match snd entry input with Some passed => passed | None => false end
  && match decodeAs host (fst entry) input with
     | Some result => nonEmpty result && negb (str_eqb result input)
     | None => false
     end.

(** The record that the loop pushes for a type. *)
Definition recordOf (host : Host) (input : jsstring) (ty : encoding)
  : DetectionResult :=
  let result :=
    match decodeAs host ty input with Some r => r | None => [] end in
  {| result := result; type := typeName ty;
     confidence := calculateConfidence input result ty;
     originalType := ty |}.

(** The order of the scores that the choice of the best result relies on. *)
Definition scores_ordered (a : float) : bool :=
  PrimFloat.ltb 0 a
  && forallb
       (fun b =>
          implb (negb (PrimFloat.ltb a b)) (PrimFloat.leb b a)
          && forallb
               (fun c =>
                  implb (PrimFloat.ltb a b && PrimFloat.ltb b c)
                        (PrimFloat.ltb a c)
                  && implb (PrimFloat.leb a b && PrimFloat.ltb b c)
                           (PrimFloat.ltb a c))
               acceptedScores)
       acceptedScores.

(** The replacement of [caesarEncode] for one character; the shift is a
    number, [None] when it is NaN. *)
Definition caesarChar (shift : option Z) (char : Z) : Z :=
  if test_whole letter [char] then
    let base := if char <=? 90 then 65 else 97 in
    fromCharCode
      (match shift with
       | Some k => Some (Z.rem (char - base + k) 26 + base)
       | None => None
       end)
  else char.

(** [caesarEncode]. *)
Definition caesarEncode (text : jsstring) (shift : option Z) : jsstring :=
  map (caesarChar shift) text.

(** [caesarDecode]. *)
Definition caesarDecode (text : jsstring) (shift : option Z) : jsstring :=
  caesarEncode text (option_map (fun k => 26 - k) shift).

(** The state of the loop: the best result is the first of the accepted
    results with the highest score. *)
Definition ranked (s : Scan) : Prop :=
  Forall (fun x => In (confidence x) acceptedScores) (results s)
  /\ ((bestResult s = None /\ bestType s = None /\ results s = []
       /\ bestConfidence s = 0%float)
      \/ exists before best after,
           results s = before ++ best :: after
           /\ bestResult s = Some (result best)
           /\ bestType s = Some (type best)
           /\ bestConfidence s = confidence best
           /\ Forall (fun x => PrimFloat.ltb (confidence x) (confidence best)
                               = true) before
           /\ Forall (fun x => PrimFloat.leb (confidence x) (confidence best)
                               = true) after).


(** *** [encodeBase32] *)

(** [output += alphabet[i]]: what is appended. *)
Definition charAt (alphabet : jsstring) (i : Z) : jsstring :=
  match aget alphabet i with
  | Some c => [c]
  | None => js "undefined"
  end.

(** The inner loop of [encodeBase32], [while (bits >= 5)]; each round takes
    five bits, so [rounds] rounds are enough when [bits <= 5 * rounds]. *)
Fixpoint encodeBase32_emit (rounds : nat) (value bits : Z) (output : jsstring)
  : Z * jsstring :=
  match rounds with
  | O => (bits, output)
  | S n =>
      if 5 <=? bits
      then encodeBase32_emit n value (bits - 5)
             (output ++ charAt base32Alphabet (band (shr value (bits - 5)) 31))
      else (bits, output)
  end.

(** One round of the loop of [encodeBase32] over the characters. *)
Definition encodeBase32_step (st : Z * Z * jsstring) (c : Z)
  : Z * Z * jsstring :=
  let '(value, bits, output) := st in
  let value := bor (shl value 8) c in
  let bits := bits + 8 in
  let '(bits, output) :=
    encodeBase32_emit (Z.to_nat bits) value bits output in
  (value, bits, output).

(** The last loop of [encodeBase32], [while (output.length % 8 !== 0)];
    it ends within seven rounds. *)
Fixpoint encodeBase32_pad (rounds : nat) (output : jsstring) : jsstring :=
  match rounds with
  | O => output
  | S n =>
      if negb (Z.rem (length output) 8 =? 0)
      then encodeBase32_pad n (output ++ [61])
      else output
  end.

(** [encodeBase32]. *)
Definition encodeBase32 (input : jsstring) : jsstring :=
  let '(value, bits, output) := fold_left encodeBase32_step input (0, 0, []) in
  let output :=
    if 0 <? bits
    then output ++ charAt base32Alphabet (band (shl value (5 - bits)) 31)
    else output in
  encodeBase32_pad 7 output.


(** *** [AdvancedEncoders.encodeQuotedPrintable] *)

(** The class of the first replacement of [encodeQuotedPrintable], read as
    it is written: a backslash, the letter x, the digit 0, the range from
    the digit 0 to a backslash, x, 1, F, a backslash, x, 7, the range from
    F to a backslash, x, F, F and the equals sign. *)
Definition quotedPrintableClass : Z -> bool :=
  union (ch "\") (union (ch "x") (union (ch "0") (union (range "0" "\")
  (union (ch "x") (union (ch "1") (union (ch "F") (union (ch "\")
  (union (ch "x") (union (ch "7") (union (range "F" "\")
  (union (ch "x") (union (ch "F") (union (ch "F") (ch "=")))))))))))))).

Definition isLineTerminator (c : Z) : bool :=
  (c =? 10) || (c =? 13) || (c =? 8232) || (c =? 8233).

(** What the second replacement of [encodeQuotedPrintable] puts behind
    75 characters: an equals sign, a backslash, r, a backslash, n. *)
Definition softBreak : jsstring := [61; 92; 114; 92; 110].

(** [s.replace(/(.{75})/g, ...)]: where 75 characters other than line
    terminators follow, they are copied with the break behind them and the
    search goes on after them; elsewhere one character is copied. *)
Fixpoint wrap75_from (fuel : nat) (s : jsstring) : jsstring :=
  match fuel with
  | O => s
  | S f =>
      match s with
      | [] => []
      | c :: r =>
          let line := firstn 75 s in
          if (List.length line =? 75)%nat
             && forallb (fun c => negb (isLineTerminator c)) line
          then line ++ softBreak ++ wrap75_from f (skipn 75 s)
          else c :: wrap75_from f r
      end
  end.

Definition wrap75 (s : jsstring) : jsstring := wrap75_from (List.length s) s.

Section QuotedPrintable.

Variable host : Host.

(** The callback of the first replacement. *)
Definition escapeQuotedPrintable (c : Z) : jsstring :=
  61 :: padStart0 2 (flat_map (toUpperCase host) (toString16 c)).

(** [AdvancedEncoders.encodeQuotedPrintable]. *)
Definition encodeQuotedPrintable (input : jsstring) : jsstring :=
  wrap75
    (flat_map (fun c => if quotedPrintableClass c
                        then escapeQuotedPrintable c else [c]) input).

End QuotedPrintable.


(** *** The cases of [encode] that the detection tool decodes *)

(** [Array.from(s)]: the code points of [s], each as a string of one code
    unit or of the two of a surrogate pair. *)
Fixpoint arrayFrom (s : jsstring) : list jsstring :=
  match s with
  | [] => []
  | c :: r =>
      match r with
      | d :: r' =>
          if isHighSurrogate c && isLowSurrogate d
          then [c; d] :: arrayFrom r'
          else [c] :: arrayFrom r
      | [] => [[c]]
      end
  end.

(** [char.charCodeAt(0)]; [None] is NaN. *)
Definition charCodeAt0 (char : jsstring) : option Z :=
  match char with
  | c :: _ => Some c
  | [] => None
  end.

(** [n.toString(radix)] for an integral [n] or NaN. *)
Definition numberToString (radix : Z) (n : option Z) : jsstring :=
  match n with
  | None => js "NaN"
  | Some n =>
      if n <? 0
      then 45 :: digits (S (Z.to_nat (Z.log2 (- n)))) radix (- n) []
      else digits (S (Z.to_nat (Z.log2 n))) radix n []
  end.

(** [case 'hex'] of [encode]. *)
Definition encode_hex (input : jsstring) : jsstring :=
  join (js " ")
    (map (fun char => padStart0 2 (numberToString 16 (charCodeAt0 char)))
         (arrayFrom input)).

(** [case 'binary'] of [encode]. *)
Definition encode_binary (input : jsstring) : jsstring :=
  join (js " ")
    (map (fun char => padStart0 8 (numberToString 2 (charCodeAt0 char)))
         (arrayFrom input)).

(** [case 'ascii'] of [encode]; [join] writes the numbers in decimal. *)
Definition encode_ascii (input : jsstring) : jsstring :=
  join (js " ")
    (map (fun char => numberToString 10 (charCodeAt0 char))
         (arrayFrom input)).

(** A token of a list joined by spaces: not empty and without white
    space. *)
Definition token (t : jsstring) : Prop :=
  t <> [] /\ Forall (fun c => isWhiteSpace c = false) t.

(** Two lowercase hexadecimal digits, and eight binary digits. *)
Definition hexDigits2 (t : jsstring) : Prop :=
  exists h l, t = [h; l] /\ isLowerHex h = true /\ isLowerHex l = true.

Definition binaryDigits8 (t : jsstring) : Prop :=
  List.length t = 8%nat /\ Forall (fun c => c = 48 \/ c = 49) t.


(** *** [AdvancedEncoders.encodeBase85] *)

(** The inner loop over [j]: a digit is put in front of [encoded] and
    [value] is divided, [rounds] times. *)
Fixpoint encodeBase85_digits (rounds : nat) (value : Z) (encoded : jsstring)
  : jsstring :=
  match rounds with
  | O => encoded
  | S n =>
      encodeBase85_digits n (value / 85)
        (charAt base85Alphabet (Z.rem value 85) ++ encoded)
  end.

(** What one chunk of at most four bytes adds to the result. *)
Definition encodeBase85_chunk (chunk : list Z) : jsstring :=
  let paddedChunk := chunk ++ repeat 0 (4 - List.length chunk) in
  let at_ i := nth i paddedChunk 0 in
  let value :=
    bor (bor (bor (shl (at_ 0%nat) 24) (shl (at_ 1%nat) 16))
             (shl (at_ 2%nat) 8))
        (at_ 3%nat) in
  if (value =? 0) && (List.length chunk =? 4)%nat then js "z"
  else firstn (List.length chunk + 1) (encodeBase85_digits 5 value []).

(** The loop over the chunks; each round takes four bytes, so the number of
    bytes bounds the number of rounds. *)
Fixpoint encodeBase85_loop (rounds : nat) (bytes : list Z) : jsstring :=
  match rounds with
  | O => []
  | S n =>
      match bytes with
      | [] => []
      | _ :: _ =>
          encodeBase85_chunk (firstn 4 bytes)
            ++ encodeBase85_loop n (skipn 4 bytes)
      end
  end.

Definition encodeBase85 (input : jsstring) : jsstring :=
  let bytes := TextEncoder_encode input in
  encodeBase85_loop (List.length bytes) bytes.


(** *** The HTML case of [encode] *)

(** The callback of [case 'html'] of [encode] on a character of the class:
    the entity of [<], [>], [&], the double quote (34) and the single
    quote (39). *)
Definition htmlEntity (c : Z) : option jsstring :=
  if c =? 60 then Some (js "&lt;")
  else if c =? 62 then Some (js "&gt;")
  else if c =? 38 then Some (js "&amp;")
  else if c =? 34 then Some (js "&quot;")
  else if c =? 39 then Some (js "&#39;")
  else None.

(** [case 'html'] of [encode]. *)
Definition encode_html (input : jsstring) : jsstring :=
  flat_map (fun c => match htmlEntity c with
                     | Some entity => entity
                     | None => [c]
                     end) input.


(** *** The Morse case of [encode] *)

(** [obj[key] = value] and [obj[key]] on an object kept as the list of its
    entries; [None] is undefined. *)
Fixpoint setProperty (obj : list (jsstring * jsstring)) (key value : jsstring)
  : list (jsstring * jsstring) :=
  match obj with
  | [] => [(key, value)]
  | (k, v) :: r =>
      if str_eqb k key then (k, value) :: r
      else (k, v) :: setProperty r key value
  end.

Fixpoint getProperty (obj : list (jsstring * jsstring)) (key : jsstring)
  : option jsstring :=
  match obj with
  | [] => None
  | (k, v) :: r => if str_eqb k key then Some v else getProperty r key
  end.

(** [charToMorse]: the entries of [morseToChar] with key and value
    exchanged. *)
Definition charToMorse : list (jsstring * jsstring) :=
  fold_left (fun obj '(code, char) => setProperty obj char code)
            morseToChar [].

(** The callback [charToMorse[char] || char]. *)
Definition morseOf (char : jsstring) : jsstring :=
  match getProperty charToMorse char with
  | Some (c :: r) => c :: r
  | _ => char
  end.

Section Morse.

Variable host : Host.

(** [case 'morse'] of [encode]. *)
Definition encode_morse (input : jsstring) : jsstring :=
  join (js " ")
    (map morseOf
         (map (fun c => [c]) (flat_map (toUpperCase host) input))).

End Morse.

(** The characters that have a Morse code: capital letters and digits. *)
Definition morseLetter (c : Z) : bool :=
  ((65 <=? c) && (c <=? 90)) || ((48 <=? c) && (c <=? 57)).

(** The codes of the characters of a word, joined by spaces, and a word of
    letters and digits. *)
Definition morseCodes (w : jsstring) : jsstring :=
  join (js " ") (map (fun c => morseOf [c]) w).

Definition morseWord (w : jsstring) : Prop :=
  Forall (fun c => morseLetter c = true) w.

(** *** What [detectAndDecode] shows *)

(** [Math.round(x)] as an integer, for a finite [x]: the integer nearest
    to [x], the upper one of two that are equally near. *)
Definition Math_round (x : float) : option Z :=
  match Prim2SF x with
  | S754_zero _ => Some 0
  | S754_finite s m e =>
      let n := if s then Zneg m else Zpos m in
      Some (if 0 <=? e then n * 2 ^ e
            else (2 * n + 2 ^ (- e)) / 2 ^ (1 - e))
  | S754_infinity _ | S754_nan => None
  end.

(** [`${Math.round(x)}`]. *)
Definition roundedText (x : float) : jsstring :=
  match Math_round x with
  | Some n => numberToString 10 (Some n)
  | None =>
      if PrimFloat.ltb 0 x then js "Infinity"
      else if PrimFloat.ltb x 0 then js "-Infinity"
      else js "NaN"
  end.

(** [results.sort((a, b) => b.confidence - a.confidence)]: a stable sort;
    [y] goes before an earlier [x] when the comparison of [y] with [x] is
    negative. *)
Fixpoint insertByConfidence (x : DetectionResult) (l : list DetectionResult)
  : list DetectionResult :=
  match l with
  | [] => [x]
  | y :: r =>
      if PrimFloat.ltb (confidence x - confidence y) 0
      then y :: insertByConfidence x r
      else x :: l
  end.

Definition sortByConfidence (l : list DetectionResult) : list DetectionResult :=
  fold_right insertByConfidence [] l.

(** The type of a message of [showMessage]: ['error'], ['success'],
    ['warning']. *)
Inductive MessageKind := ErrorMessage | SuccessMessage | WarningMessage.

Inductive ConsoleEntry :=
| ConsoleWarn (text : jsstring)
| ConsoleLog (text : jsstring) (results : list DetectionResult)
| ConsoleError (text : jsstring) (error : Exception).

(** What a call of [detectAndDecode] does to the page and the console:
    the arguments of [showOutput('decode', result, info)], of
    [addToHistory('decode', type, input, output)], which [updateStats]
    follows, and of [showMessage('decode', kind, text)], and the lines of
    the console.  The loading state of the button, set before the [try] and
    removed after it, is not part of it. *)
Record Display := {
  shownOutput : option (jsstring * jsstring);
  addedToHistory : option (option jsstring * jsstring * jsstring);
  shownMessage : option (MessageKind * jsstring);
  consoleLines : list ConsoleEntry
}.

Section Display.

Variable host : Host.
Variable settings : Settings.
Variable isAuto : bool.
Variable input : jsstring.

(** The outer [catch]. *)
Definition caught (error : Exception) (warned : list jsstring) : Display :=
  let userMessage := handleEncodingError host error (js "Decoding") in
  {| shownOutput := None;
     addedToHistory := None;
     shownMessage :=
       if isAuto then None else Some (ErrorMessage, userMessage);
     consoleLines :=
       map ConsoleWarn warned
         ++ [ ConsoleError (js "Decoding" ++ js " error:") error;
              ConsoleError (js "Decoding error:") error ] |}.

(** The statements behind the loop. *)
Definition shown (s : Scan) : Display :=
  let count := Z.of_nat (List.length (results s)) in
  let bestTypeText :=
    match bestType s with Some t => t | None => js "null" end in
  match bestResult s with
  | Some (c :: r) =>
      let confidenceText :=
        if showConfidence settings
        then js " (" ++ roundedText (bestConfidence s * 100)%float
               ++ js "% confidence)"
        else [] in
      {| shownOutput :=
           Some (c :: r, js "Detected: " ++ bestTypeText ++ confidenceText);
         addedToHistory :=
           if isAuto then None else Some (bestType s, input, c :: r);
         shownMessage :=
           if isAuto then None
           else Some (SuccessMessage,
                      js "Successfully decoded as " ++ bestTypeText ++ js "!"
                        ++ (if 1 <? count
                            then js " Found "
                                   ++ numberToString 10 (Some count)
                                   ++ js " possible encodings."
                            else []));
         consoleLines :=
           map ConsoleWarn (warnings s)
             ++ (if negb isAuto && showConfidence settings && (1 <? count)
                 then [ ConsoleLog (js "Alternative decoding results:")
                                   (sortByConfidence (results s)) ]
                 else []) |}
  | _ =>
      {| shownOutput := None;
         addedToHistory := None;
         shownMessage :=
           if isAuto then None
           else Some (WarningMessage,
                      js "No encoding detected. "
                        ++ (if negb (autoDetect settings)
                            then js "Auto-detection is disabled. " else [])
                        ++ js "The text might already be decoded or use an unsupported encoding.");
         consoleLines := map ConsoleWarn (warnings s) |}
  end.

(** [detectAndDecode(isAuto)] as a whole. *)
Definition detectAndDecode_display : Display :=
  match detectAndDecode host settings input with
  | NothingToDecode =>
      {| shownOutput := None;
         addedToHistory := None;
         shownMessage :=
           if isAuto then None
           else Some (ErrorMessage, js "Please enter some text to decode");
         consoleLines := [] |}
  | Rejected => caught inputTooLarge []
  | TestFailed _ s => caught (patternError host) (warnings s)
  | Scanned s => shown s
  end.

End Display.

(* ================================================================= *)
(** * Properties *)

(** ** Integer conversions *)

Lemma ToInt32_small (x : Z) :
  -2147483648 <= x < 2147483648 -> ToInt32 x = x.
Proof.
  intros H. unfold ToInt32.
  rewrite Z.mod_small by lia. lia.
Qed.

Lemma ToInt32_range (x : Z) : -2147483648 <= ToInt32 x < 2147483648.
Proof.
  unfold ToInt32.
  pose proof (Z.mod_pos_bound (x + 2147483648) 4294967296 eq_refl). lia.
Qed.

Lemma ToInt32_eqm (x : Z) : ToInt32 x mod 4294967296 = x mod 4294967296.
Proof.
  unfold ToInt32.
  rewrite Zminus_mod, Zmod_mod, <- Zminus_mod.
  f_equal. lia.
Qed.

Lemma mod_256_of_mod_2_32 (x : Z) : (x mod 4294967296) mod 256 = x mod 256.
Proof.
  change 4294967296 with (256 * 16777216).
  rewrite Z.rem_mul_r by lia.
  rewrite Z.mul_comm, Z.mod_add by lia.
  apply Z.mod_mod. lia.
Qed.

Lemma ToInt32_mod_256 (x : Z) : ToInt32 x mod 256 = x mod 256.
Proof.
  rewrite <- (mod_256_of_mod_2_32 (ToInt32 x)), ToInt32_eqm.
  apply mod_256_of_mod_2_32.
Qed.

Lemma band_255 (x : Z) : band x 255 = x mod 256.
Proof.
  unfold band. rewrite (ToInt32_small 255) by lia.
  change 255 with (Z.ones 8). rewrite Z.land_ones by lia.
  apply ToInt32_mod_256.
Qed.

Lemma band_all_ones (x : Z) : band x 4294967295 = ToInt32 x.
Proof.
  unfold band. change (ToInt32 4294967295) with (-1).
  apply Z.land_m1_r.
Qed.

Lemma shl_5_eqm (x : Z) : shl x 5 mod 4294967296 = (x * 32) mod 4294967296.
Proof.
  unfold shl. change (5 mod 32) with 5.
  rewrite ToInt32_eqm, Z.shiftl_mul_pow2 by lia.
  change (2 ^ 5) with 32.
  rewrite Zmult_mod, ToInt32_eqm, <- Zmult_mod. reflexivity.
Qed.

(** ** Ranges of integers and arrays *)

Lemma in_zrange_from (n : nat) (start x : Z) :
  In x (zrange_from start n) <-> start <= x < start + Z.of_nat n.
Proof.
  revert start. induction n as [|n IH]; intros start; simpl.
  - lia.
  - rewrite IH. lia.
Qed.

Lemma in_zrange (n : nat) (x : Z) : 0 <= x < Z.of_nat n -> In x (zrange n).
Proof. intros H. apply in_zrange_from. lia. Qed.

Lemma zrange_from_NoDup (n : nat) (start : Z) : NoDup (zrange_from start n).
Proof.
  revert start. induction n as [|n IH]; intros start; simpl; constructor.
  - rewrite in_zrange_from. lia.
  - apply IH.
Qed.

Lemma forallb_zrange (f : Z -> bool) (n : nat) :
  forallb f (zrange n) = true -> forall x, 0 <= x < Z.of_nat n -> f x = true.
Proof.
  intros H x Hx. rewrite forallb_forall in H. apply H, in_zrange, Hx.
Qed.

Lemma aget_Some {A} (l : list A) (i : Z) :
  0 <= i < Z.of_nat (List.length l) -> exists v, aget l i = Some v /\ In v l.
Proof.
  intros H. unfold aget.
  destruct (Z.ltb_spec i 0); [lia|].
  destruct (nth_error l (Z.to_nat i)) as [v|] eqn:E.
  - exists v. split; [reflexivity|]. eapply nth_error_In, E.
  - apply nth_error_None in E. lia.
Qed.

(** ** Key derivation *)

Section KeyDerivation.

Import KeyDerivationSpec.

Let M := 4294967296.

Lemma mix_eqm (h c : Z) : mix h c mod M = fold_djb2 (h mod M) c.
Proof.
  unfold mix, fold_djb2, M. rewrite band_all_ones, ToInt32_eqm.
  pose proof (shl_5_eqm h) as H.
  generalize dependent (shl h 5). intros A H.
  Z.div_mod_to_equations. lia.
Qed.

Lemma fold_djb2_reduced (a c : Z) : fold_djb2 a c mod M = fold_djb2 a c.
Proof. unfold fold_djb2, M. apply Z.mod_mod. lia. Qed.

Lemma fold_mix_eqm (k : jsstring) (h : Z) :
  fold_left mix k h mod M = fold_left fold_djb2 k (h mod M).
Proof.
  revert h. induction k as [|c k IH]; intros h; simpl; [reflexivity|].
  rewrite IH, mix_eqm. reflexivity.
Qed.

(** The second loop of [keyDerivation] against the keystream loop. *)
Lemma stream_loop_eqm (l : list nat) (h : Z) (out : list Z) :
  let '(h', out') :=
    fold_left
      (fun st i =>
         (fun i '(hash, derivedKey) =>
            let hash := mix hash (i + 7919) in
            (hash, derivedKey ++ [band hash 255])) (Z.of_nat i) st)
      l (h, out) in
  fold_left
    (fun '(acc, out) i =>
       let acc := fold_djb2 acc (Z.of_nat i + offset) in
       (acc, out ++ [acc mod 256]))
    l (h mod M, out) = (h' mod M, out').
Proof.
  revert h out. induction l as [|i l IH]; intros h out; simpl; [reflexivity|].
  specialize (IH (mix h (Z.of_nat i + 7919))
                 (out ++ [band (mix h (Z.of_nat i + 7919)) 255])).
  destruct (fold_left _ l _) as [h' out'].
  rewrite <- IH. f_equal. unfold offset. f_equal.
  - symmetry. apply mix_eqm.
  - rewrite band_255, <- mix_eqm. unfold M.
    rewrite mod_256_of_mod_2_32. reflexivity.
Qed.

Lemma keyDerivation_djb2 (k : jsstring) :
  k <> [] -> keyDerivation (Str k) = Ok (derive_djb2 k).
Proof.
  intros Hk. destruct k as [|c k]; [congruence|].
  unfold keyDerivation, derive_djb2, keystream, for_upto.
  pose proof (stream_loop_eqm (seq 0 256) (fold_left mix (c :: k) 5381) [])
    as H.
  cbv beta zeta in H |- *.
  destruct (fold_left _ (seq 0 256) (fold_left mix (c :: k) 5381, []))
    as [h' out'].
  rewrite fold_mix_eqm in H. change (5381 mod M) with seed in H.
  rewrite H. reflexivity.
Qed.

Lemma keystream_loop_bytes (step : Z -> Z -> Z) (l : list nat) (acc : Z)
    (out : list Z) :
  Forall byte out ->
  let out' :=
    snd (fold_left
           (fun '(acc, out) i =>
              let acc := step acc (Z.of_nat i + offset) in
              (acc, out ++ [acc mod 256]))
           l (acc, out)) in
  List.length out' = (List.length out + List.length l)%nat /\ Forall byte out'.
Proof.
  revert acc out. induction l as [|i l IH]; intros acc out Hout; simpl.
  - split; [lia | assumption].
  - edestruct (IH (step acc (Z.of_nat i + offset))
                 (out ++ [step acc (Z.of_nat i + offset) mod 256]))
      as [Hlen Hall].
    + apply Forall_app. split; [assumption|]. constructor; [|constructor].
      unfold byte.
      pose proof (Z.mod_pos_bound (step acc (Z.of_nat i + offset)) 256 eq_refl).
      lia.
    + split; [|exact Hall].
      etransitivity; [exact Hlen|]. rewrite length_app. simpl. lia.
Qed.

Lemma derive_djb2_bytes (k : jsstring) :
  List.length (derive_djb2 k) = 256%nat /\ Forall byte (derive_djb2 k).
Proof.
  unfold derive_djb2, keystream.
  apply (keystream_loop_bytes fold_djb2 (seq 0 256) _ []). constructor.
Qed.

End KeyDerivation.

(** C5, as stated: the mixing step [acc*33 + acc + charCode] of the claim is
    not the one of the code; for the passphrase [a] the keystream it gives
    differs from the derived key. *)
Lemma keyDerivation_not_as_stated :
  keyDerivation (Str (js "a"))
  <> Ok (KeyDerivationSpec.derive_as_stated (js "a")).
Proof. vm_compute. discriminate. Qed.

(** C5, amended: from the seed 5381 each passphrase character is folded in
    with [acc = acc*32 + acc + charCode] (that is [acc*33 + charCode])
    truncated to 32 bits; then for each index [i] of 0..255 the accumulator
    becomes [acc*32 + acc + i + 7919] truncated to 32 bits and
    [keystream[i]] is its low byte. *)
Theorem keyDerivation_follows_djb2 (k : jsstring) :
  k <> [] -> keyDerivation (Str k) = Ok (KeyDerivationSpec.derive_djb2 k).
Proof. apply keyDerivation_djb2. Qed.

Lemma keyDerivation_follows_djb2_witness :
  js "k3y!" <> []
  /\ keyDerivation (Str (js "k3y!"))
     = Ok (KeyDerivationSpec.derive_djb2 (js "k3y!")).
Proof.
  split; [discriminate | apply keyDerivation_follows_djb2; discriminate].
Defined.

(** C6: for every non-empty passphrase the derivation succeeds, a second
    derivation from the identical passphrase gives the identical key, and
    the derived key has exactly 256 elements, each in 0..255. *)
Theorem keyDerivation_deterministic_256_bytes (key : jsstring) :
  key <> [] ->
  exists derivedKey,
    keyDerivation (Str key) = Ok derivedKey
    /\ (forall key', key' = key -> keyDerivation (Str key') = Ok derivedKey)
    /\ List.length derivedKey = 256%nat
    /\ Forall (fun b => 0 <= b <= 255) derivedKey.
Proof.
  intros Hk. exists (KeyDerivationSpec.derive_djb2 key).
  pose proof (keyDerivation_djb2 key Hk) as H.
  destruct (derive_djb2_bytes key) as [Hlen Hall].
  repeat split; try assumption.
  intros key' ->. exact H.
Qed.

Lemma keyDerivation_deterministic_256_bytes_witness :
  js "k3y!" <> []
  /\ exists derivedKey,
       keyDerivation (Str (js "k3y!")) = Ok derivedKey
       /\ (forall key', key' = js "k3y!" ->
           keyDerivation (Str key') = Ok derivedKey)
       /\ List.length derivedKey = 256%nat
       /\ Forall (fun b => 0 <= b <= 255) derivedKey.
Proof.
  split; [discriminate|].
  apply keyDerivation_deterministic_256_bytes. discriminate.
Defined.

(** ** The substitution table *)

Lemma substitutionMatrix_created :
  substitutionMatrix = createSubstitutionMatrix.
Proof. vm_compute. reflexivity. Qed.

Lemma inverseMatrix_created : inverseMatrix = createInverseMatrix.
Proof. vm_compute. reflexivity. Qed.

Lemma table_entries (b : Z) :
  0 <= b < 256 ->
  exists t,
    aget_holes substitutionMatrix b = Some t
    /\ t = (b * 17 + 42) mod 256 /\ 0 <= t < 256
    /\ aget_holes inverseMatrix t = Some b.
Proof.
  intros Hb.
  assert (H : table_entry_ok b = true).
  { apply (forallb_zrange table_entry_ok 256); [vm_compute; reflexivity|lia]. }
  unfold table_entry_ok in H.
  destruct (aget_holes substitutionMatrix b) as [t|]; [|discriminate].
  exists t. split; [reflexivity|].
  destruct (aget_holes inverseMatrix t) as [b'|].
  - rewrite !andb_true_iff in H. destruct H as [[[H1 H2] H3] H4].
    apply Z.eqb_eq in H1, H4. apply Z.leb_le in H2. apply Z.ltb_lt in H3.
    subst. repeat split; assumption.
  - rewrite andb_false_r in H. discriminate.
Qed.

Lemma substitutionMatrix_permutation :
  Permutation (map Some (zrange 256)) substitutionMatrix.
Proof.
  apply NoDup_Permutation_bis.
  - apply Injective_map_NoDup; [intros x y H; congruence|].
    apply zrange_from_NoDup.
  - vm_compute. lia.
  - intros x Hx. apply in_map_iff in Hx. destruct Hx as [i [<- Hi]].
    assert (H : forallb (fun i => existsb
                 (fun o => match o with Some t => t =? i | None => false end)
                 substitutionMatrix) (zrange 256) = true)
      by (vm_compute; reflexivity).
    rewrite forallb_forall in H. specialize (H i Hi).
    apply existsb_exists in H. destruct H as [[t|] [Hin Ht]]; [|discriminate].
    apply Z.eqb_eq in Ht. subst. exact Hin.
Qed.

(** C7: the table [(i*17 + 42) mod 256] that [createSubstitutionMatrix]
    builds is a permutation of 0..255, and the inverse table built by
    scatter assignment satisfies [inverse[table[b]] = b] for every byte
    value [b]. *)
Theorem substitution_table_bijection :
  Permutation (map Some (zrange 256)) createSubstitutionMatrix
  /\ forall b, 0 <= b < 256 ->
       aget_holes createSubstitutionMatrix b = Some ((b * 17 + 42) mod 256)
       /\ aget_holes createInverseMatrix ((b * 17 + 42) mod 256) = Some b.
Proof.
  rewrite <- substitutionMatrix_created, <- inverseMatrix_created.
  split; [apply substitutionMatrix_permutation|].
  intros b Hb. destruct (table_entries b Hb) as [t [H1 [H2 [_ H3]]]].
  subst t. split; assumption.
Qed.

Lemma substitution_table_bijection_witness :
  0 <= 200 < 256
  /\ aget_holes createSubstitutionMatrix 200 = Some ((200 * 17 + 42) mod 256)
  /\ aget_holes createInverseMatrix ((200 * 17 + 42) mod 256) = Some 200.
Proof.
  split; [lia|]. apply (proj2 substitution_table_bijection 200). lia.
Defined.

(** ** Empty input *)

(** C10: when the input text is empty or absent, [encode] and [decode] both
    return the empty string whatever the key is, also for a key on which
    [keyDerivation] throws; no key is derived and no checksum is checked. *)
Theorem empty_input_returns_empty (text key : jsarg) :
  falsy text = true ->
  encode text key = Ok [] /\ decode text key = Ok [].
Proof.
  intros H. destruct text as [|[|c t]]; [split; reflexivity ..|discriminate].
Qed.

Lemma empty_input_returns_empty_witness :
  falsy (Str []) = true
  /\ encode (Str []) Undefined = Ok [] /\ decode (Str []) Undefined = Ok [].
Proof.
  split; [reflexivity|].
  apply empty_input_returns_empty. reflexivity.
Defined.

(** With a text to work on, the same keys make both operations throw. *)
Lemma missing_key_throws (key : jsarg) :
  falsy key = true ->
  keyDerivation key = Throw KeyRequired
  /\ encode (Str (js "HI")) key = Throw KeyRequired
  /\ decode (Str (js "0a50.8bd0")) key = Throw DecodingFailed.
Proof.
  intros H. destruct key as [|[|c k]]; [repeat split ..|discriminate].
Qed.

(** ** The four layers of one byte *)

Lemma lxor_byte (a b : Z) : byte a -> byte b -> byte (Z.lxor a b).
Proof.
  unfold byte. intros Ha Hb.
  assert (H : forallb lxor_byte_ok (zrange 256) = true)
    by (vm_compute; reflexivity).
  apply forallb_zrange with (x := a) in H; [|lia].
  apply forallb_zrange with (x := b) in H; [|lia].
  cbv zeta in H. apply andb_true_iff in H. destruct H as [H1 H2].
  apply Z.leb_le in H1, H2. lia.
Qed.

Lemma rot_inverse (x r : Z) :
  byte x -> 0 <= r < 8 -> byte (rotl8 x r) /\ rotr8 (rotl8 x r) r = x.
Proof.
  unfold byte. intros Hx Hr.
  assert (H : forallb rot_ok (zrange 256) = true) by (vm_compute; reflexivity).
  apply forallb_zrange with (x := x) in H; [|lia].
  apply forallb_zrange with (x := r) in H; [|lia].
  cbv zeta in H. rewrite !andb_true_iff in H. destruct H as [[H1 H2] H3].
  apply Z.leb_le in H1, H2. apply Z.eqb_eq in H3. split; [lia|assumption].
Qed.

Section Layers.

Variable derivedKey : list Z.
Hypothesis derivedKey_length : List.length derivedKey = 256%nat.
Hypothesis derivedKey_bytes : Forall byte derivedKey.

Lemma key_byte_at (i : Z) :
  0 <= i ->
  exists k, aget derivedKey (Z.rem i (length derivedKey)) = Some k /\ byte k.
Proof.
  intros Hi. unfold length. rewrite derivedKey_length.
  destruct (aget_Some derivedKey (Z.rem i (Z.of_nat 256))) as [k [Hk Hin]].
  - rewrite derivedKey_length. apply Z.rem_bound_pos; lia.
  - exists k. split; [exact Hk|].
    rewrite Forall_forall in derivedKey_bytes. apply derivedKey_bytes, Hin.
Qed.

Lemma scrambleByte_byte (b position : Z) :
  0 <= position -> byte (scrambleByte b position derivedKey).
Proof.
  intros Hp. unfold scrambleByte.
  destruct (key_byte_at (position * 7)) as [k2 [-> Hk2]]; [lia|].
  rewrite band_255. unfold byte.
  match goal with |- 0 <= ?x mod 256 <= 255 =>
    pose proof (Z.mod_pos_bound x 256 eq_refl) end.
  lia.
Qed.

Lemma unscramble_scramble (b position : Z) :
  byte b -> 0 <= position ->
  unscrambleByte (scrambleByte b position derivedKey) position derivedKey
  = Some b.
Proof.
  intros Hb Hp. unfold unscrambleByte, scrambleByte.
  destruct (key_byte_at (position * 7)) as [k2 [-> Hk2]]; [lia|].
  destruct (key_byte_at position) as [k1 [-> Hk1]]; [lia|].
  destruct (table_entries b) as [t [-> [_ [Ht Hinv]]]]; [unfold byte in Hb; lia|].
  unfold int32_of. unfold byte in *.
  rewrite (ToInt32_small t), (ToInt32_small k1) by lia.
  fold (rotl8 (Z.lxor t k1) (Z.rem position 8)).
  pose proof (lxor_byte t k1) as Hx. unfold byte in Hx.
  assert (Hr : 0 <= Z.rem position 8 < 8) by (apply Z.rem_bound_pos; lia).
  destruct (rot_inverse (Z.lxor t k1) (Z.rem position 8)) as [Hy Hrot];
    [unfold byte; lia | lia |].
  unfold byte in Hy.
  set (y := rotl8 (Z.lxor t k1) (Z.rem position 8)) in *.
  replace (band (band (y + k2) 255 - k2 + 256) 255) with y
    by (rewrite !band_255; Z.div_mod_to_equations; lia).
  fold (rotr8 y (Z.rem position 8)). rewrite Hrot.
  rewrite ToInt32_small by lia.
  rewrite Z.lxor_assoc, Z.lxor_nilpotent, Z.lxor_0_r. exact Hinv.
Qed.

Lemma scrambleFrom_bytes (bytes : list Z) (i : Z) :
  0 <= i -> Forall byte (scrambleFrom i bytes derivedKey).
Proof.
  revert i. induction bytes as [|b r IH]; intros i Hi; simpl; constructor.
  - apply scrambleByte_byte, Hi.
  - apply IH. lia.
Qed.

Lemma unscrambleFrom_scrambleFrom (bytes : list Z) (i : Z) :
  Forall byte bytes -> 0 <= i ->
  unscrambleFrom i (scrambleFrom i bytes derivedKey) derivedKey
  = map Some bytes.
Proof.
  intros Hall. revert i.
  induction Hall as [|b r Hb Hr IH]; intros i Hi; simpl; [reflexivity|].
  rewrite unscramble_scramble by assumption. f_equal. apply IH. lia.
Qed.

End Layers.

(** ** Hexadecimal rendering and the frame *)

Lemma isLowerHex_char (c : Z) :
  isLowerHex c = true -> c <> 46 /\ 0 <= c < 65536.
Proof. unfold isLowerHex. lia. Qed.

Lemma hex2_spec (b : Z) :
  byte b ->
  exists h l,
    hex2 b = [h; l] /\ isLowerHex h = true /\ isLowerHex l = true
    /\ parseInt [h; l] (Some 16) = Some b.
Proof.
  unfold byte. intros Hb.
  assert (H : hex2_ok b = true).
  { apply (forallb_zrange hex2_ok 256); [vm_compute; reflexivity|lia]. }
  unfold hex2_ok in H.
  destruct (hex2 b) as [|h [|l [|]]]; try discriminate.
  exists h, l. rewrite !andb_true_iff in H. destruct H as [[H1 H2] H3].
  destruct (parseInt [h; l] (Some 16)) as [v|]; [|discriminate].
  apply Z.eqb_eq in H3. subst. repeat split; assumption.
Qed.

Lemma render4_spec (v : Z) :
  0 <= v < 65536 ->
  exists a b c d,
    padStart0 4 (toString16 v) = [a; b; c; d]
    /\ Forall (fun x => isLowerHex x = true) [a; b; c; d]
    /\ digitsPrefix 16 [a; b; c; d] None = Some v.
Proof.
  intros Hv.
  assert (H : render4_ok v = true).
  { apply (forallb_zrange render4_ok (Z.to_nat 65536));
      [vm_compute; reflexivity|lia]. }
  unfold render4_ok in H.
  destruct (padStart0 4 (toString16 v)) as [|a [|b [|c [|d [|]]]]];
    try discriminate.
  exists a, b, c, d. rewrite !andb_true_iff in H.
  destruct H as [[[[H1 H2] H3] H4] H5].
  destruct (digitsPrefix 16 [a; b; c; d] None) as [v'|]; [|discriminate].
  apply Z.eqb_eq in H5. subst. repeat split; try reflexivity.
  repeat constructor; assumption.
Qed.

Lemma hex_fold_flat_map (bytes : list Z) (acc : jsstring) :
  fold_left (fun hex b => hex ++ hex2 b) bytes acc
  = acc ++ flat_map hex2 bytes.
Proof.
  revert acc. induction bytes as [|b r IH]; intros acc; simpl.
  - symmetry. apply app_nil_r.
  - rewrite IH, app_assoc. reflexivity.
Qed.

Lemma hex_chars (bytes : list Z) :
  Forall byte bytes ->
  Forall (fun x => isLowerHex x = true) (flat_map hex2 bytes).
Proof.
  induction 1 as [|b r Hb Hr IH]; simpl; [constructor|].
  destruct (hex2_spec b Hb) as [h [l [-> [Hh [Hl _]]]]].
  simpl. repeat constructor; assumption.
Qed.

Lemma hex_length (bytes : list Z) :
  Forall byte bytes ->
  List.length (flat_map hex2 bytes) = (2 * List.length bytes)%nat.
Proof.
  induction 1 as [|b r Hb Hr IH]; simpl; [reflexivity|].
  destruct (hex2_spec b Hb) as [h [l [-> _]]].
  simpl. rewrite IH. lia.
Qed.

Lemma parsePairs_hex (bytes : list Z) :
  Forall byte bytes -> parsePairs (flat_map hex2 bytes) = Ok bytes.
Proof.
  induction 1 as [|b r Hb Hr IH]; simpl; [reflexivity|].
  destruct (hex2_spec b Hb) as [h [l [-> [_ [_ Hp]]]]].
  cbn [app parsePairs]. rewrite Hp, IH. reflexivity.
Qed.

Lemma str_eqb_refl (s : jsstring) : str_eqb s s = true.
Proof.
  induction s as [|c s IH]; simpl; [reflexivity|].
  rewrite Z.eqb_refl, IH. reflexivity.
Qed.

Lemma str_eqb_eq (a b : jsstring) : str_eqb a b = true -> a = b.
Proof.
  revert b. induction a as [|x a IH]; intros [|y b]; simpl;
    try discriminate; [reflexivity|].
  intros H. apply andb_true_iff in H. destruct H as [H1 H2].
  apply Z.eqb_eq in H1. apply IH in H2. congruence.
Qed.

Lemma split_on_no_sep (sep : Z) (s : jsstring) :
  ~ In sep s -> split_on sep s = [s].
Proof.
  induction s as [|c s IH]; intros H; simpl; [reflexivity|].
  destruct (Z.eqb_spec c sep) as [->|Hc]; [exfalso; apply H; left; reflexivity|].
  rewrite IH; [reflexivity|]. intros Hin. apply H. right. exact Hin.
Qed.

Lemma split_on_app (sep : Z) (a b : jsstring) :
  ~ In sep a -> split_on sep (a ++ sep :: b) = a :: split_on sep b.
Proof.
  induction a as [|c a IH]; intros H; simpl.
  - rewrite Z.eqb_refl. reflexivity.
  - destruct (Z.eqb_spec c sep) as [->|Hc];
      [exfalso; apply H; left; reflexivity|].
    rewrite IH; [reflexivity|]. intros Hin. apply H. right. exact Hin.
Qed.

Lemma lowerHex_no_dot (s : jsstring) :
  Forall (fun x => isLowerHex x = true) s -> ~ In 46 s.
Proof.
  intros H Hin. rewrite Forall_forall in H. apply H in Hin. discriminate.
Qed.

(** ** The checksum *)

Lemma aget_In {A} (l : list A) (i : Z) (v : A) : aget l i = Some v -> In v l.
Proof.
  unfold aget. destruct (i <? 0); [discriminate|]. apply nth_error_In.
Qed.

Lemma data_fold_range (data : jsstring) (acc : Z) :
  Forall (fun c => 0 <= c) data -> 0 <= acc < 65536 ->
  0 <= fold_left (fun checksum c => Z.rem (checksum * 31 + c) 65536) data acc
    < 65536.
Proof.
  intros H. revert acc. induction H as [|c r Hc Hr IH]; intros acc Hacc; simpl.
  - exact Hacc.
  - apply IH. apply Z.rem_bound_pos; lia.
Qed.

Lemma key_fold_range (derivedKey : list Z) (l : list nat) (acc : Z) :
  Forall (fun k => 0 <= k) derivedKey -> 0 <= acc < 65536 ->
  0 <= fold_left
         (fun st i =>
            match aget derivedKey (Z.of_nat i) with
            | Some k => Z.rem (st + k * (Z.of_nat i + 1)) 65536
            | None => st
            end) l acc
    < 65536.
Proof.
  intros Hk. revert acc. induction l as [|i l IH]; intros acc Hacc; simpl.
  - exact Hacc.
  - apply IH. destruct (aget derivedKey (Z.of_nat i)) as [k|] eqn:E.
    + apply aget_In in E. rewrite Forall_forall in Hk. apply Hk in E.
      apply Z.rem_bound_pos; nia.
    + exact Hacc.
Qed.

Lemma checksumValue_range (data : jsstring) (derivedKey : list Z) :
  Forall (fun c => 0 <= c) data -> Forall (fun k => 0 <= k) derivedKey ->
  0 <= checksumValue data derivedKey < 65536.
Proof.
  intros Hd Hk. unfold checksumValue, for_upto.
  apply key_fold_range; [assumption|].
  apply data_fold_range; [assumption|lia].
Qed.

Lemma calculateChecksum_chars (data : jsstring) (derivedKey : list Z) :
  Forall (fun c => 0 <= c) data -> Forall (fun k => 0 <= k) derivedKey ->
  Forall (fun x => isLowerHex x = true) (calculateChecksum data derivedKey)
  /\ List.length (calculateChecksum data derivedKey) = 4%nat.
Proof.
  intros Hd Hk. unfold calculateChecksum.
  destruct (render4_spec _ (checksumValue_range data derivedKey Hd Hk))
    as [a [b [c [d [-> [H _]]]]]].
  split; [exact H | reflexivity].
Qed.

(** ** The bytes of a text *)

Lemma encodeCodePoint_bytes (cp : Z) :
  0 <= cp < 1114112 -> Forall byte (encodeCodePoint cp).
Proof.
  intros H. unfold encodeCodePoint, byte.
  repeat match goal with
         | |- context [?a <? ?b] => destruct (Z.ltb_spec a b)
         end;
    repeat constructor; Z.div_mod_to_equations; lia.
Qed.

Lemma scalarValues_range (n : nat) (s : jsstring) :
  (List.length s <= n)%nat -> wf_string s ->
  Forall (fun cp => 0 <= cp < 1114112) (scalarValues s).
Proof.
  revert s. induction n as [|n IH]; intros s Hn Hs.
  - destruct s; [constructor | simpl in Hn; lia].
  - destruct s as [|c r]; [constructor|].
    inversion Hs as [|? ? Hc Hr]; subst. unfold code_unit in Hc.
    simpl in Hn. cbn [scalarValues]. unfold isHighSurrogate, isLowSurrogate.
    destruct ((55296 <=? c) && (c <=? 56319)) eqn:Ehigh.
    + destruct r as [|d r']; [repeat constructor; lia|].
      inversion Hr as [|? ? Hd Hr']; subst. unfold code_unit in Hd.
      destruct ((56320 <=? d) && (d <=? 57343)) eqn:Elow.
      * constructor; [lia|]. apply IH; [simpl in Hn; lia | assumption].
      * constructor; [lia|]. apply IH; [lia | assumption].
    + destruct ((56320 <=? c) && (c <=? 57343)).
      * constructor; [lia|]. apply IH; [lia | assumption].
      * constructor; [lia|]. apply IH; [lia | assumption].
Qed.

Lemma TextEncoder_bytes (text : jsstring) :
  wf_string text -> Forall byte (TextEncoder_encode text).
Proof.
  intros H. unfold TextEncoder_encode.
  pose proof (scalarValues_range _ text (le_n _) H) as Hcp.
  induction Hcp as [|cp r Hc Hr IH]; simpl; [constructor|].
  apply Forall_app. split; [apply encodeCodePoint_bytes, Hc | exact IH].
Qed.

(** ** Round trip of the UTF-8 conversions *)

Lemma leadByte_1 (b : Z) : b <= 127 -> leadByte b = ([b], idle).
Proof.
  intros H. unfold leadByte.
  replace (b <=? 127) with true by (symmetry; apply Z.leb_le; lia).
  reflexivity.
Qed.

Lemma leadByte_2 (b : Z) :
  194 <= b <= 223 ->
  leadByte b = ([], {| codePoint := b - 192; bytesSeen := 0; bytesNeeded := 1;
                       lowerBoundary := 128; upperBoundary := 191 |}).
Proof.
  intros H. unfold leadByte.
  replace (b <=? 127) with false by (symmetry; apply Z.leb_gt; lia).
  replace (194 <=? b) with true by (symmetry; apply Z.leb_le; lia).
  replace (b <=? 223) with true by (symmetry; apply Z.leb_le; lia).
  reflexivity.
Qed.

Lemma leadByte_3 (b : Z) :
  224 <= b <= 239 ->
  leadByte b = ([], {| codePoint := b - 224; bytesSeen := 0; bytesNeeded := 2;
                       lowerBoundary := if b =? 224 then 160 else 128;
                       upperBoundary := if b =? 237 then 159 else 191 |}).
Proof.
  intros H. unfold leadByte.
  replace (b <=? 127) with false by (symmetry; apply Z.leb_gt; lia).
  replace (b <=? 223) with false by (symmetry; apply Z.leb_gt; lia).
  replace (224 <=? b) with true by (symmetry; apply Z.leb_le; lia).
  replace (b <=? 239) with true by (symmetry; apply Z.leb_le; lia).
  rewrite andb_false_r. reflexivity.
Qed.

Lemma leadByte_4 (b : Z) :
  240 <= b <= 244 ->
  leadByte b = ([], {| codePoint := b - 240; bytesSeen := 0; bytesNeeded := 3;
                       lowerBoundary := if b =? 240 then 144 else 128;
                       upperBoundary := if b =? 244 then 143 else 191 |}).
Proof.
  intros H. unfold leadByte.
  replace (b <=? 127) with false by (symmetry; apply Z.leb_gt; lia).
  replace (b <=? 223) with false by (symmetry; apply Z.leb_gt; lia).
  replace (b <=? 239) with false by (symmetry; apply Z.leb_gt; lia).
  replace (240 <=? b) with true by (symmetry; apply Z.leb_le; lia).
  replace (b <=? 244) with true by (symmetry; apply Z.leb_le; lia).
  rewrite !andb_false_r. reflexivity.
Qed.

(** A continuation byte within the boundaries of an open sequence. *)
Lemma decodeFrom_continue (cp seen needed lo hi b : Z) (r : list Z) :
  needed <> 0 -> lo <= b <= hi ->
  decodeFrom {| codePoint := cp; bytesSeen := seen; bytesNeeded := needed;
                lowerBoundary := lo; upperBoundary := hi |} (b :: r)
  = if seen + 1 =? needed then (cp * 64 + (b - 128)) :: decodeFrom idle r
    else decodeFrom {| codePoint := cp * 64 + (b - 128);
                       bytesSeen := seen + 1; bytesNeeded := needed;
                       lowerBoundary := 128; upperBoundary := 191 |} r.
Proof.
  intros Hn Hb.
  cbn [decodeFrom bytesNeeded bytesSeen codePoint lowerBoundary upperBoundary].
  replace (needed =? 0) with false by (symmetry; apply Z.eqb_neq; lia).
  replace (b <? lo) with false by (symmetry; apply Z.ltb_ge; lia).
  replace (hi <? b) with false by (symmetry; apply Z.ltb_ge; lia).
  reflexivity.
Qed.

Lemma decodeFrom_idle (b : Z) (r : list Z) :
  decodeFrom idle (b :: r)
  = fst (leadByte b) ++ decodeFrom (snd (leadByte b)) r.
Proof.
  cbn [decodeFrom bytesNeeded idle Z.eqb].
  destruct (leadByte b). reflexivity.
Qed.

Lemma decode_encodeCodePoint (cp : Z) (rest : list Z) :
  scalar cp ->
  decodeFrom idle (encodeCodePoint cp ++ rest) = cp :: decodeFrom idle rest.
Proof.
  intros [Hr Hs]. unfold encodeCodePoint.
  pose proof (Z.div_mod cp 64 ltac:(lia)) as E1.
  pose proof (Z.mod_pos_bound cp 64 ltac:(lia)) as B1.
  pose proof (Z.div_mod (cp / 64) 64 ltac:(lia)) as E2.
  pose proof (Z.mod_pos_bound (cp / 64) 64 ltac:(lia)) as B2.
  pose proof (Z.div_mod (cp / 64 / 64) 64 ltac:(lia)) as E3.
  pose proof (Z.mod_pos_bound (cp / 64 / 64) 64 ltac:(lia)) as B3.
  replace (cp / 4096) with (cp / 64 / 64) by (rewrite Z.div_div by lia; reflexivity).
  replace (cp / 262144) with (cp / 64 / 64 / 64)
    by (rewrite !Z.div_div by lia; reflexivity).
  set (q := cp / 64) in *. set (r := cp mod 64) in *.
  set (q2 := q / 64) in *. set (r2 := q mod 64) in *.
  set (q3 := q2 / 64) in *. set (r3 := q2 mod 64) in *.
  destruct (Z.ltb_spec cp 128); [|destruct (Z.ltb_spec cp 2048);
                                   [|destruct (Z.ltb_spec cp 65536)]];
    cbn [app]; rewrite decodeFrom_idle.
  - rewrite leadByte_1 by lia. reflexivity.
  - rewrite leadByte_2 by lia. cbn [fst snd app].
    rewrite decodeFrom_continue by lia.
    change (0 + 1 =? 1) with true. cbv iota. f_equal. lia.
  - rewrite leadByte_3 by lia. cbn [fst snd app].
    rewrite decodeFrom_continue;
      [| lia
       | destruct (Z.eqb_spec (224 + q2) 224), (Z.eqb_spec (224 + q2) 237);
         lia ].
    change (0 + 1 =? 2) with false. cbv iota.
    rewrite decodeFrom_continue by lia.
    change (0 + 1 + 1 =? 2) with true. cbv iota. f_equal. lia.
  - rewrite leadByte_4 by lia. cbn [fst snd app].
    rewrite decodeFrom_continue;
      [| lia
       | destruct (Z.eqb_spec (240 + q3) 240), (Z.eqb_spec (240 + q3) 244);
         lia ].
    change (0 + 1 =? 3) with false. cbv iota.
    rewrite decodeFrom_continue by lia.
    change (0 + 1 + 1 =? 3) with false. cbv iota.
    rewrite decodeFrom_continue by lia.
    change (0 + 1 + 1 + 1 =? 3) with true. cbv iota. f_equal. lia.
Qed.

Lemma decode_encode_scalars (cps : list Z) :
  Forall scalar cps -> decodeFrom idle (flat_map encodeCodePoint cps) = cps.
Proof.
  induction 1 as [|cp r Hc Hr IH]; [reflexivity|].
  cbn [flat_map]. rewrite decode_encodeCodePoint by assumption.
  rewrite IH. reflexivity.
Qed.

(** The scalar values of a string without lone surrogate give the string
    back. *)
Lemma codeUnits_scalarValues (n : nat) (s : jsstring) :
  (List.length s <= n)%nat -> wf_string s -> wellFormed s = true ->
  Forall scalar (scalarValues s)
  /\ flat_map codeUnits (scalarValues s) = s.
Proof.
  revert s. induction n as [|n IH]; intros s Hn Hs Hw.
  - destruct s; [split; [constructor|reflexivity] | simpl in Hn; lia].
  - destruct s as [|c r]; [split; [constructor|reflexivity]|].
    apply Forall_cons_iff in Hs. destruct Hs as [Hc Hr].
    unfold code_unit in Hc. simpl in Hn.
    cbn [scalarValues wellFormed] in Hw |- *.
    unfold isHighSurrogate, isLowSurrogate in *.
    destruct ((55296 <=? c) && (c <=? 56319)) eqn:Ehigh.
    + destruct r as [|d r']; [discriminate|].
      apply Forall_cons_iff in Hr. destruct Hr as [Hd Hr'].
      unfold code_unit in Hd.
      apply andb_true_iff in Hw. destruct Hw as [Elow Hw]. rewrite Elow.
      destruct (IH r') as [H1 H2]; [simpl in Hn; lia | assumption..|].
      split.
      * constructor; [unfold scalar; lia | exact H1].
      * cbn [flat_map]. rewrite H2. unfold codeUnits.
        replace (_ <? 65536) with false by (symmetry; apply Z.ltb_ge; lia).
        cbn [app]. f_equal; [|f_equal]; Z.div_mod_to_equations; lia.
    + apply andb_true_iff in Hw. destruct Hw as [Elow Hw].
      apply negb_true_iff in Elow. 
      destruct (IH r) as [H1 H2]; [lia | assumption..|].
      rewrite Elow. split.
      * constructor; [unfold scalar; lia | exact H1].
      * cbn [flat_map]. rewrite H2. unfold codeUnits.
        replace (c <? 65536) with true by (symmetry; apply Z.ltb_lt; lia).
        reflexivity.
Qed.

Lemma uint8_of_bytes (bytes : list Z) :
  Forall byte bytes ->
  map (fun v => match v with Some x => ToUint8 x | None => 0 end)
      (map Some bytes) = bytes.
Proof.
  induction 1 as [|b r Hb Hr IH]; [reflexivity|].
  cbn [map]. rewrite IH. f_equal. unfold ToUint8, byte in *.
  apply Z.mod_small. lia.
Qed.

Lemma stripBOM_encode (s : jsstring) :
  wf_string s -> startsWithBOM s = false ->
  stripBOM (TextEncoder_encode s) = TextEncoder_encode s.
Proof.
  intros Hs Hb. unfold TextEncoder_encode.
  destruct s as [|c r]; [reflexivity|].
  cbn [startsWithBOM] in Hb. apply Z.eqb_neq in Hb.
  apply Forall_cons_iff in Hs. destruct Hs as [Hc Hr]. unfold code_unit in Hc.
  assert (H : exists cp rest,
             scalarValues (c :: r) = cp :: rest
             /\ 0 <= cp < 1114112 /\ cp <> 65279).
  { cbn [scalarValues]. unfold isHighSurrogate, isLowSurrogate.
    destruct ((55296 <=? c) && (c <=? 56319)) eqn:Ehigh.
    - destruct r as [|d r'].
      + exists 65533, []. repeat split; lia.
      + apply Forall_cons_iff in Hr. destruct Hr as [Hd _].
        unfold code_unit in Hd.
        destruct ((56320 <=? d) && (d <=? 57343)) eqn:Elow.
        * eexists. eexists. split; [reflexivity|]. lia.
        * eexists. eexists. split; [reflexivity|]. lia.
    - destruct ((56320 <=? c) && (c <=? 57343)).
      + eexists. eexists. split; [reflexivity|]. lia.
      + eexists. eexists. split; [reflexivity|]. lia. }
  destruct H as [cp [rest [-> [Hcp Hne]]]]. cbn [flat_map].
  generalize (flat_map encodeCodePoint rest). intros tl.
  unfold encodeCodePoint, stripBOM.
  destruct (Z.ltb_spec cp 128); [|destruct (Z.ltb_spec cp 2048);
                                   [|destruct (Z.ltb_spec cp 65536)]];
    cbn [app].
  - destruct tl as [|x [|y l]]; try reflexivity.
    replace (cp =? 239) with false by (symmetry; apply Z.eqb_neq; lia).
    reflexivity.
  - destruct tl as [|x l]; try reflexivity.
    replace (192 + cp / 64 =? 239) with false
      by (symmetry; apply Z.eqb_neq; Z.div_mod_to_equations; lia).
    reflexivity.
  - destruct (Z.eqb_spec (224 + cp / 4096) 239);
      destruct (Z.eqb_spec (128 + cp / 64 mod 64) 187);
      destruct (Z.eqb_spec (128 + cp mod 64) 191); try reflexivity.
    exfalso. apply Hne. Z.div_mod_to_equations. lia.
  - replace (240 + cp / 262144 =? 239) with false
      by (symmetry; apply Z.eqb_neq; Z.div_mod_to_equations; lia).
    reflexivity.
Qed.

(** The UTF-8 conversions give back every string that has no lone
    surrogate and no byte order mark in front. *)
Lemma utf8_round_trip (s : jsstring) :
  wf_string s -> wellFormed s = true -> startsWithBOM s = false ->
  TextDecoder_decode (map Some (TextEncoder_encode s)) = s.
Proof.
  intros Hs Hw Hb. unfold TextDecoder_decode.
  rewrite uint8_of_bytes by (apply TextEncoder_bytes, Hs).
  rewrite stripBOM_encode by assumption. unfold TextEncoder_encode.
  destruct (codeUnits_scalarValues _ s (le_n _) Hs Hw) as [H1 H2].
  rewrite decode_encode_scalars by exact H1. exact H2.
Qed.

(** ** Round trip of a frame *)

Lemma bytes_nonneg (l : list Z) : Forall byte l -> Forall (fun k => 0 <= k) l.
Proof. apply Forall_impl. unfold byte. intros; lia. Qed.

Lemma lowerHex_nonneg (s : jsstring) :
  Forall (fun x => isLowerHex x = true) s -> Forall (fun c => 0 <= c) s.
Proof. apply Forall_impl. intros c H. apply isLowerHex_char in H. lia. Qed.

(** [hexToBytes] gives back the bytes that [bytesToHex] framed. *)
Lemma hexToBytes_bytesToHex (bytes derivedKey : list Z) :
  Forall byte bytes -> Forall byte derivedKey ->
  hexToBytes (bytesToHex bytes derivedKey) derivedKey = Ok bytes.
Proof.
  intros Hb Hk. unfold bytesToHex, hexToBytes.
  rewrite hex_fold_flat_map. cbn [app].
  pose proof (hex_chars bytes Hb) as Hhex.
  destruct (calculateChecksum_chars (flat_map hex2 bytes) derivedKey
              (lowerHex_nonneg _ Hhex) (bytes_nonneg _ Hk)) as [Hcs _].
  rewrite split_on_app by (apply lowerHex_no_dot, Hhex).
  rewrite split_on_no_sep by (apply lowerHex_no_dot, Hcs).
  rewrite str_eqb_refl. cbn [negb].
  unfold length. rewrite hex_length by assumption.
  replace (Z.rem (Z.of_nat (2 * List.length bytes)) 2) with 0
    by (rewrite Nat2Z.inj_mul, Z.mul_comm, Z.rem_mul; lia).
  cbn [Z.eqb negb]. apply parsePairs_hex, Hb.
Qed.

Lemma encode_decode_bytes (text key : jsstring) :
  key <> [] -> wf_string text ->
  exists frame,
    encode (Str text) (Str key) = Ok frame
    /\ decode (Str frame) (Str key)
       = Ok (match text with
             | [] => []
             | _ => TextDecoder_decode (map Some (TextEncoder_encode text))
             end).
Proof.
  intros Hk Hwf. destruct text as [|c t].
  - exists []. split; reflexivity.
  - unfold encode. rewrite (keyDerivation_djb2 key Hk). cbn [bind].
    eexists. split; [reflexivity|].
    destruct (derive_djb2_bytes key) as [Hlen Hall].
    set (dk := KeyDerivationSpec.derive_djb2 key) in *.
    set (bytes := TextEncoder_encode (c :: t)).
    assert (Hbytes : Forall byte bytes) by (apply TextEncoder_bytes, Hwf).
    unfold decode.
    destruct (bytesToHex (scrambleFrom 0 bytes dk) dk) as [|x frame] eqn:E.
    { unfold bytesToHex in E. apply app_eq_nil in E. destruct E as [_ E].
      discriminate. }
    rewrite <- E. rewrite (keyDerivation_djb2 key Hk). cbn [bind].
    fold dk. rewrite hexToBytes_bytesToHex;
      [|apply scrambleFrom_bytes; [assumption..|lia] | assumption].
    cbn [bind catch_rethrow].
    rewrite unscrambleFrom_scrambleFrom by (assumption || lia).
    reflexivity.
Qed.

(** C1, as stated: a text that begins with a byte order mark does not come
    back; [decode] drops the mark. *)
Lemma round_trip_fails_on_byte_order_mark :
  exists frame,
    encode (Str (65279 :: js "HI")) (Str (js "k3y!")) = Ok frame
    /\ decode (Str frame) (Str (js "k3y!")) = Ok (js "HI")
    /\ js "HI" <> 65279 :: js "HI".
Proof.
  eexists. split; [vm_compute; reflexivity|].
  split; [vm_compute; reflexivity | discriminate].
Qed.

(** A lone surrogate does not come back either: [encode] turns it into
    U+FFFD. *)
Lemma round_trip_fails_on_lone_surrogate :
  exists frame,
    encode (Str [55296]) (Str (js "k3y!")) = Ok frame
    /\ decode (Str frame) (Str (js "k3y!")) = Ok [65533].
Proof.
  eexists. split; [vm_compute; reflexivity|]. vm_compute. reflexivity.
Qed.

(** C1, amended: for every non-empty key and every text without a lone
    surrogate and without a byte order mark in front, decoding the encoded
    frame with the same key returns the text: [scrambleByte] applies
    substitution, key XOR, rotation to the left and key addition, and
    [unscrambleByte] undoes them in reverse order. *)
Theorem decode_encode_round_trip (text key : jsstring) :
  key <> [] ->
  wf_string text ->
  wellFormed text = true ->
  startsWithBOM text = false ->
  exists frame,
    encode (Str text) (Str key) = Ok frame
    /\ decode (Str frame) (Str key) = Ok text.
Proof.
  intros Hk Hwf Hsur Hbom.
  destruct (encode_decode_bytes text key Hk Hwf) as [frame [He Hd]].
  exists frame. split; [exact He|]. rewrite Hd.
  destruct text; [reflexivity|].
  rewrite utf8_round_trip by assumption. reflexivity.
Qed.

Lemma decode_encode_round_trip_witness :
  js "k3y!" <> []
  /\ wf_string (js "HI")
  /\ wellFormed (js "HI") = true
  /\ startsWithBOM (js "HI") = false
  /\ exists frame,
       encode (Str (js "HI")) (Str (js "k3y!")) = Ok frame
       /\ decode (Str frame) (Str (js "k3y!")) = Ok (js "HI").
Proof.
  assert (Hwf : wf_string (js "HI")).
  { change (js "HI") with [72; 73].
    repeat (apply Forall_cons; [unfold code_unit; lia|]). apply Forall_nil. }
  split; [discriminate|]. split; [exact Hwf|].
  split; [reflexivity|]. split; [reflexivity|].
  apply decode_encode_round_trip;
    [discriminate | exact Hwf | reflexivity | reflexivity].
Defined.

(** ** A character of the frame that is not a hexadecimal digit *)

(** C3: the code does not do what the claim says.  The frame [1g.4d9a]
    splits into two parts, its checksum is the one of the key derived from
    [k3y!], its hex part has the character [g], and [hexToBytes] returns
    the byte 1 for it: [parseInt] reads the digits in front of the [g]. *)
Theorem hexToBytes_accepts_non_hex_character :
  exists derivedKey,
    keyDerivation (Str (js "k3y!")) = Ok derivedKey
    /\ split_on 46 (js "1g.4d9a") = [js "1g"; js "4d9a"]
    /\ digitValue (charCode "g") = Some 16
    /\ hexToBytes (js "1g.4d9a") derivedKey = Ok [1]
    /\ exists text, decode (Str (js "1g.4d9a")) (Str (js "k3y!")) = Ok text.
Proof.
  eexists. split; [vm_compute; reflexivity|].
  split; [reflexivity|]. split; [reflexivity|].
  split; [vm_compute; reflexivity|].
  eexists. vm_compute. reflexivity.
Qed.

(** ** One changed character in the hex part of a frame *)

Lemma data_step_injective (x y c : Z) :
  0 <= x < 65536 -> 0 <= y < 65536 -> 0 <= c ->
  Z.rem (x * 31 + c) 65536 = Z.rem (y * 31 + c) 65536 -> x = y.
Proof.
  intros Hx Hy Hc. rewrite !Z.rem_mod_nonneg by lia.
  intros H. Z.div_mod_to_equations. lia.
Qed.

Lemma data_step_separates (x a c : Z) :
  0 <= x < 65536 -> code_unit a -> code_unit c -> a <> c ->
  Z.rem (x * 31 + a) 65536 <> Z.rem (x * 31 + c) 65536.
Proof.
  unfold code_unit. intros Hx Ha Hc Hac. rewrite !Z.rem_mod_nonneg by lia.
  intros H. Z.div_mod_to_equations. lia.
Qed.

Lemma key_step_injective (x y k : Z) :
  0 <= x < 65536 -> 0 <= y < 65536 -> 0 <= k ->
  Z.rem (x + k) 65536 = Z.rem (y + k) 65536 -> x = y.
Proof.
  intros Hx Hy Hk. rewrite !Z.rem_mod_nonneg by lia.
  intros H. Z.div_mod_to_equations. lia.
Qed.

Lemma data_fold_injective (data : jsstring) (x y : Z) :
  Forall (fun c => 0 <= c) data -> 0 <= x < 65536 -> 0 <= y < 65536 ->
  fold_left (fun checksum c => Z.rem (checksum * 31 + c) 65536) data x
  = fold_left (fun checksum c => Z.rem (checksum * 31 + c) 65536) data y ->
  x = y.
Proof.
  intros H. revert x y.
  induction H as [|c r Hc Hr IH]; intros x y Hx Hy; simpl; [trivial|].
  intros E. apply IH in E; try (apply Z.rem_bound_pos; lia).
  eapply data_step_injective; eassumption.
Qed.

Lemma key_fold_injective (derivedKey : list Z) (l : list nat) (x y : Z) :
  Forall (fun k => 0 <= k) derivedKey -> 0 <= x < 65536 -> 0 <= y < 65536 ->
  fold_left
    (fun st i =>
       match aget derivedKey (Z.of_nat i) with
       | Some k => Z.rem (st + k * (Z.of_nat i + 1)) 65536
       | None => st
       end) l x
  = fold_left
      (fun st i =>
         match aget derivedKey (Z.of_nat i) with
         | Some k => Z.rem (st + k * (Z.of_nat i + 1)) 65536
         | None => st
         end) l y ->
  x = y.
Proof.
  intros Hk. revert x y.
  induction l as [|i l IH]; intros x y Hx Hy; simpl; [trivial|].
  destruct (aget derivedKey (Z.of_nat i)) as [k|] eqn:E.
  - apply aget_In in E. rewrite Forall_forall in Hk. apply Hk in E.
    intros H. apply IH in H; try (apply Z.rem_bound_pos; nia).
    apply key_step_injective with (k := k * (Z.of_nat i + 1));
      [assumption | assumption | nia | assumption].
  - apply IH; assumption.
Qed.

(** Two strings that differ in one character have different checksum
    values. *)
Lemma checksumValue_separates (pre post : jsstring) (a c : Z)
    (derivedKey : list Z) :
  Forall (fun x => 0 <= x) pre -> Forall (fun x => 0 <= x) post ->
  Forall (fun k => 0 <= k) derivedKey ->
  code_unit a -> code_unit c -> a <> c ->
  checksumValue (pre ++ a :: post) derivedKey
  <> checksumValue (pre ++ c :: post) derivedKey.
Proof.
  intros Hpre Hpost Hk Ha Hc Hac E. unfold checksumValue, for_upto in E.
  pose proof (data_fold_range pre 0 Hpre ltac:(lia)) as Hx.
  rewrite !fold_left_app in E. cbn [fold_left] in E.
  set (x := fold_left _ pre 0) in *.
  unfold code_unit in Ha, Hc.
  apply key_fold_injective in E;
    [| assumption
     | apply data_fold_range; [assumption | apply Z.rem_bound_pos; lia]
     | apply data_fold_range; [assumption | apply Z.rem_bound_pos; lia] ].
  apply data_fold_injective in E;
    [| assumption | apply Z.rem_bound_pos; lia | apply Z.rem_bound_pos; lia].
  revert E. apply data_step_separates; assumption.
Qed.

Lemma render4_injective (v w : Z) :
  0 <= v < 65536 -> 0 <= w < 65536 ->
  padStart0 4 (toString16 v) = padStart0 4 (toString16 w) -> v = w.
Proof.
  intros Hv Hw E.
  destruct (render4_spec v Hv) as [a [b [c [d [E1 [_ P1]]]]]].
  destruct (render4_spec w Hw) as [a' [b' [c' [d' [E2 [_ P2]]]]]].
  rewrite E1 in E. rewrite E2 in E. rewrite <- E in P2. congruence.
Qed.

Lemma replaceAt_split (s : jsstring) (i : nat) (c : Z) :
  (i < List.length s)%nat ->
  exists pre a post,
    s = pre ++ a :: post /\ nth_error s i = Some a
    /\ replaceAt i c s = pre ++ c :: post.
Proof.
  revert i. induction s as [|x s IH]; intros i Hi; simpl in Hi; [lia|].
  destruct i as [|i].
  - exists [], x, s. repeat split.
  - destruct (IH i) as [pre [a [post [E1 [E2 E3]]]]]; [lia|].
    exists (x :: pre), a, post. simpl. rewrite E3, <- E1. repeat split.
    exact E2.
Qed.

Lemma replaceAt_app (s t : jsstring) (i : nat) (c : Z) :
  (i < List.length s)%nat -> replaceAt i c (s ++ t) = replaceAt i c s ++ t.
Proof.
  revert i. induction s as [|x s IH]; intros i Hi; simpl in Hi; [lia|].
  destruct i as [|i]; simpl; [reflexivity|]. rewrite IH by lia. reflexivity.
Qed.

(** The frame that [encode] returns for a text that is not empty. *)
Lemma encode_frame (text key frame : jsstring) :
  key <> [] -> text <> [] -> encode (Str text) (Str key) = Ok frame ->
  exists derivedKey hex,
    keyDerivation (Str key) = Ok derivedKey
    /\ Forall byte derivedKey
    /\ Forall (fun x => isLowerHex x = true) hex
    /\ frame = hex ++ 46 :: calculateChecksum hex derivedKey.
Proof.
  intros Hk Ht E. destruct text as [|c t]; [congruence|].
  unfold encode in E. rewrite (keyDerivation_djb2 key Hk) in E.
  cbn [bind] in E. injection E as <-.
  destruct (derive_djb2_bytes key) as [Hlen Hall].
  exists (KeyDerivationSpec.derive_djb2 key). eexists.
  split; [apply keyDerivation_djb2, Hk|]. split; [exact Hall|].
  unfold bytesToHex. rewrite hex_fold_flat_map. cbn [app].
  split; [|reflexivity].
  apply hex_chars, scrambleFrom_bytes; [assumption..|lia].
Qed.

Lemma hexToBytes_mutated (hex derivedKey : list Z) (i : nat) (c : Z) :
  Forall (fun x => isLowerHex x = true) hex -> Forall byte derivedKey ->
  (i < List.length hex)%nat -> code_unit c -> nth_error hex i <> Some c ->
  hexToBytes (replaceAt i c (hex ++ 46 :: calculateChecksum hex derivedKey))
             derivedKey
  = Throw (if c =? 46 then InvalidFormat else ChecksumFailed).
Proof.
  intros Hhex Hk Hi Hc Hne.
  rewrite replaceAt_app by assumption.
  destruct (replaceAt_split hex i c Hi) as [pre [a [post [E1 [E2 E3]]]]].
  rewrite E3. rewrite E2 in Hne.
  assert (Hac : a <> c) by congruence.
  pose proof Hhex as Hhex'. rewrite E1 in Hhex'.
  apply Forall_app in Hhex'. destruct Hhex' as [Hpre Hapost].
  apply Forall_cons_iff in Hapost. destruct Hapost as [Ha Hpost].
  destruct (calculateChecksum_chars hex derivedKey
              (lowerHex_nonneg _ Hhex) (bytes_nonneg _ Hk)) as [Hcs _].
  unfold hexToBytes. destruct (Z.eqb_spec c 46) as [->|Hdot].
  - rewrite <- app_assoc. cbn [app].
    rewrite split_on_app by (apply lowerHex_no_dot, Hpre).
    rewrite split_on_app by (apply lowerHex_no_dot, Hpost).
    rewrite split_on_no_sep by (apply lowerHex_no_dot, Hcs).
    reflexivity.
  - assert (Hnodot : ~ In 46 (pre ++ c :: post)).
    { intros Hin. apply in_app_or in Hin. destruct Hin as [Hin|[Hin|Hin]].
      - revert Hin. apply lowerHex_no_dot, Hpre.
      - congruence.
      - revert Hin. apply lowerHex_no_dot, Hpost. }
    rewrite split_on_app by exact Hnodot.
    rewrite split_on_no_sep by (apply lowerHex_no_dot, Hcs).
    assert (Hpos' : Forall (fun x => 0 <= x) (pre ++ c :: post)).
    { apply Forall_app. split; [apply lowerHex_nonneg, Hpre|].
      constructor; [unfold code_unit in Hc; lia | apply lowerHex_nonneg, Hpost]. }
    destruct (str_eqb (calculateChecksum hex derivedKey)
                (calculateChecksum (pre ++ c :: post) derivedKey)) eqn:E;
      [|reflexivity].
    exfalso. apply str_eqb_eq in E. unfold calculateChecksum in E.
    apply render4_injective in E;
      [| apply checksumValue_range;
         [apply lowerHex_nonneg, Hhex | apply bytes_nonneg, Hk]
       | apply checksumValue_range; [exact Hpos' | apply bytes_nonneg, Hk] ].
    rewrite E1 in E. revert E.
    apply checksumValue_separates;
      [ apply lowerHex_nonneg, Hpre | apply lowerHex_nonneg, Hpost
      | apply bytes_nonneg, Hk | | exact Hc | exact Hac ].
    apply isLowerHex_char in Ha. unfold code_unit. lia.
Qed.

(** C4, as stated: a character of the hex part changed to a dot makes the
    frame split into three parts, and [hexToBytes] throws 'Invalid format',
    not the checksum error. *)
Lemma dot_in_hex_part_is_a_format_error :
  exists derivedKey frame,
    keyDerivation (Str (js "k3y!")) = Ok derivedKey
    /\ encode (Str (js "HI")) (Str (js "k3y!")) = Ok frame
    /\ frame = js "0a50.8bd0"
    /\ replaceAt 0 (charCode ".") frame = js ".a50.8bd0"
    /\ hexToBytes (replaceAt 0 (charCode ".") frame) derivedKey
       = Throw InvalidFormat
    /\ hexToBytes (replaceAt 0 (charCode ".") frame) derivedKey
       <> Throw ChecksumFailed.
Proof.
  eexists. eexists. split; [vm_compute; reflexivity|].
  split; [vm_compute; reflexivity|].
  split; [reflexivity|]. split; [reflexivity|].
  split; [vm_compute; reflexivity | vm_compute; discriminate].
Qed.

(** C4, amended: in a frame that [encode] produced, a character of the hex
    part changed to a different character makes [hexToBytes], with the key
    derived from the same passphrase, throw: the checksum error for every
    new character but the dot, and the format error for the dot. *)
Theorem hex_mutation_rejected (text key frame : jsstring) (i : nat) (c : Z) :
  key <> [] ->
  encode (Str text) (Str key) = Ok frame ->
  (i + 5 < List.length frame)%nat ->
  code_unit c ->
  nth_error frame i <> Some c ->
  exists derivedKey,
    keyDerivation (Str key) = Ok derivedKey
    /\ hexToBytes (replaceAt i c frame) derivedKey
       = Throw (if c =? 46 then InvalidFormat else ChecksumFailed).
Proof.
  intros Hk E Hi Hc Hne.
  destruct text as [|t0 t].
  { injection E as <-. simpl in Hi. lia. }
  destruct (encode_frame (t0 :: t) key frame Hk ltac:(discriminate) E)
    as [derivedKey [hex [Hd [Hbytes [Hhex ->]]]]].
  exists derivedKey. split; [exact Hd|].
  destruct (calculateChecksum_chars hex derivedKey
              (lowerHex_nonneg _ Hhex) (bytes_nonneg _ Hbytes)) as [_ Hlen].
  rewrite length_app in Hi. cbn [List.length] in Hi. rewrite Hlen in Hi.
  assert (Hi' : (i < List.length hex)%nat) by lia.
  rewrite nth_error_app1 in Hne by exact Hi'.
  apply hexToBytes_mutated; assumption.
Qed.

Lemma hex_mutation_rejected_witness :
  js "k3y!" <> []
  /\ encode (Str (js "HI")) (Str (js "k3y!")) = Ok (js "0a50.8bd0")
  /\ (2 + 5 < List.length (js "0a50.8bd0"))%nat
  /\ code_unit (charCode "f")
  /\ nth_error (js "0a50.8bd0") 2 <> Some (charCode "f")
  /\ exists derivedKey,
       keyDerivation (Str (js "k3y!")) = Ok derivedKey
       /\ hexToBytes (replaceAt 2 (charCode "f") (js "0a50.8bd0")) derivedKey
          = Throw (if charCode "f" =? 46 then InvalidFormat
                   else ChecksumFailed).
Proof.
  assert (H1 : js "k3y!" <> []) by discriminate.
  assert (H2 : encode (Str (js "HI")) (Str (js "k3y!")) = Ok (js "0a50.8bd0"))
    by (vm_compute; reflexivity).
  assert (H3 : (2 + 5 < List.length (js "0a50.8bd0"))%nat)
    by (apply Nat.ltb_lt; reflexivity).
  assert (H4 : code_unit (charCode "f"))
    by (change (charCode "f") with 102; unfold code_unit; lia).
  assert (H5 : nth_error (js "0a50.8bd0") 2 <> Some (charCode "f"))
    by (change (nth_error (js "0a50.8bd0") 2) with (Some 53); discriminate).
  repeat (split; [assumption|]).
  exact (hex_mutation_rejected (js "HI") (js "k3y!") (js "0a50.8bd0") 2
           (charCode "f") H1 H2 H3 H4 H5).
Defined.

(* ================================================================= *)
(** ** The detection loop *)

Section DetectionLoop.

Variable host : Host.
Variable settings : Settings.
Variable input : jsstring.

(** What every inner [try] keeps true of the state holds when the loop is
    left, at its end or by the exception of a [test]. *)
Lemma detectionLoop_invariant (P : Scan -> Prop) :
  (forall s type, P s -> P (decodeRound host settings input s type)) ->
  forall entries s,
    P s ->
    match detectionLoop host settings input entries s with
    | Scanned s' | TestFailed _ s' => P s'
    | NothingToDecode | Rejected => True
    end.
Proof.
  intros Hstep entries.
  induction entries as [|[ty test] rest IH]; intros s Hs;
    cbn [detectionLoop]; [exact Hs|].
  unfold tryEncoding.
  destruct (negb (shouldAttemptDecoding input ty settings)); [apply IH, Hs|].
  destruct (test input) as [[|]|];
    [apply IH, Hstep, Hs | apply IH, Hs | exact Hs].
Qed.

(** A scan that [detectAndDecode] ends with is the end of the loop from
    the empty state. *)
Lemma detect_scanned (s : Scan) :
  detectAndDecode host settings input = Scanned s ->
  detectionLoop host settings input encodingTests noScan = Scanned s.
Proof.
  unfold detectAndDecode. intros H.
  destruct (negb (nonEmpty (trim input))); [discriminate|].
  destruct (negb (ErrorHandler.validateInput input None)); [discriminate|].
  exact H.
Qed.

(** A round whose [test] returns goes on to the next one. *)
Lemma tryEncoding_tested (s : Scan) (ty : encoding) (f : jsstring -> bool) :
  exists s', tryEncoding host settings input s (ty, fun input => Some (f input))
             = Some s'.
Proof.
  unfold tryEncoding.
  destruct (negb (shouldAttemptDecoding input ty settings));
    [eexists; reflexivity|].
  destruct (f input); eexists; reflexivity.
Qed.

(** When the settings let base85 be attempted, the loop is left at its
    fourth round, by the exception of the test. *)
Lemma base85_test_leaves_loop :
  shouldAttemptDecoding input base85 settings = true ->
  exists s,
    detectionLoop host settings input encodingTests noScan
    = TestFailed base85 s.
Proof.
  intros H. unfold encodingTests. cbn [detectionLoop].
  destruct (tryEncoding_tested noScan jwt
              (fun input => includesChar input "."
                            && (List.length (split_on 46 input) =? 3)%nat))
    as [s1 ->].
  destruct (tryEncoding_tested s1 base64
              (fun input => test_whole base64Shape input
                            && (Z.rem (length input) 4 =? 0)))
    as [s2 ->].
  destruct (tryEncoding_tested s2 base32
              (fun input => test_whole base32Shape input))
    as [s3 ->].
  exists s3. unfold tryEncoding. rewrite H. reflexivity.
Qed.

Lemma noScan_consistent : consistent host input noScan.
Proof. split; [constructor | left; split; reflexivity]. Qed.

Lemma decodeRound_consistent (s : Scan) (ty : encoding) :
  consistent host input s ->
  consistent host input (decodeRound host settings input s ty).
Proof.
  intros [Hall Hbest]. unfold decodeRound.
  destruct (decodeAs host ty input) as [res|] eqn:Edec;
    [|destruct (strictValidation settings); split; assumption].
  destruct (nonEmpty res && negb (str_eqb res input)) eqn:Eacc;
    [|split; assumption].
  apply andb_true_iff in Eacc. destruct Eacc as [_ Hne].
  assert (Hres : res <> input).
  { intros ->. rewrite str_eqb_refl in Hne. discriminate. }
  set (r := {| result := res; type := typeName ty;
               confidence := calculateConfidence input res ty;
               originalType := ty |}).
  assert (Hr : accepted host input r) by (repeat split; assumption).
  assert (Hall' : Forall (accepted host input) (results s ++ [r])).
  { apply Forall_app. split; [assumption|]. constructor; [exact Hr|constructor]. }
  destruct (PrimFloat.ltb (bestConfidence s) (calculateConfidence input res ty)).
  - split; [exact Hall'|]. right. exists r. cbn.
    split; [apply in_or_app; right; left; reflexivity|]. repeat split.
  - split; [exact Hall'|]. cbn.
    destruct Hbest as [Hnone | [r' [Hin Hr']]]; [left; exact Hnone|].
    right. exists r'. split; [apply in_or_app; left; exact Hin | exact Hr'].
Qed.

Lemma scan_consistent (s : Scan) :
  detectAndDecode host settings input = Scanned s -> consistent host input s.
Proof.
  intros H. apply detect_scanned in H.
  pose proof (detectionLoop_invariant (consistent host input)
                decodeRound_consistent encodingTests noScan
                noScan_consistent) as Hinv.
  rewrite H in Hinv. exact Hinv.
Qed.

End DetectionLoop.

Lemma typeName_injective (a b : encoding) : typeName a = typeName b -> a = b.
Proof. destruct a, b; intros H; try reflexivity; discriminate H. Qed.

(** C9: whatever the host, the settings and the input, a type whose
    decoding of the input returns the input unchanged has no entry in the
    list of accepted results and is not the type of the best result; the
    best result is never the input itself. *)
Theorem identity_decode_never_accepted (host : Host) (settings : Settings)
    (input : jsstring) (s : Scan) (ty : encoding) :
  detectAndDecode host settings input = Scanned s ->
  decodeAs host ty input = Some input ->
  (forall r, In r (results s) -> originalType r <> ty)
  /\ bestType s <> Some (typeName ty)
  /\ bestResult s <> Some input.
Proof.
  intros Hscan Hid.
  destruct (scan_consistent host settings input s Hscan) as [Hall Hbest].
  rewrite Forall_forall in Hall.
  assert (Hno : forall r, In r (results s) -> originalType r <> ty).
  { intros r Hin Hty. destruct (Hall r Hin) as [Hdec [Hne _]].
    rewrite Hty, Hid in Hdec. congruence. }
  split; [exact Hno|].
  destruct Hbest as [[Hr Ht] | [r [Hin [Hr [Ht _]]]]].
  - rewrite Hr, Ht. split; discriminate.
  - destruct (Hall r Hin) as [_ [Hne [Hname _]]]. rewrite Hr, Ht. split.
    + intros E. injection E as E. rewrite Hname in E.
      apply typeName_injective in E. exact (Hno r Hin E).
    + congruence.
Qed.

(** The instance: with [html] the one enabled type, the text [a&b;] passes
    the pre-check and the test of [html], its text content is the text
    itself, and the scan accepts nothing. *)
Lemma identity_decode_never_accepted_witness :
  exists s,
    detectAndDecode plainTextHost (enabling [js "html"]) (js "a&b;")
    = Scanned s
    /\ decodeAs plainTextHost html (js "a&b;") = Some (js "a&b;")
    /\ shouldAttemptDecoding (js "a&b;") html (enabling [js "html"]) = true
    /\ (includesChar (js "a&b;") "&" && includesChar (js "a&b;") ";") = true
    /\ (forall r, In r (results s) -> originalType r <> html)
    /\ bestType s <> Some (typeName html)
    /\ bestResult s <> Some (js "a&b;").
Proof.
  eexists. split; [vm_compute; reflexivity|]. split; [reflexivity|].
  split; [reflexivity|]. split; [reflexivity|].
  apply (identity_decode_never_accepted plainTextHost (enabling [js "html"])
           (js "a&b;") _ html); [vm_compute; reflexivity | reflexivity].
Defined.

(** ** Detection of a base64 text *)

(** C8: the code does not do what the claim says.  On [SGVsbG8=] with the
    default settings the round of base64 finds [Hello] with a confidence
    of 0.9, and two rounds later the test of base85 throws: the loop is
    left for the outer [catch], no result is shown, and the message is
    the one of an error.  With base64 the one enabled type the same scan
    ends, with that best result.  The default settings leave every scan
    this way: whatever the input, not blank and within the size limit, the
    loop is left at the test of base85. *)
Theorem default_scan_of_hello_fails (host : Host) :
  detectAndDecode host defaultSettings (js "SGVsbG8=")
  = TestFailed base85 helloScan
  /\ (forall isAuto,
        shownOutput
          (detectAndDecode_display host defaultSettings isAuto (js "SGVsbG8="))
        = None)
  /\ shownMessage
       (detectAndDecode_display host defaultSettings false (js "SGVsbG8="))
     = Some (ErrorMessage,
             handleEncodingError host (patternError host) (js "Decoding"))
  /\ detectAndDecode host (enabling [js "base64"]) (js "SGVsbG8=")
     = Scanned helloScan
  /\ bestResult helloScan = Some (js "Hello")
  /\ bestType helloScan = Some (typeName base64)
  /\ PrimFloat.leb 0.5 (bestConfidence helloScan) = true
  /\ (forall input,
        nonEmpty (trim input) = true ->
        length input <= 1048576 ->
        exists s,
          detectAndDecode host defaultSettings input = TestFailed base85 s).
Proof.
  assert (H : detectAndDecode host defaultSettings (js "SGVsbG8=")
              = TestFailed base85 helloScan).
  { destruct host. vm_compute. reflexivity. }
  split; [exact H|].
  unfold detectAndDecode_display. rewrite H.
  split; [intros isAuto; reflexivity|]. split; [reflexivity|].
  split; [destruct host; vm_compute; reflexivity|].
  split; [reflexivity|]. split; [reflexivity|]. split; [reflexivity|].
  intros input Hne Hlen. unfold detectAndDecode, ErrorHandler.validateInput.
  rewrite Hne. replace (1048576 <? length input) with false
    by (symmetry; apply Z.ltb_ge; exact Hlen).
  cbn [negb]. apply base85_test_leaves_loop. reflexivity.
Qed.

(** ** The sensitivity setting *)

(** C2: the code does not do what the claim says.  With [rot13] the one
    enabled type and the sensitivity [strict], whose threshold is 0.8, the
    input [a b] has one successful decoding, ROT13 with confidence 0.6; it
    is accepted, is the best result and is shown, exactly as with [loose]:
    the threshold is looked up and never compared with a score. *)
Theorem strict_accepts_low_confidence (host : Host) :
  minConfidenceOf (detectionSensitivity strictSettings) = 0.8%float
  /\ detectAndDecode host strictSettings (js "a b") = Scanned rot13Scan
  /\ detectAndDecode host looseSettings (js "a b") = Scanned rot13Scan
  /\ PrimFloat.ltb (bestConfidence rot13Scan) 0.8 = true
  /\ shownOutput (detectAndDecode_display host strictSettings false (js "a b"))
     = Some (js "n o", js "Detected: ROT13").
Proof.
  assert (H : detectAndDecode host strictSettings (js "a b")
              = Scanned rot13Scan).
  { destruct host. vm_compute. reflexivity. }
  split; [reflexivity|]. split; [exact H|].
  split; [destruct host; vm_compute; reflexivity|].
  split; [reflexivity|].
  unfold detectAndDecode_display. rewrite H. reflexivity.
Qed.

(* ================================================================= *)
(** * Further properties of the code *)

(** ** The shape of a frame *)

Lemma scrambleFrom_length (bytes derivedKey : list Z) (i : Z) :
  List.length (scrambleFrom i bytes derivedKey) = List.length bytes.
Proof.
  revert i. induction bytes as [|b r IH]; intros i; simpl; [reflexivity|].
  rewrite IH. reflexivity.
Qed.

(** X1: for a text and a key that are not empty, [encode] returns a frame
    of lowercase hex digits, two for each UTF-8 byte of the text, then a
    dot, then four lowercase hex digits of checksum. *)
Theorem encode_frame_format (text key : jsstring) :
  key <> [] -> text <> [] ->
  exists hex checksum,
    encode (Str text) (Str key) = Ok (hex ++ 46 :: checksum)
    /\ Forall (fun c => isLowerHex c = true) hex
    /\ List.length hex = (2 * List.length (TextEncoder_encode text))%nat
    /\ Forall (fun c => isLowerHex c = true) checksum
    /\ List.length checksum = 4%nat.
Proof.
  intros Hk Ht. destruct text as [|c t]; [congruence|].
  unfold encode. rewrite (keyDerivation_djb2 key Hk). cbn [bind].
  destruct (derive_djb2_bytes key) as [Hlen Hall].
  set (dk := KeyDerivationSpec.derive_djb2 key) in *.
  set (bytes := scrambleFrom 0 (TextEncoder_encode (c :: t)) dk).
  assert (Hb : Forall byte bytes)
    by (apply scrambleFrom_bytes; [assumption..|lia]).
  unfold bytesToHex. rewrite hex_fold_flat_map. cbn [app].
  pose proof (hex_chars bytes Hb) as Hhex.
  destruct (calculateChecksum_chars (flat_map hex2 bytes) dk
              (lowerHex_nonneg _ Hhex) (bytes_nonneg _ Hall)) as [Hcs Hcl].
  eexists. eexists. split; [reflexivity|].
  split; [exact Hhex|]. split; [|split; assumption].
  rewrite hex_length by exact Hb. unfold bytes.
  rewrite scrambleFrom_length. reflexivity.
Qed.

Lemma encode_frame_format_witness :
  js "k3y!" <> [] /\ js "HI" <> []
  /\ exists hex checksum,
       encode (Str (js "HI")) (Str (js "k3y!")) = Ok (hex ++ 46 :: checksum)
       /\ Forall (fun c => isLowerHex c = true) hex
       /\ List.length hex = (2 * List.length (TextEncoder_encode (js "HI")))%nat
       /\ Forall (fun c => isLowerHex c = true) checksum
       /\ List.length checksum = 4%nat.
Proof.
  split; [discriminate|]. split; [discriminate|].
  apply encode_frame_format; discriminate.
Defined.

(** X2: [encode] throws for one reason only: a text that is not empty with
    a key that is empty or absent; in every other case it returns. *)
Theorem encode_fails_only_without_key (text key : jsarg) :
  (exists frame, encode text key = Ok frame /\ (falsy text = true \/ falsy key = false))
  \/ (encode text key = Throw KeyRequired
      /\ falsy text = false /\ falsy key = true).
Proof.
  destruct text as [|[|c t]].
  - left. exists []. split; [reflexivity | left; reflexivity].
  - left. exists []. split; [reflexivity | left; reflexivity].
  - destruct key as [|[|k0 k]].
    + right. repeat split.
    + right. repeat split.
    + left. unfold encode.
      rewrite (keyDerivation_djb2 (k0 :: k)) by discriminate. cbn [bind].
      eexists. split; [reflexivity | right; reflexivity].
Qed.

(** ** What [hexToBytes] accepts *)

Lemma split_on_length (sep : Z) (s : jsstring) :
  List.length (split_on sep s) = S (count_occ Z.eq_dec s sep).
Proof.
  induction s as [|c s IH]; [reflexivity|].
  cbn [split_on count_occ].
  destruct (Z.eqb_spec c sep) as [->|Hc].
  - destruct (Z.eq_dec sep sep); [|congruence]. simpl. rewrite IH. reflexivity.
  - destruct (Z.eq_dec c sep); [congruence|].
    destruct (split_on sep s) as [|p ps]; [discriminate IH|].
    simpl in *. exact IH.
Qed.

Lemma split_on_single (sep : Z) (s p : jsstring) :
  split_on sep s = [p] -> s = p /\ ~ In sep p.
Proof.
  intros H. pose proof (split_on_length sep s) as L. rewrite H in L.
  simpl in L. injection L as L. symmetry in L.
  apply (count_occ_not_In Z.eq_dec) in L.
  rewrite (split_on_no_sep sep s L) in H. injection H as <-.
  split; [reflexivity | exact L].
Qed.

Lemma split_on_two (sep : Z) (s a b : jsstring) :
  split_on sep s = [a; b] ->
  s = a ++ sep :: b /\ ~ In sep a /\ ~ In sep b.
Proof.
  revert a. induction s as [|c s IH]; intros a H; [discriminate|].
  cbn [split_on] in H. destruct (Z.eqb_spec c sep) as [->|Hc].
  - injection H as <- H. apply split_on_single in H. destruct H as [-> Hb].
    repeat split; [intros [] | exact Hb].
  - destruct (split_on sep s) as [|p ps]; [discriminate|].
    injection H as <- ->. destruct (IH p eq_refl) as [-> [Hp Hb]].
    repeat split; [|exact Hb].
    intros [E|Hin]; [congruence | exact (Hp Hin)].
Qed.

Lemma parsePairs_length (hexData : jsstring) (bytes : list Z) (n : nat) :
  (List.length hexData <= n)%nat ->
  parsePairs hexData = Ok bytes ->
  List.length bytes = Nat.div2 (S (List.length hexData)).
Proof.
  revert hexData bytes. induction n as [|n IH]; intros hexData bytes Hn H.
  - destruct hexData; [|simpl in Hn; lia]. injection H as <-. reflexivity.
  - destruct hexData as [|a [|b r]].
    + injection H as <-. reflexivity.
    + cbn [parsePairs] in H. destruct (parseInt [a] (Some 16)); [|discriminate].
      injection H as <-. reflexivity.
    + cbn [parsePairs] in H.
      destruct (parseInt [a; b] (Some 16)); [|discriminate].
      destruct (parsePairs r) as [bs|] eqn:E; [|discriminate].
      cbn [bind] in H. injection H as <-.
      simpl in Hn. pose proof (IH r bs ltac:(lia) E) as L.
      cbn [List.length Nat.div2]. rewrite L. reflexivity.
Qed.

Lemma hexToBytes_Ok_inv (encoded : jsstring)
    (derivedKey bytes : list Z) :
  hexToBytes encoded derivedKey = Ok bytes ->
  exists hexData,
    encoded = hexData ++ 46 :: calculateChecksum hexData derivedKey
    /\ ~ In 46 hexData
    /\ List.length hexData = (2 * List.length bytes)%nat.
Proof.
  unfold hexToBytes. intros H.
  destruct (split_on 46 encoded) as [|hexData [|checksum [|]]] eqn:E;
    try discriminate.
  destruct (str_eqb checksum (calculateChecksum hexData derivedKey)) eqn:Ecs;
    [|discriminate].
  apply str_eqb_eq in Ecs. subst checksum. cbn [negb] in H.
  destruct (Z.eqb_spec (Z.rem (length hexData) 2) 0) as [Heven|];
    [|discriminate].
  cbn [negb] in H. apply split_on_two in E. destruct E as [-> [Hd _]].
  exists hexData. split; [reflexivity|]. split; [exact Hd|].
  rewrite (parsePairs_length hexData bytes _ (le_n _) H).
  unfold length in Heven. apply Z.rem_divide in Heven; [|lia].
  destruct Heven as [k Hk].
  assert (Hk' : List.length hexData = (2 * Z.to_nat k)%nat) by lia.
  rewrite Hk'. clear.
  induction (Z.to_nat k) as [|m IH]; [reflexivity|].
  replace (2 * S m)%nat with (S (S (2 * m))) by lia.
  cbn [Nat.div2] in *. lia.
Qed.

(** X3: [hexToBytes] returns bytes only for a string that is a hex part
    without a dot, one dot and the checksum of that hex part under the
    given key; it returns one byte for every two characters of the hex
    part. *)
Theorem hexToBytes_accepts_only_checked_frames (encoded : jsstring)
    (derivedKey bytes : list Z) :
  hexToBytes encoded derivedKey = Ok bytes ->
  exists hexData,
    encoded = hexData ++ 46 :: calculateChecksum hexData derivedKey
    /\ ~ In 46 hexData
    /\ List.length hexData = (2 * List.length bytes)%nat.
Proof. apply hexToBytes_Ok_inv. Qed.

Lemma hexToBytes_accepts_only_checked_frames_witness :
  exists derivedKey,
    hexToBytes (js "0a50.8bd0") derivedKey = Ok [10; 80]
    /\ exists hexData,
         js "0a50.8bd0" = hexData ++ 46 :: calculateChecksum hexData derivedKey
         /\ ~ In 46 hexData
         /\ List.length hexData = (2 * List.length [10; 80])%nat.
Proof.
  exists (KeyDerivationSpec.derive_djb2 (js "k3y!")).
  assert (H : hexToBytes (js "0a50.8bd0")
                (KeyDerivationSpec.derive_djb2 (js "k3y!")) = Ok [10; 80])
    by (vm_compute; reflexivity).
  split; [exact H|].
  exact (hexToBytes_accepts_only_checked_frames _ _ _ H).
Defined.

(** X4: a string in which the number of dots is not one makes [hexToBytes]
    throw 'Invalid format', whatever the key. *)
Theorem hexToBytes_needs_exactly_one_dot (encoded : jsstring)
    (derivedKey : list Z) :
  count_occ Z.eq_dec encoded 46 <> 1%nat ->
  hexToBytes encoded derivedKey = Throw InvalidFormat.
Proof.
  intros H. unfold hexToBytes.
  pose proof (split_on_length 46 encoded) as L.
  destruct (split_on 46 encoded) as [|a [|b [|]]]; try reflexivity.
  simpl in L. lia.
Qed.

Lemma hexToBytes_needs_exactly_one_dot_witness :
  count_occ Z.eq_dec (js "0a508bd0") 46 <> 1%nat
  /\ hexToBytes (js "0a508bd0") [] = Throw InvalidFormat.
Proof.
  assert (H : count_occ Z.eq_dec (js "0a508bd0") 46 <> 1%nat)
    by (vm_compute; discriminate).
  split; [exact H|]. exact (hexToBytes_needs_exactly_one_dot _ _ H).
Defined.

(** X5: a hex part of odd length, even with its right checksum behind the
    dot, makes [hexToBytes] throw 'Invalid hex data'. *)
Theorem hexToBytes_rejects_odd_length (hexData derivedKey : list Z) :
  wf_string hexData -> ~ In 46 hexData -> Forall byte derivedKey ->
  Nat.odd (List.length hexData) = true ->
  hexToBytes (hexData ++ 46 :: calculateChecksum hexData derivedKey) derivedKey
  = Throw InvalidHexData.
Proof.
  intros Hwf Hdot Hk Hodd. unfold hexToBytes.
  assert (Hpos : Forall (fun c => 0 <= c) hexData).
  { revert Hwf. apply Forall_impl. unfold code_unit. intros; lia. }
  destruct (calculateChecksum_chars hexData derivedKey Hpos (bytes_nonneg _ Hk))
    as [Hcs _].
  rewrite split_on_app by exact Hdot.
  rewrite split_on_no_sep by (apply lowerHex_no_dot, Hcs).
  rewrite str_eqb_refl. cbn [negb].
  apply Nat.odd_spec in Hodd. destruct Hodd as [m Hm].
  unfold length. rewrite Hm.
  replace (Z.rem (Z.of_nat (2 * m + 1)) 2) with 1; [reflexivity|].
  rewrite Z.rem_mod_nonneg by lia. Z.div_mod_to_equations. lia.
Qed.

Lemma hexToBytes_rejects_odd_length_witness :
  wf_string (js "0a5") /\ ~ In 46 (js "0a5")
  /\ Forall byte (KeyDerivationSpec.derive_djb2 (js "k3y!"))
  /\ Nat.odd (List.length (js "0a5")) = true
  /\ hexToBytes
       (js "0a5" ++ 46 :: calculateChecksum (js "0a5")
                            (KeyDerivationSpec.derive_djb2 (js "k3y!")))
       (KeyDerivationSpec.derive_djb2 (js "k3y!"))
     = Throw InvalidHexData.
Proof.
  assert (H1 : wf_string (js "0a5")).
  { change (js "0a5") with [48; 97; 53].
    repeat (apply Forall_cons; [unfold code_unit; lia|]). apply Forall_nil. }
  assert (H2 : ~ In 46 (js "0a5")).
  { change (js "0a5") with [48; 97; 53]. simpl. lia. }
  pose proof (proj2 (derive_djb2_bytes (js "k3y!"))) as H3.
  assert (H4 : Nat.odd (List.length (js "0a5")) = true) by reflexivity.
  repeat (split; [assumption|]).
  exact (hexToBytes_rejects_odd_length _ _ H1 H2 H3 H4).
Defined.

(** X6: [decode] throws nothing but 'Decoding failed', also for a missing
    key; and it returns a text only for the empty input or for a frame
    whose checksum is the one of its hex part under the derived key. *)
Theorem decode_outcomes (encodedText : jsstring) (key : jsarg) :
  match decode (Str encodedText) key with
  | Ok _ =>
      encodedText = []
      \/ exists derivedKey hexData,
           keyDerivation key = Ok derivedKey
           /\ encodedText
              = hexData ++ 46 :: calculateChecksum hexData derivedKey
  | Throw e => e = DecodingFailed
  end.
Proof.
  destruct encodedText as [|c e]; [left; reflexivity|].
  unfold decode.
  destruct (keyDerivation key) as [dk|]; [|reflexivity].
  cbn [bind].
  destruct (hexToBytes (c :: e) dk) as [bytes|] eqn:Eh; [|reflexivity].
  cbn [bind catch_rethrow]. right.
  destruct (hexToBytes_Ok_inv _ _ _ Eh) as [hex [E _]].
  exists dk, hex. split; [reflexivity | exact E].
Qed.

(** X7: at every position, under a derived key, [scrambleByte] maps bytes
    to bytes and maps different bytes to different bytes. *)
Theorem scrambleByte_injective (derivedKey : list Z) (position b b' : Z) :
  List.length derivedKey = 256%nat -> Forall byte derivedKey ->
  0 <= position -> byte b -> byte b' ->
  byte (scrambleByte b position derivedKey)
  /\ (scrambleByte b position derivedKey = scrambleByte b' position derivedKey
      -> b = b').
Proof.
  intros Hlen Hall Hp Hb Hb'.
  split; [apply scrambleByte_byte; assumption|].
  intros E.
  pose proof (unscramble_scramble derivedKey Hlen Hall b position Hb Hp) as H1.
  pose proof (unscramble_scramble derivedKey Hlen Hall b' position Hb' Hp) as H2.
  rewrite E in H1. congruence.
Qed.

Lemma scrambleByte_injective_witness :
  List.length (KeyDerivationSpec.derive_djb2 (js "k3y!")) = 256%nat
  /\ Forall byte (KeyDerivationSpec.derive_djb2 (js "k3y!"))
  /\ 0 <= 7 /\ byte 72 /\ byte 73
  /\ byte (scrambleByte 72 7 (KeyDerivationSpec.derive_djb2 (js "k3y!")))
  /\ (scrambleByte 72 7 (KeyDerivationSpec.derive_djb2 (js "k3y!"))
      = scrambleByte 73 7 (KeyDerivationSpec.derive_djb2 (js "k3y!"))
      -> 72 = 73).
Proof.
  destruct (derive_djb2_bytes (js "k3y!")) as [H1 H2].
  assert (H3 : 0 <= 7) by lia.
  assert (H4 : byte 72) by (unfold byte; lia).
  assert (H5 : byte 73) by (unfold byte; lia).
  split; [exact H1|]. split; [exact H2|]. split; [exact H3|].
  split; [exact H4|]. split; [exact H5|].
  exact (scrambleByte_injective _ 7 72 73 H1 H2 H3 H4 H5).
Defined.

(** ** No chaining *)
Lemma scrambleFrom_nth (bytes derivedKey : list Z) (start : Z) (i : nat) :
  nth_error (scrambleFrom start bytes derivedKey) i
  = option_map (fun b => scrambleByte b (start + Z.of_nat i) derivedKey)
               (nth_error bytes i).
Proof.
  revert start i. induction bytes as [|b r IH]; intros start i.
  - destruct i; reflexivity.
  - destruct i as [|i]; cbn [scrambleFrom nth_error option_map].
    + rewrite Z.add_0_r. reflexivity.
    + rewrite IH. replace (start + 1 + Z.of_nat i) with (start + Z.of_nat (S i))
        by lia. reflexivity.
Qed.

Lemma scrambleByte_period (derivedKey : list Z) (b position : Z) :
  List.length derivedKey = 256%nat -> 0 <= position ->
  scrambleByte b (position + 256) derivedKey
  = scrambleByte b position derivedKey.
Proof.
  intros Hlen Hp. unfold scrambleByte, length. rewrite Hlen.
  change (Z.of_nat 256) with 256.
  replace (Z.rem (position + 256) 256) with (Z.rem position 256)
    by (rewrite !Z.rem_mod_nonneg by lia; Z.div_mod_to_equations; lia).
  replace (Z.rem (position + 256) 8) with (Z.rem position 8)
    by (rewrite !Z.rem_mod_nonneg by lia; Z.div_mod_to_equations; lia).
  replace (Z.rem ((position + 256) * 7) 256) with (Z.rem (position * 7) 256)
    by (rewrite !Z.rem_mod_nonneg by lia; Z.div_mod_to_equations; lia).
  reflexivity.
Qed.

(** X8: the cipher byte at an index depends on the plain byte at that
    index, on the index and on the key only: two byte sequences that agree
    at an index have the same cipher byte there. *)
Theorem cipher_is_bytewise (bytes bytes' derivedKey : list Z) (i : nat) :
  nth_error bytes i = nth_error bytes' i ->
  nth_error (scrambleFrom 0 bytes derivedKey) i
  = nth_error (scrambleFrom 0 bytes' derivedKey) i.
Proof. intros H. rewrite !scrambleFrom_nth, H. reflexivity. Qed.

Lemma cipher_is_bytewise_witness :
  nth_error [72; 73; 74] 1 = nth_error [1; 73] 1
  /\ nth_error (scrambleFrom 0 [72; 73; 74] [1; 2; 3]) 1
     = nth_error (scrambleFrom 0 [1; 73] [1; 2; 3]) 1.
Proof.
  split; [reflexivity|]. apply cipher_is_bytewise. reflexivity.
Defined.

(** X9: the layers repeat every 256 positions: equal plain bytes 256
    positions apart give equal cipher bytes. *)
Theorem cipher_repeats_every_256 (bytes derivedKey : list Z) (i : nat) (b : Z) :
  List.length derivedKey = 256%nat ->
  nth_error bytes i = Some b -> nth_error bytes (i + 256) = Some b ->
  nth_error (scrambleFrom 0 bytes derivedKey) (i + 256)
  = nth_error (scrambleFrom 0 bytes derivedKey) i.
Proof.
  intros Hlen H1 H2. rewrite !scrambleFrom_nth, H1, H2. cbn [option_map].
  f_equal. replace (0 + Z.of_nat (i + 256)) with (0 + Z.of_nat i + 256) by lia.
  apply scrambleByte_period; [exact Hlen | lia].
Qed.

(** ** The key in the checksum *)
Lemma fold_left_ext_in {A B} (f g : A -> B -> A) (l : list B) (a : A) :
  (forall x y, In y l -> f x y = g x y) -> fold_left f l a = fold_left g l a.
Proof.
  revert a. induction l as [|y l IH]; intros a H; simpl; [reflexivity|].
  rewrite H by (left; reflexivity). apply IH.
  intros x z Hz. apply H. right. exact Hz.
Qed.

Lemma aget_firstn {A} (l : list A) (n : nat) (i : Z) :
  i < Z.of_nat n -> aget (firstn n l) i = aget l i.
Proof.
  intros H. unfold aget. destruct (Z.ltb_spec i 0); [reflexivity|].
  rewrite nth_error_firstn.
  destruct (Nat.ltb_spec (Z.to_nat i) n); [reflexivity | lia].
Qed.

(** X10: only the first 16 bytes of the key enter the checksum. *)
Theorem checksum_uses_first_16_key_bytes (data : jsstring)
    (derivedKey : list Z) :
  calculateChecksum data derivedKey
  = calculateChecksum data (firstn 16 derivedKey).
Proof.
  unfold calculateChecksum, checksumValue, for_upto. do 2 f_equal.
  rewrite length_firstn.
  replace (Nat.min (Nat.min 16 (List.length derivedKey)) 16)
    with (Nat.min (List.length derivedKey) 16) by lia.
  apply fold_left_ext_in. intros x i Hi. apply in_seq in Hi.
  rewrite aget_firstn by lia. reflexivity.
Qed.

Lemma cipher_repeats_every_256_witness :
  List.length (KeyDerivationSpec.derive_djb2 (js "k3y!")) = 256%nat
  /\ nth_error (repeat 65 300) 3 = Some 65
  /\ nth_error (repeat 65 300) (3 + 256) = Some 65
  /\ nth_error (scrambleFrom 0 (repeat 65 300)
                  (KeyDerivationSpec.derive_djb2 (js "k3y!"))) (3 + 256)
     = nth_error (scrambleFrom 0 (repeat 65 300)
                    (KeyDerivationSpec.derive_djb2 (js "k3y!"))) 3.
Proof.
  pose proof (proj1 (derive_djb2_bytes (js "k3y!"))) as H1.
  assert (H2 : nth_error (repeat 65 300) 3 = Some 65) by reflexivity.
  assert (H3 : nth_error (repeat 65 300) (3 + 256) = Some 65)
    by (vm_compute; reflexivity).
  split; [exact H1|]. split; [exact H2|]. split; [exact H3|].
  exact (cipher_repeats_every_256 _ _ 3 65 H1 H2 H3).
Defined.

(** ** The buttons *)

Lemma trimStart_no_ws (s : jsstring) :
  Forall (fun c => isWhiteSpace c = false) s -> trimStart s = s.
Proof. intros H. destruct H as [|c r Hc Hr]; simpl; [|rewrite Hc]; reflexivity. Qed.

Lemma trim_no_ws (s : jsstring) :
  Forall (fun c => isWhiteSpace c = false) s -> trim s = s.
Proof.
  intros H. unfold trim, trimEnd. rewrite (trimStart_no_ws s H).
  rewrite trimStart_no_ws by (apply Forall_rev, H). apply rev_involutive.
Qed.

Lemma lowerHex_not_ws (c : Z) : isLowerHex c = true -> isWhiteSpace c = false.
Proof. unfold isLowerHex, isWhiteSpace. lia. Qed.

Lemma blank_false_nonempty (s : jsstring) : blank s = false -> s <> [].
Proof. intros H ->. discriminate H. Qed.

(** X11: for a text and a key that are not blank, the text having no lone
    surrogate and no byte order mark in front, the encode button shows a
    frame, and the decode button on that frame with the same key shows the
    text. *)
Theorem click_round_trip (text key : jsstring) :
  wf_string text -> wellFormed text = true -> startsWithBOM text = false ->
  blank text = false -> blank key = false ->
  exists frame,
    encodeClick text key = Output frame
    /\ decodeClick frame key = Output text.
Proof.
  intros Hwf Hsur Hbom Ht Hk.
  pose proof (blank_false_nonempty _ Ht) as Ht'.
  pose proof (blank_false_nonempty _ Hk) as Hk'.
  destruct (encode_decode_bytes text key Hk' Hwf) as [frame [He Hd]].
  destruct (encode_frame text key frame Hk' Ht' He)
    as [dk [hex [_ [Hdk [Hhex Hf]]]]].
  exists frame. unfold encodeClick, decodeClick. rewrite Ht, Hk, He.
  split; [reflexivity|].
  assert (Hb : blank frame = false).
  { unfold blank. rewrite trim_no_ws; [subst frame; destruct hex; reflexivity|].
    subst frame. apply Forall_app. split.
    - revert Hhex. apply Forall_impl. apply lowerHex_not_ws.
    - constructor; [reflexivity|].
      destruct (calculateChecksum_chars hex dk (lowerHex_nonneg _ Hhex)
                  (bytes_nonneg _ Hdk)) as [Hcs _].
      revert Hcs. apply Forall_impl. apply lowerHex_not_ws. }
  rewrite Hb, Hd. destruct text as [|c t]; [congruence|].
  rewrite utf8_round_trip by assumption. reflexivity.
Qed.

Lemma click_round_trip_witness :
  wf_string (js "HI") /\ wellFormed (js "HI") = true
  /\ startsWithBOM (js "HI") = false
  /\ blank (js "HI") = false /\ blank (js "k3y!") = false
  /\ exists frame,
       encodeClick (js "HI") (js "k3y!") = Output frame
       /\ decodeClick frame (js "k3y!") = Output (js "HI").
Proof.
  assert (Hwf : wf_string (js "HI")).
  { change (js "HI") with [72; 73].
    repeat (apply Forall_cons; [unfold code_unit; lia|]). apply Forall_nil. }
  split; [exact Hwf|]. split; [reflexivity|]. split; [reflexivity|].
  split; [reflexivity|]. split; [reflexivity|].
  apply click_round_trip; [exact Hwf | reflexivity..].
Defined.

Ltac in_scores :=
  vm_compute; repeat (first [left; reflexivity | right]).

Lemma calculateConfidence_values (input result : jsstring) (ty : encoding) :
  result <> [] -> result <> input ->
  In (calculateConfidence input result ty) acceptedScores.
Proof.
  intros Hne Hin. unfold calculateConfidence.
  destruct result as [|c r]; [congruence|].
  destruct (str_eqb (c :: r) input) eqn:E;
    [apply str_eqb_eq in E; congruence|].
  destruct (10 <? length input); destruct (50 <? length input);
    destruct (test_whole printable (c :: r));
    destruct ty;
    repeat match goal with
           | |- context [if ?b then _ else _] => destruct b
           end;
    in_scores.
Qed.

(** X12: [calculateConfidence] is 0 exactly for a result that is empty or
    equal to the input, and lies between 0.5 and 1 for every other one. *)
Theorem calculateConfidence_range (input result : jsstring) (ty : encoding) :
  let c := calculateConfidence input result ty in
  (c = 0%float /\ (result = [] \/ result = input))
  \/ (PrimFloat.leb 0.5 c = true /\ PrimFloat.leb c 1 = true
      /\ result <> [] /\ result <> input).
Proof.
  cbv zeta. destruct result as [|c r]; [left; split; [reflexivity | left; reflexivity]|].
  destruct (str_eqb (c :: r) input) eqn:E.
  - left. unfold calculateConfidence. rewrite E.
    split; [reflexivity | right; apply str_eqb_eq, E].
  - right.
    assert (Hin : c :: r <> input).
    { intros <-. rewrite str_eqb_refl in E. discriminate. }
    pose proof (calculateConfidence_values input (c :: r) ty
                  ltac:(discriminate) Hin) as H.
    assert (Hall : forallb (fun x => PrimFloat.leb 0.5 x && PrimFloat.leb x 1)
                     acceptedScores = true) by (vm_compute; reflexivity).
    rewrite forallb_forall in Hall. apply Hall in H.
    apply andb_true_iff in H. destruct H as [H1 H2].
    repeat split; [assumption.. | discriminate | assumption].
Qed.

Lemma scores_order (a b c : float) :
  In a acceptedScores -> In b acceptedScores -> In c acceptedScores ->
  PrimFloat.ltb 0 a = true
  /\ (PrimFloat.ltb a b = false -> PrimFloat.leb b a = true)
  /\ (PrimFloat.ltb a b = true -> PrimFloat.ltb b c = true ->
      PrimFloat.ltb a c = true)
  /\ (PrimFloat.leb a b = true -> PrimFloat.ltb b c = true ->
      PrimFloat.ltb a c = true).
Proof.
  intros Ha Hb Hc.
  assert (H : forallb scores_ordered acceptedScores = true)
    by (vm_compute; reflexivity).
  rewrite forallb_forall in H. specialize (H a Ha). unfold scores_ordered in H.
  apply andb_true_iff in H. destruct H as [H0 H].
  rewrite forallb_forall in H. specialize (H b Hb).
  apply andb_true_iff in H. destruct H as [H1 H].
  rewrite forallb_forall in H. specialize (H c Hc).
  apply andb_true_iff in H. destruct H as [H2 H3].
  split; [exact H0|]. split; [|split].
  - intros E. rewrite E in H1. exact H1.
  - intros E1 E2. rewrite E1, E2 in H2. exact H2.
  - intros E1 E2. rewrite E1, E2 in H3. exact H3.
Qed.

Section Scan.

Variable host : Host.
Variable settings : Settings.
Variable input : jsstring.

Lemma decodeRound_results (s : Scan) (ty : encoding) :
  results (decodeRound host settings input s ty)
  = results s
    ++ (match decodeAs host ty input with
        | Some result =>
            if nonEmpty result && negb (str_eqb result input)
            then [recordOf host input ty] else []
        | None => []
        end).
Proof.
  unfold decodeRound, recordOf.
  destruct (decodeAs host ty input) as [res|].
  - destruct (nonEmpty res && negb (str_eqb res input));
      [|symmetry; apply app_nil_r].
    destruct (PrimFloat.ltb _ _); reflexivity.
  - destruct (strictValidation settings); symmetry; apply app_nil_r.
Qed.

Lemma tryEncoding_accepts (s s' : Scan)
    (entry : encoding * (jsstring -> option bool)) :
  tryEncoding host settings input s entry = Some s' ->
  results s'
  = results s
    ++ (if accepts host settings input entry
        then [recordOf host input (fst entry)] else []).
Proof.
  destruct entry as [ty test]. unfold tryEncoding, accepts.
  cbn [fst snd].
  destruct (shouldAttemptDecoding input ty settings); cbn [negb andb].
  - destruct (test input) as [[|]|]; cbn [andb]; intros H;
      [|injection H as <-; symmetry; apply app_nil_r | discriminate H].
    injection H as <-. rewrite decodeRound_results.
    destruct (decodeAs host ty input); reflexivity.
  - intros H. injection H as <-. symmetry. apply app_nil_r.
Qed.

Lemma scan_results (entries : list (encoding * (jsstring -> option bool)))
    (s s' : Scan) :
  detectionLoop host settings input entries s = Scanned s' ->
  results s'
  = results s
    ++ map (fun e => recordOf host input (fst e))
           (filter (accepts host settings input) entries).
Proof.
  revert s. induction entries as [|e l IH]; intros s; cbn [detectionLoop].
  - intros H. injection H as <-. symmetry. apply app_nil_r.
  - destruct (tryEncoding host settings input s e) as [s1|] eqn:E;
      [|discriminate].
    intros H. rewrite (IH s1 H), (tryEncoding_accepts s s1 e E).
    cbn [filter]. destruct (accepts host settings input e); cbn [map].
    + rewrite <- app_assoc. reflexivity.
    + rewrite app_nil_r. reflexivity.
Qed.

(** The loop runs to its end when no test that is called throws. *)
Lemma detectionLoop_completes
    (entries : list (encoding * (jsstring -> option bool))) (s : Scan) :
  (forall e, In e entries ->
             shouldAttemptDecoding input (fst e) settings = true ->
             snd e input <> None) ->
  exists s', detectionLoop host settings input entries s = Scanned s'.
Proof.
  revert s. induction entries as [|[ty test] l IH]; intros s H;
    cbn [detectionLoop].
  - exists s. reflexivity.
  - assert (Hl : forall e, In e l ->
                   shouldAttemptDecoding input (fst e) settings = true ->
                   snd e input <> None)
      by (intros e He; apply H; right; exact He).
    specialize (H (ty, test) (or_introl eq_refl)). cbn [fst snd] in H.
    unfold tryEncoding.
    destruct (shouldAttemptDecoding input ty settings); cbn [negb];
      [|apply IH, Hl].
    destruct (test input) as [[|]|];
      [apply IH, Hl | apply IH, Hl | contradiction (H eq_refl); reflexivity].
Qed.

(** Of the tests, the one of base85 throws and no other. *)
Lemma encodingTests_throw (e : encoding * (jsstring -> option bool)) :
  In e encodingTests -> fst e <> base85 -> snd e input <> None.
Proof.
  cbn [encodingTests In]. intros H Hne.
  repeat (destruct H as [<-|H]; [cbn [fst snd] in *; try discriminate|]);
    [exfalso; apply Hne; reflexivity | contradiction].
Qed.

Lemma decodeRound_ranked (s : Scan) (ty : encoding) :
  ranked s -> ranked (decodeRound host settings input s ty).
Proof.
  intros [Hsc Hbest]. unfold decodeRound.
  destruct (decodeAs host ty input) as [res|];
    [|destruct (strictValidation settings); split; assumption].
  destruct (nonEmpty res && negb (str_eqb res input)) eqn:Eacc;
    [|split; assumption].
  apply andb_true_iff in Eacc. destruct Eacc as [Hne Hdiff].
  assert (Hres : res <> []) by (intros ->; discriminate).
  assert (Hin : res <> input).
  { intros ->. rewrite str_eqb_refl in Hdiff. discriminate. }
  pose proof (calculateConfidence_values input res ty Hres Hin) as Hc.
  set (c := calculateConfidence input res ty) in *.
  set (r := {| result := res; type := typeName ty; confidence := c;
               originalType := ty |}).
  assert (Hsc' : Forall (fun x => In (confidence x) acceptedScores)
                   (results s ++ [r])).
  { apply Forall_app. split; [assumption|]. constructor; [exact Hc|constructor]. }
  destruct Hbest as [[H1 [H2 [H3 H4]]] | [l1 [b [l2 [E [H1 [H2 [H3 [Hl1 Hl2]]]]]]]]].
  - destruct (scores_order c c c Hc Hc Hc) as [Hpos _].
    rewrite H4, Hpos. split; [exact Hsc'|]. right.
    exists [], r, []. cbn. rewrite H3. repeat split; constructor.
  - assert (Hb : In (confidence b) acceptedScores).
    { rewrite Forall_forall in Hsc. apply Hsc. rewrite E.
      apply in_or_app. right. left. reflexivity. }
    rewrite H3. destruct (PrimFloat.ltb (confidence b) c) eqn:Elt.
    + split; [exact Hsc'|]. right. exists (results s), r, []. cbn.
      repeat split; [|constructor].
      rewrite Forall_forall. intros x Hx.
      assert (Hxs : In (confidence x) acceptedScores)
        by (rewrite Forall_forall in Hsc; apply Hsc, Hx).
      destruct (scores_order (confidence x) (confidence b) c Hxs Hb Hc)
        as [_ [_ [Ht1 Ht2]]].
      rewrite E in Hx. apply in_app_or in Hx. destruct Hx as [Hx|[<-|Hx]].
      * rewrite Forall_forall in Hl1. apply Ht1; [apply Hl1, Hx | exact Elt].
      * exact Elt.
      * rewrite Forall_forall in Hl2. apply Ht2; [apply Hl2, Hx | exact Elt].
    + split; [exact Hsc'|]. right. exists l1, b, (l2 ++ [r]). cbn.
      rewrite E, <- app_assoc. repeat split; try assumption.
      apply Forall_app. split; [exact Hl2|]. constructor; [|constructor].
      destruct (scores_order (confidence b) c c Hb Hc Hc) as [_ [Htot _]].
      apply Htot, Elt.
Qed.

Lemma noScan_ranked : ranked noScan.
Proof. split; [constructor|]. left. repeat split. Qed.

Lemma scan_ranked (s : Scan) :
  detectAndDecode host settings input = Scanned s -> ranked s.
Proof.
  intros H. apply detect_scanned in H.
  pose proof (detectionLoop_invariant host settings input ranked
                decodeRound_ranked encodingTests noScan noScan_ranked)
    as Hinv.
  rewrite H in Hinv. exact Hinv.
Qed.

End Scan.

(** X13: after a scan either nothing is accepted and there is no best
    result, or the best result is the first accepted result of the highest
    confidence: those before it score lower, those after it not higher. *)
Theorem best_is_first_highest (host : Host) (settings : Settings)
    (input : jsstring) (s : Scan) :
  detectAndDecode host settings input = Scanned s ->
  (bestResult s = None /\ bestType s = None /\ results s = [])
  \/ exists before best after,
       results s = before ++ best :: after
       /\ bestResult s = Some (result best)
       /\ bestType s = Some (type best)
       /\ bestConfidence s = confidence best
       /\ Forall (fun x => PrimFloat.ltb (confidence x) (confidence best)
                           = true) before
       /\ Forall (fun x => PrimFloat.leb (confidence x) (confidence best)
                           = true) after.
Proof.
  intros H.
  destruct (scan_ranked host settings input s H)
    as [_ [[H1 [H2 [H3 _]]]|Hbest]].
  - left. repeat split; assumption.
  - right. exact Hbest.
Qed.

(** X14: the accepted results of a scan are, in trial order, one record
    for each entry of [encodingTests] whose pre-check and test pass and
    whose decoding is a non-empty string different from the input. *)
Theorem results_follow_trial_order (host : Host) (settings : Settings)
    (input : jsstring) (s : Scan) :
  detectAndDecode host settings input = Scanned s ->
  results s
  = map (fun e => recordOf host input (fst e))
        (filter (accepts host settings input) encodingTests)
  /\ map fst encodingTests = trialOrder.
Proof.
  intros H. apply detect_scanned in H.
  split; [|reflexivity]. rewrite (scan_results _ _ _ _ _ _ H). reflexivity.
Qed.

(** The instance of X13 and X14: with [base64] and [rot13] enabled, the
    scan of [SGVsbG8=] accepts [Hello] with 0.9 and then the ROT13 text
    with 0.6. *)
Lemma best_is_first_highest_witness :
  exists s,
    detectAndDecode failingHost (enabling [js "base64"; js "rot13"])
                    (js "SGVsbG8=") = Scanned s
    /\ List.length (results s) = 2%nat
    /\ ((bestResult s = None /\ bestType s = None /\ results s = [])
        \/ exists before best after,
             results s = before ++ best :: after
             /\ bestResult s = Some (result best)
             /\ bestType s = Some (type best)
             /\ bestConfidence s = confidence best
             /\ Forall (fun x => PrimFloat.ltb (confidence x) (confidence best)
                                 = true) before
             /\ Forall (fun x => PrimFloat.leb (confidence x) (confidence best)
                                 = true) after).
Proof.
  eexists. split; [vm_compute; reflexivity|]. split; [reflexivity|].
  apply (best_is_first_highest failingHost
           (enabling [js "base64"; js "rot13"]) (js "SGVsbG8=")).
  vm_compute. reflexivity.
Defined.

Lemma results_follow_trial_order_witness :
  exists s,
    detectAndDecode failingHost (enabling [js "base64"; js "rot13"])
                    (js "SGVsbG8=") = Scanned s
    /\ map originalType (results s) = [base64; rot13]
    /\ results s
       = map (fun e => recordOf failingHost (js "SGVsbG8=") (fst e))
             (filter (accepts failingHost
                        (enabling [js "base64"; js "rot13"]) (js "SGVsbG8="))
                     encodingTests)
    /\ map fst encodingTests = trialOrder.
Proof.
  eexists. split; [vm_compute; reflexivity|]. split; [reflexivity|].
  apply (results_follow_trial_order failingHost
           (enabling [js "base64"; js "rot13"]) (js "SGVsbG8=")).
  vm_compute. reflexivity.
Defined.

(** ** The settings *)

Lemma shouldAttemptDecoding_true (input : jsstring) (ty : encoding)
    (settings : Settings) :
  shouldAttemptDecoding input ty settings = true ->
  autoDetect settings = true
  /\ (enabledEncodings settings = []
      \/ includes (enabledEncodings settings) (name ty) = true).
Proof.
  unfold shouldAttemptDecoding.
  destruct (autoDetect settings); [|discriminate]. cbn [negb].
  destruct (enabledEncodings settings) as [|e l] eqn:E.
  - intros _. split; [reflexivity | left; reflexivity].
  - destruct (includes (e :: l) (name ty)).
    + intros _. split; [reflexivity | right; reflexivity].
    + discriminate.
Qed.

(** X15: a result is accepted only with auto-detection on and, when the
    list of enabled encodings is not empty, only for a type named in it. *)
Theorem results_respect_settings (host : Host) (settings : Settings)
    (input : jsstring) (s : Scan) (r : DetectionResult) :
  detectAndDecode host settings input = Scanned s ->
  In r (results s) ->
  autoDetect settings = true
  /\ (enabledEncodings settings = []
      \/ includes (enabledEncodings settings) (name (originalType r)) = true).
Proof.
  intros H Hin. apply detect_scanned in H.
  rewrite (scan_results _ _ _ _ _ _ H) in Hin. cbn [results noScan app] in Hin.
  apply in_map_iff in Hin. destruct Hin as [e [<- He]].
  apply filter_In in He. destruct He as [_ Hacc].
  unfold accepts in Hacc. rewrite !andb_true_iff in Hacc.
  destruct Hacc as [[Hs _] _].
  apply shouldAttemptDecoding_true in Hs. exact Hs.
Qed.

(** The instance: the list of enabled types is [base64], [rot13]; the
    second accepted result is the one of [rot13], which the list names. *)
Lemma results_respect_settings_witness :
  exists s r,
    detectAndDecode failingHost (enabling [js "base64"; js "rot13"])
                    (js "SGVsbG8=") = Scanned s
    /\ In r (results s)
    /\ originalType r = rot13
    /\ enabledEncodings (enabling [js "base64"; js "rot13"]) <> []
    /\ autoDetect (enabling [js "base64"; js "rot13"]) = true
    /\ (enabledEncodings (enabling [js "base64"; js "rot13"]) = []
        \/ includes (enabledEncodings (enabling [js "base64"; js "rot13"]))
                    (name (originalType r)) = true).
Proof.
  eexists. eexists.
  split; [vm_compute; reflexivity|].
  split; [right; left; reflexivity|].
  split; [reflexivity|]. split; [discriminate|].
  apply (results_respect_settings failingHost
           (enabling [js "base64"; js "rot13"]) (js "SGVsbG8=")
           _ _ ltac:(vm_compute; reflexivity)).
  right. left. reflexivity.
Defined.

(** X16: with auto-detection off a scan accepts nothing and has no best
    result. *)
Theorem nothing_detected_without_autoDetect (host : Host) (settings : Settings)
    (input : jsstring) (s : Scan) :
  autoDetect settings = false ->
  detectAndDecode host settings input = Scanned s ->
  s = noScan.
Proof.
  intros Hoff H. apply detect_scanned in H. revert H.
  assert (Hskip : forall s e,
             tryEncoding host settings input s e = Some s).
  { intros s0 [ty test]. unfold tryEncoding, shouldAttemptDecoding.
    rewrite Hoff. reflexivity. }
  generalize noScan. generalize encodingTests. intros entries.
  induction entries as [|e l IH]; intros s0; cbn [detectionLoop].
  - intros H. injection H as <-. reflexivity.
  - rewrite Hskip. apply IH.
Qed.

Lemma nothing_detected_without_autoDetect_witness :
  autoDetect
    {| autoDetect := false; detectionSensitivity := js "medium";
       enabledEncodings := []; strictValidation := false;
       showConfidence := false |} = false
  /\ detectAndDecode failingHost
       {| autoDetect := false; detectionSensitivity := js "medium";
          enabledEncodings := []; strictValidation := false;
          showConfidence := false |} (js "SGVsbG8=") = Scanned noScan
  /\ noScan = noScan.
Proof.
  split; [reflexivity|]. split; [vm_compute; reflexivity|].
  apply (nothing_detected_without_autoDetect failingHost
           {| autoDetect := false; detectionSensitivity := js "medium";
              enabledEncodings := []; strictValidation := false;
              showConfidence := false |} (js "SGVsbG8="));
    [reflexivity | vm_compute; reflexivity].
Defined.

(** X17: [detectionSensitivity] is looked up and never used.  Two
    settings that agree on the four other entries give, for every input,
    the same end of the loop and the same display, on the page and on the
    console. *)
Theorem detectionSensitivity_is_not_used (host : Host) (s1 s2 : Settings)
    (isAuto : bool) (input : jsstring) :
  autoDetect s1 = autoDetect s2 ->
  enabledEncodings s1 = enabledEncodings s2 ->
  strictValidation s1 = strictValidation s2 ->
  showConfidence s1 = showConfidence s2 ->
  detectAndDecode host s1 input = detectAndDecode host s2 input
  /\ detectAndDecode_display host s1 isAuto input
     = detectAndDecode_display host s2 isAuto input.
Proof.
  intros Ha He Hv Hc.
  assert (Hloop : detectAndDecode host s1 input
                  = detectAndDecode host s2 input).
  { unfold detectAndDecode.
    destruct (negb (nonEmpty (trim input))); [reflexivity|].
    destruct (negb (ErrorHandler.validateInput input None)); [reflexivity|].
    generalize noScan. generalize encodingTests.
    intros entries. induction entries as [|[ty test] l IH]; intros s;
      cbn [detectionLoop]; [reflexivity|].
    assert (Hstep : tryEncoding host s1 input s (ty, test)
                    = tryEncoding host s2 input s (ty, test)).
    { unfold tryEncoding, decodeRound, shouldAttemptDecoding.
      rewrite Ha, He, Hv. reflexivity. }
    rewrite Hstep.
    destruct (tryEncoding host s2 input s (ty, test)); [apply IH|].
    reflexivity. }
  split; [exact Hloop|].
  unfold detectAndDecode_display. rewrite Hloop.
  destruct (detectAndDecode host s2 input) as [| |ty s|s]; try reflexivity.
  unfold shown. rewrite Ha, Hc. reflexivity.
Qed.

Lemma detectionSensitivity_is_not_used_witness :
  autoDetect strictSettings = autoDetect looseSettings
  /\ enabledEncodings strictSettings = enabledEncodings looseSettings
  /\ strictValidation strictSettings = strictValidation looseSettings
  /\ showConfidence strictSettings = showConfidence looseSettings
  /\ detectionSensitivity strictSettings <> detectionSensitivity looseSettings
  /\ detectAndDecode failingHost strictSettings (js "a b")
     = detectAndDecode failingHost looseSettings (js "a b")
  /\ detectAndDecode_display failingHost strictSettings false (js "a b")
     = detectAndDecode_display failingHost looseSettings false (js "a b").
Proof.
  split; [reflexivity|]. split; [reflexivity|]. split; [reflexivity|].
  split; [reflexivity|]. split; [discriminate|].
  apply detectionSensitivity_is_not_used; reflexivity.
Defined.

(** The two other settings are read: [strictValidation] writes the
    failure of a decoder to the console, and [showConfidence] adds the
    score to the information shown with the result. *)
Lemma strictValidation_and_showConfidence_are_read :
  consoleLines
    (detectAndDecode_display failingHost
       {| autoDetect := true; detectionSensitivity := js "medium";
          enabledEncodings := [js "base32"]; strictValidation := true;
          showConfidence := false |} false (js "A=A"))
  = [ ConsoleWarn (js "base32 decoding failed:") ]
  /\ consoleLines
       (detectAndDecode_display failingHost (enabling [js "base32"]) false
          (js "A=A"))
     = []
  /\ shownOutput
       (detectAndDecode_display failingHost
          {| autoDetect := true; detectionSensitivity := js "medium";
             enabledEncodings := [js "rot13"]; strictValidation := false;
             showConfidence := true |} false (js "a b"))
     = Some (js "n o", js "Detected: ROT13 (60% confidence)")
  /\ shownOutput
       (detectAndDecode_display failingHost (enabling [js "rot13"]) false
          (js "a b"))
     = Some (js "n o", js "Detected: ROT13").
Proof. repeat split; vm_compute; reflexivity. Qed.

Lemma letter_test (c : Z) :
  test_whole letter [c]
  = ((97 <=? c) && (c <=? 122)) || ((65 <=? c) && (c <=? 90)).
Proof.
  unfold test_whole, letter, union, range. cbn [fold_left deriv].
  change (charCode "a") with 97. change (charCode "z") with 122.
  change (charCode "A") with 65. change (charCode "Z") with 90.
  destruct ((97 <=? c) && (c <=? 122) || (65 <=? c) && (c <=? 90));
    reflexivity.
Qed.

Lemma caesarChar_inverse (k c : Z) :
  0 <= k <= 26 ->
  caesarChar (Some (26 - k)) (caesarChar (Some k) c) = c.
Proof.
  intros Hk. unfold caesarChar at 2. rewrite letter_test.
  destruct ((97 <=? c) && (c <=? 122) || (65 <=? c) && (c <=? 90)) eqn:E.
  - unfold fromCharCode, ToUint16.
    destruct (Z.leb_spec c 90).
    + assert (Hc : 65 <= c <= 90) by lia.
      rewrite Z.rem_mod_nonneg by lia.
      set (e := (c - 65 + k) mod 26 + 65).
      assert (He : 65 <= e <= 90)
        by (unfold e; Z.div_mod_to_equations; lia).
      rewrite (Z.mod_small e) by lia.
      unfold caesarChar. rewrite letter_test.
      replace ((97 <=? e) && (e <=? 122) || (65 <=? e) && (e <=? 90)) with true
        by lia.
      replace (e <=? 90) with true by lia.
      unfold fromCharCode, ToUint16. rewrite Z.rem_mod_nonneg by lia.
      unfold e. rewrite Z.mod_small by (Z.div_mod_to_equations; lia).
      Z.div_mod_to_equations. lia.
    + assert (Hc : 97 <= c <= 122) by lia.
      rewrite Z.rem_mod_nonneg by lia.
      set (e := (c - 97 + k) mod 26 + 97).
      assert (He : 97 <= e <= 122)
        by (unfold e; Z.div_mod_to_equations; lia).
      rewrite (Z.mod_small e) by lia.
      unfold caesarChar. rewrite letter_test.
      replace ((97 <=? e) && (e <=? 122) || (65 <=? e) && (e <=? 90)) with true
        by lia.
      replace (e <=? 90) with false by lia.
      unfold fromCharCode, ToUint16. rewrite Z.rem_mod_nonneg by lia.
      unfold e. rewrite Z.mod_small by (Z.div_mod_to_equations; lia).
      Z.div_mod_to_equations. lia.
  - unfold caesarChar. rewrite letter_test, E. reflexivity.
Qed.

(** X18: for a shift from 0 to 26, [caesarDecode] undoes [caesarEncode]
    on every text. *)
Theorem caesar_round_trip (text : jsstring) (shift : Z) :
  0 <= shift <= 26 ->
  caesarDecode (caesarEncode text (Some shift)) (Some shift) = text.
Proof.
  intros H. unfold caesarDecode, caesarEncode. cbn [option_map].
  rewrite map_map. induction text as [|c r IH]; [reflexivity|].
  cbn [map]. rewrite caesarChar_inverse by exact H. rewrite IH. reflexivity.
Qed.

Lemma caesar_round_trip_witness :
  0 <= 3 <= 26
  /\ caesarDecode (caesarEncode (js "Hello, World!") (Some 3)) (Some 3)
     = js "Hello, World!".
Proof. split; [lia|]. apply caesar_round_trip. lia. Defined.

Lemma rot13Char_caesar (c : Z) : rot13Char c = caesarChar (Some 13) c.
Proof. reflexivity. Qed.

(** X19: the ROT13 case is its own inverse: decoding twice gives the
    input back. *)
Theorem rot13_self_inverse (host : Host) (input : jsstring) :
  exists encoded,
    decodeAs host rot13 input = Some encoded
    /\ decodeAs host rot13 encoded = Some input.
Proof.
  eexists. split; [reflexivity|]. cbn [decodeAs]. f_equal.
  rewrite map_map. induction input as [|c r IH]; [reflexivity|].
  cbn [map]. rewrite IH. f_equal. rewrite !rot13Char_caesar.
  apply (caesarChar_inverse 13). lia.
Qed.

(** ** Base85 decoding *)

Import AdvancedEncoders.

Lemma indexOf_char (s : jsstring) (c : Z) :
  (exists i, indexOf s [c] = Some i) <-> In c s.
Proof.
  induction s as [|y s IH].
  - split; [intros [i H]; discriminate | intros []].
  - cbn [indexOf startsWith]. destruct (Z.eqb_spec c y) as [->|Hne].
    + destruct s; cbn; split; intros _; (eexists; reflexivity) || (left; reflexivity).
    + cbn [andb]. split.
      * intros [i H]. right. apply IH.
        destruct (indexOf s [c]) as [j|]; [exists j; reflexivity|discriminate].
      * intros [E|Hin]; [congruence|]. apply IH in Hin. destruct Hin as [j ->].
        eexists. reflexivity.
Qed.

Lemma chunk_value (chunk : jsstring) (v : option Z) :
  (exists w, fold_left
               (fun value c =>
                  match value, indexOf base85Alphabet [c] with
                  | Some v, Some index => Some (v * 85 + index)
                  | _, _ => None
                  end) chunk v = Some w)
  <-> (exists v0, v = Some v0)
      /\ Forall (fun c => In c base85Alphabet) chunk.
Proof.
  revert v. induction chunk as [|c r IH]; intros v; cbn [fold_left].
  - split.
    + intros [w ->]. split; [eexists; reflexivity | constructor].
    + intros [[v0 ->] _]. eexists. reflexivity.
  - rewrite IH. split.
    + intros [[v0 E] Hr]. destruct v as [v1|]; [|discriminate].
      destruct (indexOf base85Alphabet [c]) as [i|] eqn:Ei; [|discriminate].
      split; [eexists; reflexivity|]. constructor; [|exact Hr].
      apply indexOf_char. exists i. exact Ei.
    + intros [[v0 ->] Hall]. apply Forall_cons_iff in Hall.
      destruct Hall as [Hc Hr]. apply indexOf_char in Hc. destruct Hc as [i ->].
      split; [eexists; reflexivity | exact Hr].
Qed.

Lemma decodeBase85_loop_accepts (n : nat) (input : jsstring) :
  (List.length input <= n)%nat ->
  (exists out, decodeBase85_loop n input = Some out)
  <-> Forall (fun c => In c base85Alphabet) input.
Proof.
  revert input. induction n as [|n IH]; intros input Hn.
  - destruct input; [|simpl in Hn; lia]. split; [constructor|].
    intros _. eexists. reflexivity.
  - destruct input as [|c r]; [split; [constructor | intros _; eexists; reflexivity]|].
    cbn [decodeBase85_loop]. simpl in Hn.
    destruct (Z.eqb_spec c (charCode "z")) as [->|Hz].
    + specialize (IH r ltac:(lia)). split.
      * intros [out H]. constructor; [vm_compute; tauto|]. apply IH.
        destruct (decodeBase85_loop n r) as [rest|]; [|discriminate].
        eexists. reflexivity.
      * intros H. apply Forall_cons_iff in H. destruct H as [_ Hr].
        apply IH in Hr. destruct Hr as [rest ->]. eexists. reflexivity.
    + set (input := c :: r) in *.
      pose proof (chunk_value (firstn 5 input) (Some 0)) as Hv.
      pose proof (IH (skipn 5 input)
                    ltac:(rewrite length_skipn; unfold input; simpl; lia)) as Hs.
      assert (Hsplit :
                Forall (fun c => In c base85Alphabet) input
                <-> Forall (fun c => In c base85Alphabet) (firstn 5 input)
                    /\ Forall (fun c => In c base85Alphabet) (skipn 5 input))
        by (rewrite <- Forall_app, firstn_skipn; reflexivity).
      rewrite Hsplit. split.
      * intros [out H].
        destruct (fold_left _ (firstn 5 input) (Some 0)) as [v|] eqn:Ev;
          [|discriminate].
        destruct (decodeBase85_loop n (skipn 5 input)) as [rest|] eqn:Er;
          [|discriminate].
        split; [apply Hv; eexists; reflexivity | apply Hs; eexists; reflexivity].
      * intros [H1 H2].
        destruct (proj2 Hv (conj (ex_intro _ 0 eq_refl) H1)) as [w Hw].
        apply Hs in H2. destruct H2 as [rest Hr].
        rewrite Hw, Hr. eexists. reflexivity.
Qed.

(** X20: [decodeBase85] returns exactly for the strings all of whose
    characters are in its alphabet, and throws for every other one. *)
Theorem decodeBase85_accepts_its_alphabet (input : jsstring) :
  (exists output, decodeBase85 input = Some output)
  <-> Forall (fun c => In c base85Alphabet) input.
Proof. apply decodeBase85_loop_accepts. apply le_n. Qed.

(** ** Base32 decoding *)

Section Base32.

Variable host : Host.

Lemma decodeBase32_loop_length (input : jsstring) (value bits : Z)
    (output out : jsstring) :
  0 <= bits < 8 ->
  Forall (fun c => 0 <= c < 256) output ->
  decodeBase32_loop host input value bits output = Some out ->
  Forall (fun c => 0 <= c < 256) out
  /\ exists bits',
       0 <= bits' < 8
       /\ 8 * Z.of_nat (List.length out) + bits'
          = 8 * Z.of_nat (List.length output) + bits
            + 5 * Z.of_nat (List.length input).
Proof.
  revert value bits output. induction input as [|c r IH];
    intros value bits output Hb Hout H.
  - injection H as <-. split; [exact Hout|]. exists bits. simpl. lia.
  - cbn [decodeBase32_loop] in H.
    destruct (indexOf base32Alphabet (toUpperCase host c)) as [index|];
      [|discriminate].
    destruct (Z.leb_spec 8 (bits + 5)).
    + apply IH in H; [| lia |].
      * destruct H as [H1 [b' [Hb' E]]]. split; [exact H1|]. exists b'.
        split; [exact Hb'|]. rewrite length_app, Nat2Z.inj_add in E.
        cbn [List.length] in E |- *. lia.
      * apply Forall_app. split; [exact Hout|]. constructor; [|constructor].
        unfold fromCharCode, ToUint16. rewrite band_255.
        pose proof (Z.mod_pos_bound
                      (shr (bor (shl value 5) index) (bits + 5 - 8)) 256
                      eq_refl) as B.
        rewrite Z.mod_small; lia.
    + apply IH in H; [| lia | exact Hout].
      destruct H as [H1 [b' [Hb' E]]]. split; [exact H1|]. exists b'.
      split; [exact Hb'|]. cbn [List.length]. lia.
Qed.

(** X21: when [decodeBase32] returns, the result has one character, below
    256, for every full eight bits of the five-bit symbols left after the
    trailing equals signs are dropped. *)
Theorem decodeBase32_length (input output : jsstring) :
  decodeBase32 host input = Some output ->
  Z.of_nat (List.length output)
  = 5 * Z.of_nat (List.length (stripTrailingEquals input)) / 8
  /\ Forall (fun c => 0 <= c < 256) output.
Proof.
  unfold decodeBase32. intros H.
  apply decodeBase32_loop_length in H; [|lia|constructor].
  destruct H as [H1 [b' [Hb' E]]]. split; [|exact H1].
  cbn [List.length] in E. change (Z.of_nat 0) with 0 in E.
  Z.div_mod_to_equations. lia.
Qed.

End Base32.

Lemma decodeBase32_length_witness :
  exists output,
    decodeBase32 failingHost (js "JBSWY3DP") = Some output
    /\ Z.of_nat (List.length output)
       = 5 * Z.of_nat (List.length (stripTrailingEquals (js "JBSWY3DP"))) / 8
    /\ Forall (fun c => 0 <= c < 256) output.
Proof.
  eexists. split; [vm_compute; reflexivity|].
  apply (decodeBase32_length failingHost (js "JBSWY3DP")).
  vm_compute. reflexivity.
Defined.


(** ** Bit operations as arithmetic *)

Lemma ToInt32_mod_pow2 (x k : Z) :
  0 <= k <= 32 -> ToInt32 x mod 2 ^ k = x mod 2 ^ k.
Proof.
  intros Hk. unfold ToInt32.
  rewrite (Z.mod_eq _ 4294967296) by lia.
  set (q := (x + 2147483648) / 4294967296).
  replace (x + 2147483648 - 4294967296 * q - 2147483648)
    with (x + (- q * 2 ^ (32 - k)) * 2 ^ k).
  - apply Z_mod_plus_full.
  - replace 4294967296 with (2 ^ (32 - k) * 2 ^ k); [ring|].
    rewrite <- Z.pow_add_r by lia.
    replace (32 - k + k) with 32 by lia. reflexivity.
Qed.

Lemma lor_low (a c k : Z) :
  0 <= k -> a mod 2 ^ k = 0 -> 0 <= c < 2 ^ k -> Z.lor a c = a + c.
Proof.
  intros Hk Ha Hc.
  assert (Hland : Z.land a c = 0).
  { apply Z.bits_inj'. intros n Hn. rewrite Z.land_spec, Z.bits_0.
    destruct (Z.lt_ge_cases n k).
    - rewrite <- (Z.mod_pow2_bits_low a k n) by lia.
      rewrite Ha, Z.bits_0. reflexivity.
    - rewrite <- (Z.mod_small c (2 ^ k)) by lia.
      rewrite Z.mod_pow2_bits_high by lia. apply andb_false_r. }
  rewrite <- Z.lxor_lor by exact Hland.
  symmetry. apply Z.add_nocarry_lxor, Hland.
Qed.

(** [(v << n) | c] for [c] below [2^n], modulo [2^32]. *)
Lemma bor_shl_eqm (v c n : Z) :
  0 <= n < 32 -> 0 <= c < 2 ^ n ->
  bor (shl v n) c mod 4294967296 = (v * 2 ^ n + c) mod 4294967296.
Proof.
  intros Hn Hc.
  assert (Hpow : 2 ^ n <= 2 ^ 31) by (apply Z.pow_le_mono_r; lia).
  change (2 ^ 31) with 2147483648 in Hpow.
  unfold bor, shl.
  rewrite (Z.mod_small n 32) by lia.
  rewrite (ToInt32_small (ToInt32 _)) by apply ToInt32_range.
  rewrite (ToInt32_small c) by lia.
  rewrite (lor_low _ c n); [|lia| |exact Hc].
  - rewrite Z.shiftl_mul_pow2 by lia.
    rewrite Zplus_mod, ToInt32_eqm.
    rewrite (Zmult_mod (ToInt32 v)), ToInt32_eqm, <- Zmult_mod, <- Zplus_mod.
    reflexivity.
  - rewrite ToInt32_mod_pow2 by lia.
    rewrite Z.shiftl_mul_pow2 by lia. apply Z_mod_mult.
Qed.

Lemma band_31 (x : Z) : band x 31 = x mod 32.
Proof.
  unfold band. rewrite (ToInt32_small 31) by lia.
  change 31 with (Z.ones 5). rewrite Z.land_ones by lia.
  apply (ToInt32_mod_pow2 x 5). lia.
Qed.

Lemma shr_div (v k : Z) :
  0 <= k < 32 -> shr v k = (v mod 4294967296) / 2 ^ k.
Proof.
  intros Hk. unfold shr, ToUint32.
  rewrite (Z.mod_small k 32) by lia. apply Z.shiftr_div_pow2. lia.
Qed.

Lemma band_shl_31 (v k : Z) :
  0 <= k < 32 -> band (shl v k) 31 = (v * 2 ^ k) mod 32.
Proof.
  intros Hk. rewrite band_31. unfold shl.
  rewrite (Z.mod_small k 32) by lia.
  rewrite (ToInt32_mod_pow2 _ 5) by lia.
  rewrite Z.shiftl_mul_pow2 by lia.
  rewrite Zmult_mod, (ToInt32_mod_pow2 v 5), <- Zmult_mod by lia.
  reflexivity.
Qed.

(** ** Base32: decoding what was encoded *)

Section Base32RoundTrip.

Variable host : Host.

Lemma emit_more (n : nat) (v b : Z) (out : jsstring) :
  5 <= b ->
  encodeBase32_emit (S n) v b out
  = encodeBase32_emit n v (b - 5)
      (out ++ charAt base32Alphabet (band (shr v (b - 5)) 31)).
Proof.
  intros H. cbn [encodeBase32_emit].
  destruct (Z.leb_spec 5 b); [reflexivity | lia].
Qed.

Lemma emit_done (n : nat) (v b : Z) (out : jsstring) :
  b < 5 -> encodeBase32_emit n v b out = (b, out).
Proof.
  intros H. destruct n; cbn [encodeBase32_emit]; [reflexivity|].
  destruct (Z.leb_spec 5 b); [lia | reflexivity].
Qed.

(** One character of the input gives one symbol when fewer than two bits
    were left over, and two symbols otherwise. *)
Lemma encodeBase32_step_eq (v b c : Z) (out : jsstring) :
  0 <= b <= 4 ->
  encodeBase32_step (v, b, out) c
  = let v' := bor (shl v 8) c in
    if b <? 2
    then (v', b + 3,
          out ++ charAt base32Alphabet (band (shr v' (b + 3)) 31))
    else (v', b - 2,
          (out ++ charAt base32Alphabet (band (shr v' (b + 3)) 31))
            ++ charAt base32Alphabet (band (shr v' (b - 2)) 31)).
Proof.
  intros Hb. unfold encodeBase32_step. cbv zeta.
  destruct (Z.to_nat (b + 8)) as [|[|n]] eqn:E; try lia.
  rewrite emit_more by lia.
  replace (b + 8 - 5) with (b + 3) by lia.
  destruct (Z.ltb_spec b 2).
  - rewrite emit_done by lia. reflexivity.
  - rewrite emit_more by lia. rewrite emit_done by lia.
    replace (b + 3 - 5) with (b - 2) by lia. reflexivity.
Qed.

(** The alphabet: the symbol of an index is one character, it is not the
    padding character, and [indexOf] finds the index back. *)
Lemma base32_symbol (i : Z) :
  0 <= i < 32 ->
  exists ch, charAt base32Alphabet i = [ch] /\ ch <> 61
    /\ indexOf base32Alphabet (toUpperCase host ch) = Some i.
Proof.
  intros Hi.
  pose (f := fun i =>
    match aget base32Alphabet i with
    | Some ch =>
        negb (ch =? 61)
        && match indexOf base32Alphabet (toUpperCase host ch) with
           | Some j => j =? i
           | None => false
           end
    | None => false
    end).
  assert (Hall : forallb f (zrange 32) = true) by (vm_compute; reflexivity).
  pose proof (forallb_zrange f 32 Hall i Hi) as H.
  unfold f, charAt in *.
  destruct (aget base32Alphabet i) as [ch|]; [|discriminate].
  apply andb_true_iff in H. destruct H as [H1 H2].
  exists ch. split; [reflexivity|]. split.
  - intros ->. discriminate.
  - destruct (indexOf base32Alphabet (toUpperCase host ch)) as [j|];
      [|discriminate].
    apply Z.eqb_eq in H2. congruence.
Qed.

(** The decoder on one symbol. *)
Lemma decodeBase32_symbol (i vd bd : Z) (r od : jsstring) :
  0 <= i < 32 -> 0 <= bd < 8 ->
  decodeBase32_loop host (charAt base32Alphabet i ++ r) vd bd od
  = let vd' := bor (shl vd 5) i in
    if bd <? 3
    then decodeBase32_loop host r vd' (bd + 5) od
    else decodeBase32_loop host r vd' (bd - 3)
           (od ++ [(vd' mod 4294967296 / 2 ^ (bd - 3)) mod 256]).
Proof.
  intros Hi Hb.
  destruct (base32_symbol i Hi) as (ch & -> & _ & Hidx).
  cbn [app decodeBase32_loop]. rewrite Hidx. cbv zeta.
  destruct (Z.leb_spec 8 (bd + 5)), (Z.ltb_spec bd 3); try lia.
  - replace (bd + 5 - 8) with (bd - 3) by lia.
    rewrite band_255, shr_div by lia.
    unfold fromCharCode, ToUint16.
    rewrite (Z.mod_small (_ mod 256)); [reflexivity|].
    match goal with
    | |- 0 <= ?x mod 256 < _ =>
        pose proof (Z.mod_pos_bound x 256 eq_refl); lia
    end.
  - reflexivity.
Qed.

Ltac pow2_consts :=
  repeat match goal with
         | |- context [2 ^ ?e] =>
             let v := eval vm_compute in (2 ^ e) in
             progress change (2 ^ e) with v
         | H : context [2 ^ ?e] |- _ =>
             let v := eval vm_compute in (2 ^ e) in
             progress change (2 ^ e) with v in H
         end.

Lemma mod_32_range (x : Z) : 0 <= x mod 32 < 32.
Proof. apply Z.mod_pos_bound. reflexivity. Qed.

Lemma charAt_no_equals (x : Z) :
  Forall (fun ch => ch <> 61) (charAt base32Alphabet (x mod 32)).
Proof.
  destruct (base32_symbol (x mod 32) (mod_32_range x)) as (ch & -> & H & _).
  constructor; [exact H | constructor].
Qed.

(** The encoder and the decoder in step: after the encoder has read
    [input], the decoder has read its symbols and written all of [input]
    but, where bits are left over, its last character, whose bits are split
    between the two states. *)
Lemma base32_lockstep (input : jsstring) :
  Forall (fun c => 0 <= c < 256) input ->
  exists ve be syms vd bd od,
    fold_left encodeBase32_step input (0, 0, []) = (ve, be, syms)
    /\ Forall (fun ch => ch <> 61) syms
    /\ (forall r, decodeBase32_loop host (syms ++ r) 0 0 []
                  = decodeBase32_loop host r vd bd od)
    /\ ((be = 0 /\ bd = 0 /\ od = input)
        \/ (1 <= be <= 4 /\ bd = 8 - be
            /\ exists p c, input = p ++ [c] /\ od = p
                 /\ (vd mod 2 ^ bd) * 2 ^ be + ve mod 2 ^ be = c)).
Proof.
  induction input as [|c l IH] using rev_ind; intros Hbytes.
  - exists 0, 0, [], 0, 0, [].
    split; [reflexivity|]. split; [constructor|]. split; [reflexivity|].
    left. repeat split.
  - apply Forall_app in Hbytes. destruct Hbytes as [Hl Hc].
    apply Forall_cons_iff in Hc. destruct Hc as [Hc _].
    destruct (IH Hl) as (ve & be & syms & vd & bd & od & Hfold & Hsyms & Hdec & Hinv).
    rewrite fold_left_app, Hfold. cbn [fold_left].
    assert (Hbe : 0 <= be <= 4) by (destruct Hinv as [(-> & _)|(H & _)]; lia).
    rewrite encodeBase32_step_eq by exact Hbe. cbv zeta.
    pose proof (bor_shl_eqm ve c 8 ltac:(lia) Hc) as HV.
    set (V := bor (shl ve 8) c) in *.
    rewrite !band_31.
    set (s1 := shr V (be + 3) mod 32).
    set (s2 := shr V (be - 2) mod 32).
    pose proof (bor_shl_eqm vd s1 5 ltac:(lia) (mod_32_range _)) as HD1.
    set (D1 := bor (shl vd 5) s1) in *.
    pose proof (bor_shl_eqm D1 s2 5 ltac:(lia) (mod_32_range _)) as HD2.
    set (D2 := bor (shl D1 5) s2) in *.
    destruct Hinv as [(-> & -> & ->)|(Hr & -> & p & c0 & -> & -> & Hpend)].
    + (* no bits left over *)
      change (0 <? 2) with true. cbv iota.
      exists V, 3, (syms ++ charAt base32Alphabet s1), D1, 5, l.
      split; [reflexivity|]. split.
      { apply Forall_app. split; [exact Hsyms | apply charAt_no_equals]. }
      split.
      { intros r. rewrite <- app_assoc, Hdec.
        rewrite decodeBase32_symbol by (apply mod_32_range || lia).
        reflexivity. }
      right. split; [lia|]. split; [reflexivity|].
      exists l, c. split; [reflexivity|]. split; [reflexivity|].
      subst s1. rewrite ?shr_div in * by lia. pow2_consts. clear - HD1 HV Hc.
      Z.div_mod_to_equations. lia.
    + (* bits left over: the decoder still owes the character [c0] *)
      assert (Hc0 : 0 <= c0 < 256).
      { apply Forall_app in Hl. destruct Hl as [_ Hl].
        apply Forall_cons_iff in Hl. apply Hl. }
      assert (Hcases : be = 1 \/ be = 2 \/ be = 3 \/ be = 4) by lia.
      destruct Hcases as [->|[->|[->| ->]]].
      * change (1 <? 2) with true. cbv iota.
        exists V, 4, (syms ++ charAt base32Alphabet s1), D1, 4, (p ++ [c0]).
        split; [reflexivity|]. split.
        { apply Forall_app. split; [exact Hsyms | apply charAt_no_equals]. }
        split.
        { intros r. rewrite <- app_assoc, Hdec.
          rewrite decodeBase32_symbol by (apply mod_32_range || lia).
          cbv zeta. change (8 - 1 <? 3) with false. cbv iota.
          fold D1. do 3 f_equal.
          subst s1. rewrite ?shr_div in * by lia. pow2_consts. clear - HD1 HV Hc Hc0 Hpend.
          Z.div_mod_to_equations. lia. }
        right. split; [lia|]. split; [reflexivity|].
        exists (p ++ [c0]), c. split; [reflexivity|]. split; [reflexivity|].
        subst s1. rewrite ?shr_div in * by lia. pow2_consts. clear - HD1 HV Hc.
        Z.div_mod_to_equations. lia.
      * change (2 <? 2) with false. cbv iota.
        exists V, 0,
          ((syms ++ charAt base32Alphabet s1) ++ charAt base32Alphabet s2),
          D2, 0, ((p ++ [c0]) ++ [c]).
        split; [reflexivity|]. split.
        { repeat (apply Forall_app; split);
            [exact Hsyms | apply charAt_no_equals ..]. }
        split.
        { intros r. rewrite <- !app_assoc, Hdec.
          rewrite decodeBase32_symbol by (apply mod_32_range || lia).
          cbv zeta. change (8 - 2 <? 3) with false. cbv iota. fold D1.
          rewrite decodeBase32_symbol by (apply mod_32_range || lia).
          cbv zeta. change (8 - 2 - 3 <? 3) with false. cbv iota. fold D2.
          assert (E1 : (D1 mod 4294967296 / 2 ^ (8 - 2 - 3)) mod 256 = c0).
          { subst s1 s2. rewrite ?shr_div in * by lia. pow2_consts.
            clear - HD1 HV Hc Hc0 Hpend. Z.div_mod_to_equations. lia. }
          assert (E2 : (D2 mod 4294967296 / 2 ^ (8 - 2 - 3 - 3)) mod 256 = c).
          { subst s1 s2. rewrite ?shr_div in * by lia. pow2_consts.
            clear - HD1 HD2 HV Hc. Z.div_mod_to_equations. lia. }
          rewrite E1, E2, <- ?app_assoc. reflexivity. }
        left. repeat split.
      * change (3 <? 2) with false. cbv iota.
        exists V, 1,
          ((syms ++ charAt base32Alphabet s1) ++ charAt base32Alphabet s2),
          D2, 7, (p ++ [c0]).
        split; [reflexivity|]. split.
        { repeat (apply Forall_app; split);
            [exact Hsyms | apply charAt_no_equals ..]. }
        split.
        { intros r. rewrite <- !app_assoc, Hdec.
          rewrite decodeBase32_symbol by (apply mod_32_range || lia).
          cbv zeta. change (8 - 3 <? 3) with false. cbv iota. fold D1.
          rewrite decodeBase32_symbol by (apply mod_32_range || lia).
          cbv zeta. change (8 - 3 - 3 <? 3) with true. cbv iota. fold D2.
          do 3 f_equal.
          subst s1 s2. rewrite ?shr_div in * by lia. pow2_consts. clear - HD1 HD2 HV Hc Hc0 Hpend.
          Z.div_mod_to_equations. lia. }
        right. split; [lia|]. split; [reflexivity|].
        exists (p ++ [c0]), c. split; [reflexivity|]. split; [reflexivity|].
        subst s1 s2. rewrite ?shr_div in * by lia. pow2_consts. clear - HD1 HD2 HV Hc.
        Z.div_mod_to_equations. lia.
      * change (4 <? 2) with false. cbv iota.
        exists V, 2,
          ((syms ++ charAt base32Alphabet s1) ++ charAt base32Alphabet s2),
          D2, 6, (p ++ [c0]).
        split; [reflexivity|]. split.
        { repeat (apply Forall_app; split);
            [exact Hsyms | apply charAt_no_equals ..]. }
        split.
        { intros r. rewrite <- !app_assoc, Hdec.
          rewrite decodeBase32_symbol by (apply mod_32_range || lia).
          cbv zeta. change (8 - 4 <? 3) with false. cbv iota. fold D1.
          rewrite decodeBase32_symbol by (apply mod_32_range || lia).
          cbv zeta. change (8 - 4 - 3 <? 3) with true. cbv iota. fold D2.
          do 3 f_equal.
          subst s1 s2. rewrite ?shr_div in * by lia. pow2_consts. clear - HD1 HD2 HV Hc Hc0 Hpend.
          Z.div_mod_to_equations. lia. }
        right. split; [lia|]. split; [reflexivity|].
        exists (p ++ [c0]), c. split; [reflexivity|]. split; [reflexivity|].
        subst s1 s2. rewrite ?shr_div in * by lia. pow2_consts. clear - HD1 HD2 HV Hc.
        Z.div_mod_to_equations. lia.
Qed.

Lemma dropEquals_repeat (k : nat) (s : jsstring) :
  dropEquals (repeat 61 k ++ s) = dropEquals s.
Proof. induction k as [|k IH]; [reflexivity | exact IH]. Qed.

Lemma dropEquals_other (s : jsstring) :
  Forall (fun ch => ch <> 61) s -> dropEquals s = s.
Proof.
  intros H. destruct H as [|ch s Hch _]; [reflexivity|].
  cbn [dropEquals].
  destruct ch as [|q|q]; try reflexivity.
  do 6 (destruct q as [q|q|]; try reflexivity).
  contradiction Hch. reflexivity.
Qed.

Lemma stripTrailingEquals_padding (s : jsstring) (k : nat) :
  Forall (fun ch => ch <> 61) s ->
  stripTrailingEquals (s ++ repeat 61 k) = s.
Proof.
  intros H. unfold stripTrailingEquals.
  rewrite rev_app_distr, rev_repeat, dropEquals_repeat.
  rewrite dropEquals_other by (apply Forall_rev, H).
  apply rev_involutive.
Qed.

Lemma encodeBase32_pad_repeat (n : nat) (s : jsstring) :
  exists k, encodeBase32_pad n s = s ++ repeat 61 k.
Proof.
  revert s. induction n as [|n IH]; intros s; cbn [encodeBase32_pad].
  - exists 0%nat. symmetry. apply app_nil_r.
  - destruct (negb _).
    + destruct (IH (s ++ [61])) as [k ->]. exists (S k).
      rewrite <- app_assoc. reflexivity.
    + exists 0%nat. symmetry. apply app_nil_r.
Qed.

(** X22: Base32 round trip.  For a text of characters below 256,
    [decodeBase32] gives back what [encodeBase32] was given: the padding is
    removed, every symbol is found in the alphabet, and the bits left over
    at the end complete the last character. *)
Theorem decodeBase32_encodeBase32 (input : jsstring) :
  Forall (fun c => 0 <= c < 256) input ->
  decodeBase32 host (encodeBase32 input) = Some input.
Proof.
  intros Hbytes.
  destruct (base32_lockstep input Hbytes)
    as (ve & be & syms & vd & bd & od & Hfold & Hsyms & Hdec & Hinv).
  unfold encodeBase32, decodeBase32. rewrite Hfold.
  destruct Hinv as [(-> & -> & ->)|(Hr & -> & p & c & -> & -> & Hpend)].
  - change (0 <? 0) with false. cbv iota.
    destruct (encodeBase32_pad_repeat 7 syms) as [k ->].
    rewrite stripTrailingEquals_padding by exact Hsyms.
    rewrite <- (app_nil_r syms), Hdec. reflexivity.
  - destruct (Z.ltb_spec 0 be) as [_|]; [|lia].
    rewrite band_shl_31 by lia.
    destruct (encodeBase32_pad_repeat 7
                (syms ++ charAt base32Alphabet ((ve * 2 ^ (5 - be)) mod 32)))
      as [k ->].
    rewrite stripTrailingEquals_padding
      by (apply Forall_app; split; [exact Hsyms | apply charAt_no_equals]).
    rewrite Hdec.
    rewrite <- (app_nil_r (charAt _ _)).
    rewrite decodeBase32_symbol by (apply mod_32_range || lia).
    cbv zeta.
    destruct (Z.ltb_spec (8 - be) 3) as [|_]; [lia|].
    cbn [decodeBase32_loop]. do 3 f_equal.
    pose proof (bor_shl_eqm vd _ 5 ltac:(lia)
                  (mod_32_range (ve * 2 ^ (5 - be)))) as HD.
    set (D := bor (shl vd 5) _) in *.
    assert (Hcases : be = 1 \/ be = 2 \/ be = 3 \/ be = 4) by lia.
    destruct Hcases as [->|[->|[->| ->]]]; pow2_consts;
      clear - HD Hpend; Z.div_mod_to_equations; lia.
Qed.

End Base32RoundTrip.

Lemma decodeBase32_encodeBase32_witness :
  Forall (fun c => 0 <= c < 256) (js "Hi there")
  /\ decodeBase32 failingHost (encodeBase32 (js "Hi there"))
     = Some (js "Hi there").
Proof.
  assert (H : Forall (fun c => 0 <= c < 256) (js "Hi there")).
  { repeat constructor; discriminate. }
  split; [exact H | apply (decodeBase32_encodeBase32 failingHost), H].
Defined.


(** ** Quoted-printable: decoding what was encoded *)

Lemma removeSoftBreaks_cons (c : Z) (r : jsstring) :
  c <> 61 \/ match r with y :: _ => y <> 92 | [] => True end ->
  removeSoftBreaks (c :: r) = c :: removeSoftBreaks r.
Proof.
  intros H.
  destruct c as [|p|p]; try reflexivity.
  do 6 (destruct p as [p|p|]; try reflexivity).
  destruct H as [H|H]; [contradiction H; reflexivity|].
  destruct r as [|y r]; [reflexivity|].
  destruct y as [|p|p]; try reflexivity.
  do 7 (destruct p as [p|p|]; try reflexivity).
  contradiction H. reflexivity.
Qed.

Lemma removeSoftBreaks_none (s : jsstring) :
  Forall (fun c => c <> 92) s -> removeSoftBreaks s = s.
Proof.
  induction 1 as [|c r Hc Hr IH]; [reflexivity|].
  rewrite removeSoftBreaks_cons, IH; [reflexivity|].
  right. destruct Hr; [exact I | assumption].
Qed.

(** A break behind a line without backslash is removed, and nothing of the
    line with it. *)
Lemma removeSoftBreaks_line (line rest : jsstring) :
  Forall (fun c => c <> 92) line ->
  removeSoftBreaks (line ++ softBreak ++ rest) = line ++ removeSoftBreaks rest.
Proof.
  induction 1 as [|c r Hc Hr IH]; [reflexivity|].
  cbn [app]. rewrite removeSoftBreaks_cons.
  - f_equal. exact IH.
  - right. destruct Hr; cbn; [discriminate | assumption].
Qed.

Lemma wrap75_from_head (fuel : nat) (s : jsstring) :
  match wrap75_from fuel s, s with
  | y :: _, x :: _ => y = x
  | [], [] => True
  | _, _ => False
  end.
Proof.
  destruct fuel as [|f]; cbn [wrap75_from].
  - destruct s; [exact I | reflexivity].
  - destruct s as [|c r]; [exact I|].
    cbv zeta.
    destruct (_ && _); [|reflexivity].
    cbn [firstn app]. reflexivity.
Qed.

(** The second replacement of the encoder is undone by the first of the
    decoder on a text without backslash. *)
Lemma removeSoftBreaks_wrap75_from (fuel : nat) (s : jsstring) :
  Forall (fun c => c <> 92) s ->
  removeSoftBreaks (wrap75_from fuel s) = s.
Proof.
  revert s. induction fuel as [|f IH]; intros s Hs.
  - apply removeSoftBreaks_none, Hs.
  - cbn [wrap75_from]. destruct s as [|c r]; [reflexivity|]. cbv zeta.
    destruct (_ && _).
    + rewrite <- (firstn_skipn 75 (c :: r)) in Hs.
      apply Forall_app in Hs. destruct Hs as [H1 H2].
      rewrite removeSoftBreaks_line by exact H1.
      rewrite IH by exact H2. apply firstn_skipn.
    + apply Forall_cons_iff in Hs. destruct Hs as [Hc Hr].
      rewrite removeSoftBreaks_cons; [rewrite IH by exact Hr; reflexivity|].
      right. pose proof (wrap75_from_head f r) as Hh.
      destruct (wrap75_from f r) as [|y w]; [exact I|].
      destruct r as [|x r]; [contradiction|]. subst y.
      apply Forall_cons_iff in Hr. apply Hr.
Qed.

Section QuotedPrintableRoundTrip.

Variable host : Host.

(** An escaped character is an equals sign and two hexadecimal digits that
    [parseInt] reads back. *)
Lemma escapeQuotedPrintable_spec (c : Z) :
  quotedPrintableClass c = true ->
  exists a b, escapeQuotedPrintable host c = [61; a; b]
    /\ isHexDigit a = true /\ isHexDigit b = true
    /\ fromCharCode (parseInt [a; b] (Some 16)) = c.
Proof.
  intros Hc.
  assert (Hr : 0 <= c < Z.of_nat 128).
  { unfold quotedPrintableClass, union, ch, range in Hc.
    cbn in Hc. lia. }
  pose (f := fun c =>
    negb (quotedPrintableClass c)
    || match escapeQuotedPrintable host c with
       | [e; a; b] =>
           (e =? 61) && isHexDigit a && isHexDigit b
           && (fromCharCode (parseInt [a; b] (Some 16)) =? c)
       | _ => false
       end).
  assert (Hall : forallb f (zrange 128) = true) by (vm_compute; reflexivity).
  pose proof (forallb_zrange f 128 Hall c Hr) as H.
  clear Hall. unfold f in H. clear f. rewrite Hc in H. cbn [negb orb] in H.
  destruct (escapeQuotedPrintable host c) as [|e [|a [|b [|]]]];
    try discriminate H.
  apply andb_true_iff in H. destruct H as [H H4].
  apply andb_true_iff in H. destruct H as [H H3].
  apply andb_true_iff in H. destruct H as [H1 H2].
  apply Z.eqb_eq in H1, H4. subst e.
  exists a, b. repeat split; assumption.
Qed.

Lemma isHexDigit_no_backslash (a : Z) : isHexDigit a = true -> a <> 92.
Proof. intros H ->. discriminate. Qed.

Lemma escaped_no_backslash (s : jsstring) :
  Forall (fun c => c <> 92)
    (flat_map (fun c => if quotedPrintableClass c
                        then escapeQuotedPrintable host c else [c]) s).
Proof.
  induction s as [|c s IH]; [constructor|].
  cbn [flat_map]. apply Forall_app. split; [|exact IH].
  destruct (quotedPrintableClass c) eqn:Hc.
  - destruct (escapeQuotedPrintable_spec c Hc) as (a & b & -> & Ha & Hb & _).
    repeat constructor; try discriminate;
      apply isHexDigit_no_backslash; assumption.
  - constructor; [|constructor]. intros ->. discriminate.
Qed.

Lemma unescapeHex_escaped (s : jsstring) :
  unescapeHex
    (flat_map (fun c => if quotedPrintableClass c
                        then escapeQuotedPrintable host c else [c]) s)
  = s.
Proof.
  induction s as [|c s IH]; [reflexivity|].
  cbn [flat_map].
  destruct (quotedPrintableClass c) eqn:Hc.
  - destruct (escapeQuotedPrintable_spec c Hc) as (a & b & -> & Ha & Hb & Hv).
    cbn [app unescapeHex]. rewrite Ha, Hb. cbn [Z.eqb Pos.eqb andb].
    rewrite Hv, IH. reflexivity.
  - cbn [app unescapeHex].
    assert (Hne : (c =? 61) = false).
    { destruct (Z.eqb_spec c 61) as [->|]; [discriminate | reflexivity]. }
    rewrite Hne. cbn [andb].
    set (t := flat_map _ s) in *.
    destruct t as [|a [|b r]]; rewrite IH; reflexivity.
Qed.

(** X23: quoted-printable round trip.  [decodeQuotedPrintable] gives back
    every text that [encodeQuotedPrintable] was given: the backslash is
    among the escaped characters, so the breaks put behind every 75
    characters are the only places where the decoder finds its first
    pattern, and each escape is read back to its character. *)
Theorem decodeQuotedPrintable_encodeQuotedPrintable (input : jsstring) :
  decodeQuotedPrintable (encodeQuotedPrintable host input) = input.
Proof.
  unfold decodeQuotedPrintable, encodeQuotedPrintable, wrap75.
  rewrite removeSoftBreaks_wrap75_from by apply escaped_no_backslash.
  apply unescapeHex_escaped.
Qed.

End QuotedPrintableRoundTrip.


(** ** Lists joined by spaces and split again *)

Lemma arrayFrom_units (s : jsstring) :
  Forall (fun c => isHighSurrogate c = false) s ->
  arrayFrom s = map (fun c => [c]) s.
Proof.
  induction 1 as [|c r Hc Hr IH]; [reflexivity|].
  cbn [arrayFrom map]. rewrite Hc. cbn [andb].
  destruct r as [|d r']; [reflexivity|].
  rewrite IH. reflexivity.
Qed.

Lemma split_ws_from_nonempty (b : bool) (s : jsstring) :
  split_ws_from b s <> [].
Proof.
  revert b. induction s as [|c r IH]; intros b; cbn [split_ws_from].
  - discriminate.
  - destruct (isWhiteSpace c).
    + destruct b; [apply IH | discriminate].
    + destruct (split_ws_from false r); discriminate.
Qed.

Lemma split_ws_from_prefix (b : bool) (t r : jsstring) :
  token t ->
  split_ws_from b (t ++ r)
  = match split_ws_from false r with
    | p :: ps => (t ++ p) :: ps
    | [] => [t]
    end.
Proof.
  intros [Hne Hws]. revert b.
  induction Hws as [|c t Hc Ht IH]; [contradiction|]. intros b.
  cbn [app split_ws_from]. rewrite Hc.
  destruct t as [|c' t'].
  - cbn [app]. destruct (split_ws_from false r); reflexivity.
  - rewrite IH by discriminate.
    destruct (split_ws_from false r); reflexivity.
Qed.

Lemma split_ws_from_join (b : bool) (ts : list jsstring) :
  ts <> [] -> Forall token ts ->
  split_ws_from b (join (js " ") ts) = ts.
Proof.
  intros Hne H. revert b.
  induction H as [|t ts Ht Hts IH]; [contradiction|]. intros b.
  destruct ts as [|t2 ts].
  - cbn [join]. rewrite <- (app_nil_r t) at 1.
    rewrite split_ws_from_prefix by exact Ht.
    cbn [split_ws_from]. rewrite app_nil_r. reflexivity.
  - change (join (js " ") (t :: t2 :: ts))
      with (t ++ 32 :: join (js " ") (t2 :: ts)).
    rewrite split_ws_from_prefix by exact Ht.
    change (split_ws_from false (32 :: ?x)) with ([] :: split_ws_from true x).
    cbn [split_ws_from]. change (isWhiteSpace 32) with true. cbv iota.
    rewrite IH by discriminate. rewrite app_nil_r. reflexivity.
Qed.

Lemma join_first (ts : list jsstring) :
  ts <> [] -> Forall token ts ->
  exists c r, join (js " ") ts = c :: r /\ isWhiteSpace c = false.
Proof.
  intros Hne H. destruct H as [|t ts [Ht Hws] _]; [contradiction|].
  destruct Hws as [|c t' Hc _]; [contradiction|].
  destruct ts; cbn [join app]; eauto.
Qed.

Lemma join_last (ts : list jsstring) :
  ts <> [] -> Forall token ts ->
  exists c r, join (js " ") ts = r ++ [c] /\ isWhiteSpace c = false.
Proof.
  intros Hne H.
  induction H as [|t ts Ht Hts IH]; [contradiction|].
  destruct ts as [|t2 ts].
  - cbn [join]. destruct Ht as [Ht Hws].
    destruct (exists_last Ht) as (r & c & ->).
    apply Forall_app in Hws. destruct Hws as [_ Hc].
    apply Forall_cons_iff in Hc. exists c, r. split; [reflexivity | apply Hc].
  - destruct (IH ltac:(discriminate)) as (c & r & E & Hc).
    change (join (js " ") (t :: t2 :: ts))
      with (t ++ 32 :: join (js " ") (t2 :: ts)).
    rewrite E. exists c, (t ++ 32 :: r). split; [|exact Hc].
    rewrite <- app_assoc. reflexivity.
Qed.

Lemma trim_join (ts : list jsstring) :
  ts <> [] -> Forall token ts ->
  trim (join (js " ") ts) = join (js " ") ts.
Proof.
  intros Hne H.
  destruct (join_first ts Hne H) as (c & r & E & Hc).
  destruct (join_last ts Hne H) as (c' & r' & E' & Hc').
  unfold trim, trimEnd.
  rewrite E. cbn [trimStart]. rewrite Hc. rewrite <- E, E'.
  rewrite rev_app_distr. cbn [rev app trimStart]. rewrite Hc'.
  change (c' :: rev r') with (rev [c'] ++ rev r').
  rewrite <- rev_app_distr, rev_involutive. reflexivity.
Qed.

Lemma split_ws_trim_join (ts : list jsstring) :
  ts <> [] -> Forall token ts ->
  split_ws (trim (join (js " ") ts)) = ts.
Proof.
  intros Hne H. rewrite trim_join by assumption.
  apply split_ws_from_join; assumption.
Qed.

(** ** The hexadecimal tool: decoding what was encoded *)

Lemma lowerHex_hexClass (c : Z) :
  isLowerHex c = true ->
  union (range "0" "9") (union (range "a" "f") (range "A" "F")) c = true.
Proof.
  unfold isLowerHex, union, range.
  change (charCode "0") with 48. change (charCode "9") with 57.
  change (charCode "a") with 97. change (charCode "f") with 102.
  change (charCode "A") with 65. change (charCode "F") with 70.
  lia.
Qed.

(** The states of the matcher of [hexGroupsStar]: behind the first digit
    of a group, and behind the second. *)
Lemma hexGroups_first (h : Z) (r : re) :
  isLowerHex h = true ->
  (r = hexGroupsStar \/ r = hexGroupsPlus)
  \/ r = Seq (Star whitespace) hexGroupsStar ->
  deriv h r = Seq (Seq hexDigit (Star whitespace)) hexGroupsStar.
Proof.
  intros Hh Hr.
  pose proof (lowerHex_hexClass h Hh) as Hc.
  pose proof (lowerHex_not_ws h Hh) as Hw.
  destruct Hr as [[-> | ->] | ->];
    unfold hexGroupsPlus, plus, hexGroupsStar, hexGroup, hexDigit, whitespace;
    cbn [deriv nullable andb orb]; rewrite Hc, ?Hw; reflexivity.
Qed.

Lemma hexGroups_second (l : Z) :
  isLowerHex l = true ->
  deriv l (Seq (Seq hexDigit (Star whitespace)) hexGroupsStar)
  = Seq (Star whitespace) hexGroupsStar.
Proof.
  intros Hl. pose proof (lowerHex_hexClass l Hl) as Hc.
  unfold hexGroupsStar, hexGroup, hexDigit, whitespace.
  cbn [deriv nullable andb orb]. rewrite Hc. reflexivity.
Qed.

Lemma hexGroups_space :
  deriv 32 (Seq (Star whitespace) hexGroupsStar)
  = Seq (Star whitespace) hexGroupsStar.
Proof. reflexivity. Qed.

(** Groups joined by spaces: when the matcher is behind a group in the
    state [r1], whether it read the group from [r0] or from [r1], and a
    space leaves it in [r1], then it is in [r1] behind the whole list. *)
Lemma groups_accept (P : jsstring -> Prop) (r0 r1 : re) (ts : list jsstring) :
  (forall t r, P t -> r = r0 \/ r = r1 ->
     fold_left (fun r c => deriv c r) t r = r1) ->
  deriv 32 r1 = r1 ->
  ts <> [] -> Forall P ts ->
  forall r, r = r0 \/ r = r1 ->
    fold_left (fun r c => deriv c r) (join (js " ") ts) r = r1.
Proof.
  intros Hgroup Hspace Hne H.
  induction H as [|t ts Ht Hts IH]; [contradiction|].
  intros r Hr. destruct ts as [|t2 ts].
  - cbn [join]. apply Hgroup; assumption.
  - change (join (js " ") (t :: t2 :: ts))
      with (t ++ 32 :: join (js " ") (t2 :: ts)).
    rewrite fold_left_app, (Hgroup t r Ht Hr). cbn [fold_left].
    rewrite Hspace. apply IH; [discriminate | right; reflexivity].
Qed.

(** Groups of two digits joined by spaces pass the test of
    [validateInput], under a star, and the test of the detection, under a
    plus. *)
Lemma hexGroups_accept (r0 : re) (ts : list jsstring) :
  r0 = hexGroupsStar \/ r0 = hexGroupsPlus ->
  ts <> [] -> Forall hexDigits2 ts ->
  test_whole r0 (join (js " ") ts) = true.
Proof.
  intros Hr0 Hne H. unfold test_whole.
  rewrite (groups_accept hexDigits2 r0
             (Seq (Star whitespace) hexGroupsStar) ts);
    try assumption; try reflexivity; [|left; reflexivity].
  intros t r (h & l & -> & Hh & Hl) Hr. cbn [fold_left].
  rewrite (hexGroups_first h r Hh); [apply hexGroups_second, Hl|].
  destruct Hr as [-> | ->]; [left; exact Hr0 | right; reflexivity].
Qed.

Lemma join_groups_length (n : nat) (ts : list jsstring) :
  ts <> [] ->
  Forall (fun t => List.length t = n) ts ->
  length (join (js " ") ts)
  = (Z.of_nat n + 1) * Z.of_nat (List.length ts) - 1.
Proof.
  intros Hne H. unfold length.
  induction H as [|t ts Ht Hts IH]; [contradiction|].
  destruct ts as [|t2 ts].
  - cbn [join List.length]. rewrite Ht. lia.
  - change (join (js " ") (t :: t2 :: ts))
      with (t ++ 32 :: join (js " ") (t2 :: ts)).
    rewrite length_app. cbn [List.length] in *.
    rewrite Ht. specialize (IH ltac:(discriminate)). lia.
Qed.

(** ** The binary tool *)

(** Eight binary digits. *)
Lemma bin8_spec (b : Z) :
  byte b ->
  let t := padStart0 8 (numberToString 2 (Some b)) in
  binaryDigits8 t /\ parseInt t (Some 2) = Some b.
Proof.
  unfold byte. intros Hb.
  pose (f := fun b =>
    let t := padStart0 8 (numberToString 2 (Some b)) in
    (List.length t =? 8)%nat
    && forallb (fun c => (c =? 48) || (c =? 49)) t
    && match parseInt t (Some 2) with
       | Some v => v =? b
       | None => false
       end).
  assert (Hall : forallb f (zrange 256) = true) by (vm_compute; reflexivity).
  pose proof (forallb_zrange f 256 Hall b ltac:(lia)) as H.
  clear Hall. unfold f in H. clear f. cbv zeta in *.
  set (t := padStart0 8 _) in *. clearbody t.
  apply andb_true_iff in H. destruct H as [H H3].
  apply andb_true_iff in H. destruct H as [H1 H2].
  split; [split; [apply Nat.eqb_eq, H1|]|].
  - rewrite forallb_forall in H2. apply Forall_forall. intros c Hc.
    specialize (H2 c Hc). lia.
  - destruct (parseInt t (Some 2)) as [v|]; [|discriminate H3].
    apply Z.eqb_eq in H3. congruence.
Qed.

Lemma binaryDigits8_token (t : jsstring) : binaryDigits8 t -> token t.
Proof.
  intros [Hlen Hbits]. split.
  - intros ->. discriminate Hlen.
  - eapply Forall_impl; [|exact Hbits]. intros c [-> | ->]; reflexivity.
Qed.

Lemma binaryGroups_accept (ts : list jsstring) :
  ts <> [] -> Forall binaryDigits8 ts ->
  test_whole binaryGroupsStar (join (js " ") ts) = true.
Proof.
  intros Hne H. unfold test_whole.
  rewrite (groups_accept binaryDigits8 binaryGroupsStar
             (Seq (Star whitespace) binaryGroupsStar) ts);
    try assumption; try reflexivity; [|left; reflexivity].
  intros t r [Hlen Hbits] Hr.
  do 8 (destruct t as [|? t]; [discriminate Hlen|]).
  destruct t; [|discriminate Hlen]. clear Hlen.
  repeat match goal with
         | H : Forall _ (_ :: _) |- _ =>
             apply Forall_cons_iff in H; destruct H as [[-> | ->] H]
         end;
    destruct Hr as [-> | ->]; reflexivity.
Qed.

(** ** The tool of the character codes *)

(** The decimal numeral of a code unit. *)
Lemma decimal_spec (c : Z) :
  0 <= c < 65536 ->
  let t := numberToString 10 (Some c) in
  token t /\ parseInt t None = Some c.
Proof.
  intros Hc.
  pose (f := fun c =>
    let t := numberToString 10 (Some c) in
    negb (Nat.eqb (List.length t) 0)
    && forallb (fun d => (48 <=? d) && (d <=? 57)) t
    && match parseInt t None with
       | Some v => v =? c
       | None => false
       end).
  assert (Hall : forallb f (zrange (Z.to_nat 65536)) = true)
    by (vm_compute; reflexivity).
  pose proof (forallb_zrange f (Z.to_nat 65536) Hall c ltac:(lia)) as H.
  clear Hall. unfold f in H. clear f. cbv zeta in *.
  set (t := numberToString 10 _) in *. clearbody t.
  apply andb_true_iff in H. destruct H as [H H3].
  apply andb_true_iff in H. destruct H as [H1 H2].
  split; [split|].
  - intros ->. discriminate H1.
  - rewrite forallb_forall in H2. apply Forall_forall. intros d Hd.
    specialize (H2 d Hd). unfold isWhiteSpace. lia.
  - destruct (parseInt t None) as [v|]; [|discriminate H3].
    apply Z.eqb_eq in H3. congruence.
Qed.

Section Tools.

Variable host : Host.

Lemma hex2_groups (text : jsstring) :
  Forall byte text -> Forall hexDigits2 (map hex2 text).
Proof.
  intros H. apply Forall_map. eapply Forall_impl; [|exact H].
  intros b Hb. destruct (hex2_spec b Hb) as (h & l & E & Hh & Hl & _).
  exists h, l. split; [exact E|]. split; assumption.
Qed.

Lemma hexDigits2_token (t : jsstring) : hexDigits2 t -> token t.
Proof.
  intros (h & l & -> & Hh & Hl). split; [discriminate|].
  repeat constructor; apply lowerHex_not_ws; assumption.
Qed.

(** What the [hex] case of [encode] writes: two digits for each
    character, when all are below 256. *)
Lemma encode_hex_groups (text : jsstring) :
  Forall byte text -> encode_hex text = join (js " ") (map hex2 text).
Proof.
  intros H. unfold encode_hex.
  rewrite arrayFrom_units
    by (eapply Forall_impl; [|exact H];
        unfold byte, isHighSurrogate; intros; lia).
  rewrite map_map. reflexivity.
Qed.

Lemma parse_hex2 (text : jsstring) :
  Forall byte text ->
  map (fun hex => fromCharCode (parseInt hex (Some 16))) (map hex2 text)
  = text.
Proof.
  intros H. rewrite map_map. rewrite <- (map_id text) at 2.
  apply map_ext_in. intros b Hb.
  rewrite Forall_forall in H. specialize (H b Hb).
  destruct (hex2_spec b H) as (h & l & -> & _ & _ & ->).
  unfold fromCharCode, ToUint16, byte in *. apply Z.mod_small. lia.
Qed.

(** The [hex] case of the detection loop on groups of two digits. *)
Lemma decodeAs_hex_groups (ts : list jsstring) :
  ts <> [] -> Forall hexDigits2 ts ->
  Z.of_nat (List.length ts) <= 349525 ->
  decodeAs host hex (join (js " ") ts)
  = Some (map (fun hex => fromCharCode (parseInt hex (Some 16))) ts).
Proof.
  intros Hne Hts Hlen.
  assert (Htok : Forall token ts)
    by (eapply Forall_impl; [|exact Hts]; apply hexDigits2_token).
  unfold decodeAs, ErrorHandler.validateInput.
  rewrite (join_groups_length 2);
    [|exact Hne
     |eapply Forall_impl; [|exact Hts]; intros t (h & l & -> & _); reflexivity].
  destruct (Z.ltb_spec 1048576
              ((Z.of_nat 2 + 1) * Z.of_nat (List.length ts) - 1));
    [lia|].
  rewrite trim_join by assumption.
  rewrite (hexGroups_accept hexGroupsStar ts) by (tauto || assumption).
  unfold split_ws. rewrite split_ws_from_join by assumption.
  reflexivity.
Qed.

(** X24: the hexadecimal tool.  For a text that is not empty, of at most
    349525 characters, all below 256, the [hex] case of the detection loop
    gives back the text from what the [hex] case of [encode] made of it:
    the encoded text passes [validateInput], and each group of two digits
    is read back to its character. *)
Theorem decode_hex_encode_hex (input : jsstring) :
  input <> [] ->
  Forall byte input ->
  length input <= 349525 ->
  decodeAs host hex (encode_hex input) = Some input.
Proof.
  intros Hne Hbytes Hlen.
  rewrite (encode_hex_groups input Hbytes).
  rewrite decodeAs_hex_groups.
  - rewrite (parse_hex2 input Hbytes). reflexivity.
  - destruct input; [contradiction | discriminate].
  - apply hex2_groups, Hbytes.
  - rewrite length_map. exact Hlen.
Qed.

(** X30: from the encoding tool to the detection tool.  With detection
    switched on and a list of enabled types that names [hex] and does not
    name [base85], a scan of what the [hex] case of [encode] made of a text
    runs to its end and lists the text among its results, under the type
    name Hexadecimal. *)
Theorem encoded_hex_is_detected (settings : Settings) (text : jsstring) :
  autoDetect settings = true ->
  includes (enabledEncodings settings) (js "hex") = true ->
  includes (enabledEncodings settings) (js "base85") = false ->
  text <> [] ->
  Forall byte text ->
  length text <= 349525 ->
  exists s,
    detectAndDecode host settings (encode_hex text) = Scanned s
    /\ In {| result := text;
             type := js "Hexadecimal";
             confidence := calculateConfidence (encode_hex text) text hex;
             originalType := hex |}
          (results s).
Proof.
  intros Hauto Hhex Hno Hne Hbytes Hlen.
  rewrite (encode_hex_groups text Hbytes).
  set (ts := map hex2 text).
  assert (Hts : Forall hexDigits2 ts) by apply hex2_groups, Hbytes.
  assert (Htok : Forall token ts)
    by (eapply Forall_impl; [|exact Hts]; apply hexDigits2_token).
  assert (Hnil : ts <> [])
    by (subst ts; destruct text; [contradiction | discriminate]).
  assert (Hn : List.length ts = List.length text)
    by (subst ts; apply length_map).
  assert (Hsize : length (join (js " ") ts)
                  = 3 * Z.of_nat (List.length text) - 1).
  { rewrite (join_groups_length 2), Hn; [lia | exact Hnil|].
    eapply Forall_impl; [|exact Hts]. intros t (h & l & -> & _).
    reflexivity. }
  assert (Hdec : decodeAs host hex (join (js " ") ts) = Some text).
  { rewrite decodeAs_hex_groups; try assumption.
    - subst ts. rewrite (parse_hex2 text Hbytes). reflexivity.
    - rewrite Hn. exact Hlen. }
  assert (Hlist : (0 <? Z.of_nat (List.length (enabledEncodings settings)))
                  = true).
  { destruct (enabledEncodings settings); [discriminate Hhex | reflexivity]. }
  (* the test of base85 is not called *)
  assert (Hb85 : shouldAttemptDecoding (join (js " ") ts) base85 settings
                 = false).
  { unfold shouldAttemptDecoding. rewrite Hauto, Hlist.
    change (name base85) with (js "base85"). rewrite Hno. reflexivity. }
  destruct (detectionLoop_completes host settings (join (js " ") ts)
              encodingTests noScan) as [s Hs].
  { intros e He Hatt. apply (encodingTests_throw _ e He).
    intros Heq. rewrite Heq, Hb85 in Hatt. discriminate Hatt. }
  exists s. split.
  - unfold detectAndDecode.
    rewrite trim_join by assumption.
    destruct (join_first ts Hnil Htok) as (c & r & E & _).
    rewrite E at 1. cbn [nonEmpty negb].
    unfold ErrorHandler.validateInput. rewrite Hsize.
    unfold length in Hlen.
    destruct (Z.ltb_spec 1048576 (3 * Z.of_nat (List.length text) - 1));
      [lia|].
    cbn [negb]. exact Hs.
  - rewrite (scan_results _ _ _ _ _ _ Hs). cbn [results noScan app].
    apply in_map_iff.
    exists (hex, fun input => Some (test_whole hexGroupsPlus (trim input))).
    split.
    + unfold recordOf. cbn [fst]. rewrite Hdec. reflexivity.
    + apply filter_In. split.
      * cbn [encodingTests In]. do 4 right. left. reflexivity.
      * unfold accepts. cbn [fst snd]. rewrite Hdec.
        unfold shouldAttemptDecoding. rewrite Hauto, Hlist.
        change (name hex) with (js "hex"). rewrite Hhex.
        cbn [negb andb]. cbv zeta.
        rewrite trim_join by assumption.
        rewrite (hexGroups_accept hexGroupsPlus ts) by (tauto || assumption).
        cbn [andb].
        destruct text as [|b text']; [contradiction|]. cbn [nonEmpty andb].
        destruct (str_eqb (b :: text') (join (js " ") ts)) eqn:Eq;
          [|reflexivity].
        apply str_eqb_eq in Eq. exfalso.
        apply (f_equal length) in Eq. rewrite Hsize in Eq.
        unfold length in Eq. lia.
Qed.

(** X25: the binary tool.  For a text that is not empty, of at most
    116508 characters, all below 256, the [binary] case of the detection
    loop gives back the text from what the [binary] case of [encode] made
    of it. *)
Theorem decode_binary_encode_binary (input : jsstring) :
  input <> [] ->
  Forall byte input ->
  length input <= 116508 ->
  decodeAs host binary (encode_binary input) = Some input.
Proof.
  intros Hne Hbytes Hlen.
  unfold encode_binary.
  rewrite arrayFrom_units
    by (eapply Forall_impl; [|exact Hbytes];
        unfold byte, isHighSurrogate; intros; lia).
  rewrite map_map. cbn [charCodeAt0].
  set (bin8 := fun x => padStart0 8 (numberToString 2 (Some x))).
  set (ts := map bin8 input).
  assert (Hts : Forall binaryDigits8 ts).
  { subst ts. apply Forall_map. eapply Forall_impl; [|exact Hbytes].
    intros b Hb. apply (bin8_spec b Hb). }
  assert (Htok : Forall token ts).
  { eapply Forall_impl; [|exact Hts]. apply binaryDigits8_token. }
  assert (Hnil : ts <> []).
  { subst ts. destruct input; [contradiction | discriminate]. }
  unfold decodeAs, ErrorHandler.validateInput.
  rewrite (join_groups_length 8);
    [|exact Hnil
     |eapply Forall_impl; [|exact Hts]; intros t [Ht _]; exact Ht].
  assert (Hn : List.length ts = List.length input)
    by (subst ts; apply length_map).
  rewrite Hn. unfold length in Hlen.
  destruct (Z.ltb_spec 1048576
              ((Z.of_nat 8 + 1) * Z.of_nat (List.length input) - 1));
    [lia|].
  rewrite trim_join by assumption.
  rewrite (binaryGroups_accept ts Hnil Hts). unfold split_ws.
  rewrite split_ws_from_join by assumption.
  f_equal. subst ts. rewrite map_map.
  rewrite <- (map_id input) at 2.
  apply map_ext_in. intros b Hb.
  rewrite Forall_forall in Hbytes. specialize (Hbytes b Hb).
  destruct (bin8_spec b Hbytes) as (_ & Hp).
  fold (bin8 b) in Hp. rewrite Hp.
  unfold fromCharCode, ToUint16, byte in *. apply Z.mod_small. lia.
Qed.

(** X26: the tool of the character codes.  For a text that is not empty
    and has no high surrogate, the [ascii] case of the detection loop gives
    back the text from what the [ascii] case of [encode] made of it. *)
Theorem decode_ascii_encode_ascii (input : jsstring) :
  input <> [] ->
  Forall (fun c => 0 <= c < 65536 /\ isHighSurrogate c = false) input ->
  decodeAs host ascii (encode_ascii input) = Some input.
Proof.
  intros Hne Hunits.
  unfold encode_ascii.
  rewrite arrayFrom_units
    by (eapply Forall_impl; [|exact Hunits]; intros c Hc; apply Hc).
  rewrite map_map. cbn [charCodeAt0].
  set (ts := map _ input).
  assert (Htok : Forall token ts).
  { subst ts. apply Forall_map. eapply Forall_impl; [|exact Hunits].
    intros c [Hc _]. apply (decimal_spec c Hc). }
  assert (Hnil : ts <> []).
  { subst ts. destruct input; [contradiction | discriminate]. }
  unfold decodeAs.
  rewrite split_ws_trim_join by assumption.
  f_equal. subst ts. rewrite map_map.
  rewrite <- (map_id input) at 2.
  apply map_ext_in. intros c Hc.
  rewrite Forall_forall in Hunits. destruct (Hunits c Hc) as [Hr _].
  destruct (decimal_spec c Hr) as (_ & Hp). cbv zeta in Hp. rewrite Hp.
  unfold fromCharCode, ToUint16. apply Z.mod_small. lia.
Qed.

End Tools.

Lemma decode_hex_encode_hex_witness :
  js "Hi!" <> [] /\ Forall byte (js "Hi!") /\ length (js "Hi!") <= 349525
  /\ decodeAs failingHost hex (encode_hex (js "Hi!")) = Some (js "Hi!").
Proof.
  assert (H1 : js "Hi!" <> []) by discriminate.
  assert (H2 : Forall byte (js "Hi!"))
    by (repeat constructor; discriminate).
  assert (H3 : length (js "Hi!") <= 349525) by discriminate.
  split; [exact H1|]. split; [exact H2|]. split; [exact H3|].
  apply (decode_hex_encode_hex failingHost (js "Hi!") H1 H2 H3).
Defined.

Lemma decode_binary_encode_binary_witness :
  js "Hi!" <> [] /\ Forall byte (js "Hi!") /\ length (js "Hi!") <= 116508
  /\ decodeAs failingHost binary (encode_binary (js "Hi!")) = Some (js "Hi!").
Proof.
  assert (H1 : js "Hi!" <> []) by discriminate.
  assert (H2 : Forall byte (js "Hi!"))
    by (repeat constructor; discriminate).
  assert (H3 : length (js "Hi!") <= 116508) by discriminate.
  split; [exact H1|]. split; [exact H2|]. split; [exact H3|].
  apply (decode_binary_encode_binary failingHost (js "Hi!") H1 H2 H3).
Defined.

Lemma decode_ascii_encode_ascii_witness :
  js "Hi!" <> []
  /\ Forall (fun c => 0 <= c < 65536 /\ isHighSurrogate c = false) (js "Hi!")
  /\ decodeAs failingHost ascii (encode_ascii (js "Hi!")) = Some (js "Hi!").
Proof.
  assert (H1 : js "Hi!" <> []) by discriminate.
  assert (H2 : Forall (fun c => 0 <= c < 65536
                                /\ isHighSurrogate c = false) (js "Hi!")).
  { repeat constructor; discriminate. }
  split; [exact H1|]. split; [exact H2|].
  apply (decode_ascii_encode_ascii failingHost (js "Hi!") H1 H2).
Defined.

Lemma encoded_hex_is_detected_witness :
  autoDetect (enabling [js "hex"; js "rot13"]) = true
  /\ includes (enabledEncodings (enabling [js "hex"; js "rot13"])) (js "hex")
     = true
  /\ includes (enabledEncodings (enabling [js "hex"; js "rot13"]))
              (js "base85") = false
  /\ js "Hi!" <> [] /\ Forall byte (js "Hi!")
  /\ length (js "Hi!") <= 349525
  /\ exists s,
       detectAndDecode failingHost (enabling [js "hex"; js "rot13"])
                       (encode_hex (js "Hi!"))
       = Scanned s
       /\ In {| result := js "Hi!";
                type := js "Hexadecimal";
                confidence :=
                  calculateConfidence (encode_hex (js "Hi!")) (js "Hi!") hex;
                originalType := hex |}
             (results s).
Proof.
  assert (H1 : autoDetect (enabling [js "hex"; js "rot13"]) = true)
    by reflexivity.
  assert (H2 : includes (enabledEncodings (enabling [js "hex"; js "rot13"]))
                        (js "hex") = true) by reflexivity.
  assert (H2' : includes (enabledEncodings (enabling [js "hex"; js "rot13"]))
                         (js "base85") = false) by reflexivity.
  assert (H3 : js "Hi!" <> []) by discriminate.
  assert (H4 : Forall byte (js "Hi!"))
    by (repeat constructor; discriminate).
  assert (H5 : length (js "Hi!") <= 349525) by discriminate.
  split; [exact H1|]. split; [exact H2|]. split; [exact H2'|].
  split; [exact H3|]. split; [exact H4|]. split; [exact H5|].
  exact (encoded_hex_is_detected failingHost (enabling [js "hex"; js "rot13"])
           (js "Hi!") H1 H2 H2' H3 H4 H5).
Defined.


(** ** Base85: decoding what was encoded *)

Lemma shl_small (x n : Z) :
  0 <= n < 32 -> 0 <= x -> x * 2 ^ n < 2147483648 -> shl x n = x * 2 ^ n.
Proof.
  intros Hn Hx Hlt. unfold shl.
  assert (Hp : 0 < 2 ^ n) by (apply Z.pow_pos_nonneg; lia).
  rewrite (Z.mod_small n 32) by lia.
  rewrite (ToInt32_small x) by nia.
  rewrite Z.shiftl_mul_pow2 by lia.
  apply ToInt32_small. nia.
Qed.

Lemma bor_add (x y k : Z) :
  0 <= k -> -2147483648 <= x < 2147483648 -> x mod 2 ^ k = 0 ->
  0 <= y < 2 ^ k -> y < 2147483648 -> bor x y = x + y.
Proof.
  intros Hk Hx Hmod Hy Hy'. unfold bor.
  rewrite (ToInt32_small x), (ToInt32_small y) by lia.
  apply (lor_low x y k); assumption.
Qed.

(** The value of a chunk of four characters below 128. *)
Lemma chunk_value_ascii (a b c d : Z) :
  0 <= a < 128 -> 0 <= b < 128 -> 0 <= c < 128 -> 0 <= d < 128 ->
  bor (bor (bor (shl a 24) (shl b 16)) (shl c 8)) d
  = a * 16777216 + b * 65536 + c * 256 + d.
Proof.
  intros Ha Hb Hc Hd.
  rewrite (shl_small a 24), (shl_small b 16), (shl_small c 8) by lia.
  change (2 ^ 24) with 16777216. change (2 ^ 16) with 65536.
  change (2 ^ 8) with 256.
  rewrite (bor_add (a * 16777216) (b * 65536) 24);
    [|lia|lia|apply Z_mod_mult|change (2 ^ 24) with 16777216; lia|lia].
  rewrite (bor_add (_ + _) (c * 256) 16);
    [|lia|lia
     |change (2 ^ 16) with 65536; Z.div_mod_to_equations; lia
     |change (2 ^ 16) with 65536; lia|lia].
  apply (bor_add _ d 8);
    [lia|lia
    |change (2 ^ 8) with 256; Z.div_mod_to_equations; lia
    |change (2 ^ 8) with 256; lia|lia].
Qed.

(** The alphabet: the symbol of a digit is one character and [indexOf]
    finds the digit back; a digit up to 41 is not written [z]. *)
Lemma base85_symbol (i : Z) :
  0 <= i < 85 ->
  exists ch, charAt base85Alphabet i = [ch]
    /\ indexOf base85Alphabet [ch] = Some i
    /\ (i <= 41 -> ch <> 122).
Proof.
  intros Hi.
  pose (f := fun i =>
    match aget base85Alphabet i with
    | Some ch =>
        match indexOf base85Alphabet [ch] with
        | Some j => (j =? i) && ((41 <? i) || negb (ch =? 122))
        | None => false
        end
    | None => false
    end).
  assert (Hall : forallb f (zrange 85) = true) by (vm_compute; reflexivity).
  pose proof (forallb_zrange f 85 Hall i Hi) as H.
  clear Hall. unfold f, charAt in *. clear f.
  destruct (aget base85Alphabet i) as [ch|]; [|discriminate H].
  exists ch. split; [reflexivity|].
  destruct (indexOf base85Alphabet [ch]) as [j|]; [|discriminate H].
  apply andb_true_iff in H. destruct H as [H1 H2].
  apply Z.eqb_eq in H1. subst j. split; [reflexivity|].
  intros Hle ->. destruct (Z.ltb_spec 41 i); [lia | discriminate H2].
Qed.

(** One chunk: four characters give five symbols, and the decoder reads
    the four characters back from them. *)
Lemma base85_chunk (a b c d : Z) (n : nat) (rest : jsstring) :
  1 <= a < 128 -> 0 <= b < 128 -> 0 <= c < 128 -> 0 <= d < 128 ->
  exists e4 e3 e2 e1 e0,
    encodeBase85_chunk [a; b; c; d] = [e4; e3; e2; e1; e0]
    /\ decodeBase85_loop (S n) (e4 :: e3 :: e2 :: e1 :: e0 :: rest)
       = match decodeBase85_loop n rest with
         | Some out => Some (a :: b :: c :: d :: out)
         | None => None
         end.
Proof.
  intros Ha Hb Hc Hd.
  unfold encodeBase85_chunk. cbn [List.length Nat.sub repeat app nth].
  rewrite chunk_value_ascii by lia.
  set (v := a * 16777216 + b * 65536 + c * 256 + d).
  assert (Hv : 16777216 <= v < 2147483648) by (subst v; lia).
  destruct (Z.eqb_spec v 0) as [|_]; [lia|]. cbn [andb].
  cbn [encodeBase85_digits].
  rewrite !Z.rem_mod_nonneg by (try apply Z.div_pos; lia || (repeat apply Z.div_pos; lia)).
  rewrite !Z.div_div by lia.
  change (85 * 85) with 7225. change (85 * 7225) with 614125.
  change (85 * 614125) with 52200625.
  assert (H0 : 0 <= v mod 85 < 85) by (apply Z.mod_pos_bound; lia).
  assert (H1 : 0 <= (v / 85) mod 85 < 85) by (apply Z.mod_pos_bound; lia).
  assert (H2 : 0 <= (v / 7225) mod 85 < 85) by (apply Z.mod_pos_bound; lia).
  assert (H3 : 0 <= (v / 614125) mod 85 < 85)
    by (apply Z.mod_pos_bound; lia).
  assert (H4 : 0 <= (v / 52200625) mod 85 <= 41).
  { clear - Hv. Z.div_mod_to_equations. lia. }
  destruct (base85_symbol _ H0) as (e0 & -> & I0 & _).
  destruct (base85_symbol _ H1) as (e1 & -> & I1 & _).
  destruct (base85_symbol _ H2) as (e2 & -> & I2 & _).
  destruct (base85_symbol _ H3) as (e3 & -> & I3 & _).
  destruct (base85_symbol ((v / 52200625) mod 85) ltac:(lia))
    as (e4 & -> & I4 & Hz).
  exists e4, e3, e2, e1, e0. split; [reflexivity|].
  cbn [decodeBase85_loop].
  change (charCode "z") with 122.
  destruct (Z.eqb_spec e4 122) as [E|_]; [exact (match Hz (proj2 H4) E with end)|].
  cbn [firstn fold_left skipn]. rewrite I4, I3, I2, I1, I0.
  set (w := ((((0 * 85 + _) * 85 + _) * 85 + _) * 85 + _) * 85 + _).
  assert (Hw : w = v).
  { subst w. clear - Hv. Z.div_mod_to_equations. lia. }
  rewrite Hw.
  assert (Hbytes : chunkBytes v = [a; b; c; d]).
  { unfold chunkBytes. cbn [map]. rewrite !band_255. unfold sar.
    rewrite (ToInt32_small v) by lia.
    rewrite !Z.shiftr_div_pow2 by (vm_compute; discriminate).
    change (2 ^ (3 * 8 mod 32)) with 16777216.
    change (2 ^ (2 * 8 mod 32)) with 65536.
    change (2 ^ (1 * 8 mod 32)) with 256.
    change (2 ^ (0 * 8 mod 32)) with 1.
    subst v. clear - Ha Hb Hc Hd.
    repeat f_equal; Z.div_mod_to_equations; lia. }
  rewrite Hbytes. cbn [List.length Nat.sub firstn map].
  unfold fromCharCode, ToUint16.
  rewrite !Z.mod_small by lia.
  destruct (decodeBase85_loop n rest); reflexivity.
Qed.

Lemma TextEncoder_encode_ascii (s : jsstring) :
  Forall (fun c => 1 <= c < 128) s -> TextEncoder_encode s = s.
Proof.
  unfold TextEncoder_encode.
  induction 1 as [|c r Hc Hr IH]; [reflexivity|].
  cbn [scalarValues].
  unfold isHighSurrogate, isLowSurrogate.
  destruct (Z.leb_spec 55296 c); [lia|].
  destruct (Z.leb_spec 56320 c); [lia|].
  cbn [andb flat_map]. rewrite IH. unfold encodeCodePoint.
  destruct (Z.ltb_spec c 128); [reflexivity | lia].
Qed.

(** Texts of [k] chunks of four characters. *)
Lemma base85_chunks (k : nat) :
  forall (input : jsstring) (fe fd : nat),
    List.length input = (4 * k)%nat -> (k <= fe)%nat -> (k <= fd)%nat ->
    Forall (fun c => 1 <= c < 128) input ->
    decodeBase85_loop fd (encodeBase85_loop fe input) = Some input
    /\ List.length (encodeBase85_loop fe input) = (5 * k)%nat.
Proof.
  induction k as [|k IH]; intros input fe fd Hlen Hfe Hfd Hchars.
  - destruct input; [|discriminate Hlen].
    destruct fe, fd; split; reflexivity.
  - destruct input as [|a [|b [|c [|d rest]]]]; try (cbn in Hlen; lia).
    destruct fe as [|fe]; [lia|]. destruct fd as [|fd]; [lia|].
    apply Forall_cons_iff in Hchars. destruct Hchars as [Ha Hchars].
    apply Forall_cons_iff in Hchars. destruct Hchars as [Hb Hchars].
    apply Forall_cons_iff in Hchars. destruct Hchars as [Hc Hchars].
    apply Forall_cons_iff in Hchars. destruct Hchars as [Hd Hchars].
    cbn [encodeBase85_loop firstn skipn].
    destruct (IH rest fe fd) as [IHdec IHlen];
      [cbn [List.length] in Hlen; lia | lia | lia | exact Hchars |].
    destruct (base85_chunk a b c d fd (encodeBase85_loop fe rest))
      as (e4 & e3 & e2 & e1 & e0 & -> & Hdec); try lia.
    split.
    + cbn [app]. rewrite Hdec, IHdec. reflexivity.
    + cbn [app List.length]. rewrite IHlen. lia.
Qed.

(** X27: Base85 round trip.  For a text of characters from 1 to 127 whose
    length is a multiple of four, [decodeBase85] gives back what
    [encodeBase85] was given. *)
Theorem decodeBase85_encodeBase85 (input : jsstring) :
  Forall (fun c => 1 <= c < 128) input ->
  (exists k, List.length input = 4 * k)%nat ->
  decodeBase85 (encodeBase85 input) = Some input.
Proof.
  intros Hchars [k Hk].
  unfold decodeBase85, encodeBase85.
  rewrite TextEncoder_encode_ascii by exact Hchars.
  destruct (base85_chunks k input (List.length input) (5 * k) Hk
              ltac:(lia) ltac:(lia) Hchars) as [Hdec Hlen].
  rewrite Hlen. exact Hdec.
Qed.

Lemma decodeBase85_encodeBase85_witness :
  Forall (fun c => 1 <= c < 128) (js "Hello!!!")
  /\ (exists k, List.length (js "Hello!!!") = 4 * k)%nat
  /\ decodeBase85 (encodeBase85 (js "Hello!!!")) = Some (js "Hello!!!").
Proof.
  assert (H1 : Forall (fun c => 1 <= c < 128) (js "Hello!!!")).
  { repeat constructor; discriminate. }
  assert (H2 : (exists k, List.length (js "Hello!!!") = 4 * k)%nat).
  { exists 2%nat. reflexivity. }
  split; [exact H1|]. split; [exact H2|].
  apply (decodeBase85_encodeBase85 (js "Hello!!!") H1 H2).
Defined.


(** ** The escaping of HTML *)

Lemma htmlEntity_cases (c : Z) :
  (htmlEntity c = None /\ c <> 60 /\ c <> 62 /\ c <> 38 /\ c <> 34 /\ c <> 39)
  \/ (c = 60 /\ htmlEntity c = Some [38; 108; 116; 59])
  \/ (c = 62 /\ htmlEntity c = Some [38; 103; 116; 59])
  \/ (c = 38 /\ htmlEntity c = Some [38; 97; 109; 112; 59])
  \/ (c = 34 /\ htmlEntity c = Some [38; 113; 117; 111; 116; 59])
  \/ (c = 39 /\ htmlEntity c = Some [38; 35; 51; 57; 59]).
Proof.
  unfold htmlEntity.
  destruct (Z.eqb_spec c 60) as [->|]; [tauto|].
  destruct (Z.eqb_spec c 62) as [->|]; [tauto|].
  destruct (Z.eqb_spec c 38) as [->|]; [tauto|].
  destruct (Z.eqb_spec c 34) as [->|]; [tauto|].
  destruct (Z.eqb_spec c 39) as [->|]; [tauto|].
  left. tauto.
Qed.

(** X28: what the [html] case of [encode] writes contains none of the
    characters [<], [>], double quote and single quote, and it keeps texts
    apart: two texts with the same escaped form are the same text. *)
Theorem encode_html_injective (s1 s2 : jsstring) :
  Forall (fun c => c <> 60 /\ c <> 62 /\ c <> 34 /\ c <> 39) (encode_html s1)
  /\ (encode_html s1 = encode_html s2 -> s1 = s2).
Proof.
  split.
  - unfold encode_html. induction s1 as [|c s1 IH]; [constructor|].
    cbn [flat_map]. apply Forall_app. split; [|exact IH].
    destruct (htmlEntity_cases c)
      as [(-> & H)|[(_ & ->)|[(_ & ->)|[(_ & ->)|[(_ & ->)|(_ & ->)]]]]];
      [constructor; [tauto | constructor] | ..];
      repeat constructor; discriminate.
  - revert s2. unfold encode_html.
    induction s1 as [|c1 s1 IH]; intros [|c2 s2]; cbn [flat_map].
    + reflexivity.
    + destruct (htmlEntity_cases c2)
        as [(-> & _)|[(_ & ->)|[(_ & ->)|[(_ & ->)|[(_ & ->)|(_ & ->)]]]]];
        discriminate.
    + destruct (htmlEntity_cases c1)
        as [(-> & _)|[(_ & ->)|[(_ & ->)|[(_ & ->)|[(_ & ->)|(_ & ->)]]]]];
        discriminate.
    + destruct (htmlEntity_cases c1)
        as [(-> & H1)|[(-> & ->)|[(-> & ->)|[(-> & ->)|[(-> & ->)|(-> & ->)]]]]];
      destruct (htmlEntity_cases c2)
        as [(-> & H2)|[(-> & ->)|[(-> & ->)|[(-> & ->)|[(-> & ->)|(-> & ->)]]]]];
      cbn [app]; intros E;
      first
        [ discriminate E
        | exfalso; injection E; intros; lia
        | injection E; intros; subst; f_equal; apply IH; assumption ].
Qed.

Lemma encode_html_injective_witness :
  encode_html (js "a<b") = encode_html (js "a<b") /\ js "a<b" = js "a<b".
Proof.
  assert (H : encode_html (js "a<b") = encode_html (js "a<b"))
    by reflexivity.
  split; [exact H|].
  exact (proj2 (encode_html_injective (js "a<b") (js "a<b")) H).
Defined.


(** ** Morse code: decoding what was encoded *)

Lemma split_on_prefix (sep : Z) (p x : jsstring) :
  ~ In sep p ->
  split_on sep (p ++ x)
  = match split_on sep x with
    | h :: t => (p ++ h) :: t
    | [] => [p]
    end.
Proof.
  induction p as [|c p IH]; intros H.
  - cbn [app]. pose proof (split_on_length sep x) as L.
    destruct (split_on sep x); [discriminate L | reflexivity].
  - cbn [app split_on].
    destruct (Z.eqb_spec c sep) as [->|Hc];
      [exfalso; apply H; left; reflexivity|].
    rewrite IH by (intros Hin; apply H; right; exact Hin).
    destruct (split_on sep x); reflexivity.
Qed.

Lemma split_on_join (ts : list jsstring) :
  ts <> [] -> Forall (fun t => ~ In 32 t) ts ->
  split_on 32 (join (js " ") ts) = ts.
Proof.
  intros Hne H. induction H as [|t ts Ht Hts IH]; [contradiction|].
  destruct ts as [|t2 ts].
  - cbn [join]. apply split_on_no_sep, Ht.
  - change (join (js " ") (t :: t2 :: ts))
      with (t ++ 32 :: join (js " ") (t2 :: ts)).
    rewrite split_on_app by exact Ht. rewrite IH by discriminate.
    reflexivity.
Qed.

Lemma join_split_on (s : jsstring) :
  join (js " ") (split_on 32 s) = s.
Proof.
  induction s as [|c s IH]; [reflexivity|].
  cbn [split_on]. destruct (Z.eqb_spec c 32) as [->|Hc].
  - pose proof (split_on_length 32 s) as L.
    destruct (split_on 32 s) as [|p ps]; [discriminate L|].
    change (join (js " ") ([] :: p :: ps)) with (32 :: join (js " ") (p :: ps)).
    rewrite IH. reflexivity.
  - pose proof (split_on_length 32 s) as L.
    destruct (split_on 32 s) as [|p ps]; [discriminate L|].
    destruct ps as [|q ps].
    + cbn [join] in *. rewrite IH. reflexivity.
    + change (join (js " ") ((c :: p) :: q :: ps))
        with (c :: (p ++ 32 :: join (js " ") (q :: ps))).
      change (join (js " ") (p :: q :: ps))
        with (p ++ 32 :: join (js " ") (q :: ps)) in IH.
      rewrite IH. reflexivity.
Qed.

Lemma split_on_words (P : Z -> Prop) (s : jsstring) :
  Forall (fun c => P c \/ c = 32) s ->
  Forall (Forall P) (split_on 32 s).
Proof.
  induction 1 as [|c s Hc Hs IH]; [repeat constructor|].
  cbn [split_on]. destruct (Z.eqb_spec c 32) as [->|Hne].
  - constructor; [constructor | exact IH].
  - destruct Hc as [Hc|Hc]; [|contradiction].
    destruct (split_on 32 s) as [|p ps]; [repeat constructor; exact Hc|].
    apply Forall_cons_iff in IH. destruct IH as [Hp Hps].
    constructor; [constructor; assumption | exact Hps].
Qed.

Section MorseRoundTrip.

Variable host : Host.

(** The code of a letter or digit: dots and dashes that [morseToChar]
    maps back; [toUpperCase] leaves the character. *)
Lemma morseOf_letter (c : Z) :
  morseLetter c = true ->
  token (morseOf [c])
  /\ ~ In 32 (morseOf [c]) /\ ~ In 47 (morseOf [c])
  /\ lookupOrEmpty morseToChar (morseOf [c]) = [c]
  /\ toUpperCase host c = [c].
Proof.
  intros Hc.
  assert (Hr : 0 <= c < Z.of_nat 128) by (unfold morseLetter in Hc; lia).
  pose (f := fun c =>
    negb (morseLetter c)
    || (let m := morseOf [c] in
        negb (Nat.eqb (List.length m) 0)
        && forallb (fun d => (d =? 45) || (d =? 46)) m
        && str_eqb (lookupOrEmpty morseToChar m) [c]
        && str_eqb (toUpperCase host c) [c])).
  assert (Hall : forallb f (zrange 128) = true) by (vm_compute; reflexivity).
  pose proof (forallb_zrange f 128 Hall c Hr) as H.
  clear Hall. unfold f in H. clear f. rewrite Hc in H.
  cbn [negb orb] in H. cbv zeta in H.
  set (m := morseOf [c]) in *. clearbody m.
  apply andb_true_iff in H. destruct H as [H H4].
  apply andb_true_iff in H. destruct H as [H H3].
  apply andb_true_iff in H. destruct H as [H1 H2].
  rewrite forallb_forall in H2.
  split; [split|]; [| |split; [|split; [|split]]].
  - intros ->. discriminate H1.
  - apply Forall_forall. intros d Hd. specialize (H2 d Hd).
    unfold isWhiteSpace. lia.
  - intros Hd. specialize (H2 _ Hd). discriminate H2.
  - intros Hd. specialize (H2 _ Hd). discriminate H2.
  - apply str_eqb_eq, H3.
  - apply str_eqb_eq, H4.
Qed.

Lemma codes_tokens (w : jsstring) :
  morseWord w -> Forall token (map (fun c => morseOf [c]) w).
Proof.
  intros H. apply Forall_map. eapply Forall_impl; [|exact H].
  intros c Hc. apply (morseOf_letter c Hc).
Qed.

Lemma trim_codes (w pad : jsstring) :
  morseWord w -> pad = [] \/ pad = [32] ->
  trim (morseCodes w ++ pad) = morseCodes w.
Proof.
  intros Hw Hpad. destruct w as [|c w].
  - destruct Hpad as [-> | ->]; reflexivity.
  - assert (Hne : map (fun c => morseOf [c]) (c :: w) <> []) by discriminate.
    pose proof (codes_tokens _ Hw) as Htok.
    destruct Hpad as [-> | ->].
    + rewrite app_nil_r. apply trim_join; assumption.
    + destruct (join_first _ Hne Htok) as (x & r & E & Hx).
      destruct (join_last _ Hne Htok) as (y & r' & E' & Hy).
      unfold morseCodes, trim, trimEnd.
      rewrite E. cbn [app trimStart]. rewrite Hx.
      change (x :: r ++ [32]) with ((x :: r) ++ [32]).
      rewrite <- E, rev_app_distr. cbn [rev app trimStart].
      change (isWhiteSpace 32) with true. cbv iota.
      rewrite E', rev_app_distr. cbn [rev app trimStart]. rewrite Hy.
      change (y :: rev r') with (rev [y] ++ rev r').
      rewrite <- rev_app_distr, rev_involutive. reflexivity.
Qed.

Lemma join_lookup (w : jsstring) :
  morseWord w ->
  join [] (map (fun x => lookupOrEmpty morseToChar (morseOf [x])) w) = w.
Proof.
  induction 1 as [|d w Hd Hw IH]; [reflexivity|].
  cbn [map]. destruct (morseOf_letter d Hd) as (_ & _ & _ & -> & _).
  destruct w as [|e w]; [reflexivity|].
  change (join [] ([d] :: ?x)) with (d :: join [] x).
  rewrite IH. reflexivity.
Qed.

(** What [decodeMorse] makes of one part between two slashes. *)
Lemma decode_word (s w : jsstring) :
  morseWord w -> trim s = morseCodes w ->
  join [] (map (lookupOrEmpty morseToChar) (split_on 32 (trim s))) = w.
Proof.
  intros Hw ->. destruct w as [|c w]; [reflexivity|].
  unfold morseCodes. rewrite split_on_join; [|discriminate|].
  - rewrite map_map. apply join_lookup, Hw.
  - apply Forall_map. eapply Forall_impl; [|exact Hw].
    intros d Hd. apply (morseOf_letter d Hd).
Qed.

Lemma morseOf_token (c : Z) :
  morseLetter c = true \/ c = 32 -> token (morseOf [c]).
Proof.
  intros [Hc | ->]; [apply (morseOf_letter c Hc)|].
  split; [discriminate | repeat constructor].
Qed.

(** The parts of the encoded text between the slashes, beside the words of
    the text between the spaces: the first part is the codes of the first
    word, with a space behind them when a slash follows; every other part
    is, once trimmed, the codes of its word. *)
Lemma morse_parts (text : jsstring) :
  Forall (fun c => morseLetter c = true \/ c = 32) text ->
  exists s1 ss w1 ws pad,
    split_on 47 (morseCodes text) = s1 :: ss
    /\ split_on 32 text = w1 :: ws
    /\ s1 = morseCodes w1 ++ pad
    /\ (pad = [] \/ (pad = [32] /\ w1 <> []))
    /\ Forall2 (fun s w => trim s = morseCodes w) ss ws.
Proof.
  intros Htext.
  pose proof (split_on_words _ text Htext) as Hwords.
  induction Htext as [|c rest Hc Hrest IH].
  - exists [], [], [], [], []. repeat split; try reflexivity.
    + left. reflexivity.
    + constructor.
  - cbn [split_on] in Hwords |- *.
    specialize (IH (split_on_words _ rest Hrest)).
    destruct IH as (s1 & ss & w1 & ws & pad & Hs & Hw & -> & Hpad & Hrel).
    pose proof (split_on_words _ rest Hrest) as Hws. rewrite Hw in Hws.
    apply Forall_cons_iff in Hws. destruct Hws as [Hw1 _].
    rewrite Hw.
    destruct rest as [|c2 rest'].
    + (* the last character *)
      cbn in Hw. injection Hw as <- <-.
      cbn in Hs. injection Hs as Hs <-.
      destruct (Z.eqb_spec c 32) as [->|Hne].
      * exists [], [[]], [], [[]], []. repeat split; try reflexivity.
        -- left. reflexivity.
        -- constructor; [reflexivity | constructor].
      * destruct Hc as [Hc|Hc]; [|contradiction].
        destruct (morseOf_letter c Hc) as (_ & _ & H47 & _).
        exists (morseOf [c]), [], [c], [], [].
        split; [apply split_on_no_sep, H47|].
        split; [reflexivity|]. split; [symmetry; apply app_nil_r|].
        split; [left; reflexivity | constructor].
    + change (morseCodes (c :: c2 :: rest'))
        with (morseOf [c] ++ 32 :: morseCodes (c2 :: rest')).
      destruct (Z.eqb_spec c 32) as [->|Hne].
      * change (morseOf [32]) with [47]. cbn [app split_on].
        change (47 =? 47) with true. change (32 =? 47) with false.
        cbv iota. rewrite Hs.
        exists [], ((32 :: morseCodes w1 ++ pad) :: ss), [], (w1 :: ws), [].
        split; [reflexivity|]. split; [reflexivity|].
        split; [reflexivity|]. split; [left; reflexivity|].
        constructor; [|exact Hrel].
        change (trim (32 :: ?x)) with (trim x).
        apply trim_codes; [exact Hw1 | tauto].
      * destruct Hc as [Hc|Hc]; [|contradiction].
        destruct (morseOf_letter c Hc) as (_ & H32 & H47 & _).
        change (morseOf [c] ++ 32 :: morseCodes (c2 :: rest'))
          with (morseOf [c] ++ [32] ++ morseCodes (c2 :: rest')).
        rewrite app_assoc, split_on_prefix, Hs.
        2:{ intros Hin. apply in_app_or in Hin.
            destruct Hin as [Hin | [Hin | []]];
              [exact (H47 Hin) | discriminate Hin]. }
        destruct w1 as [|d w1].
        -- destruct Hpad as [-> | [_ Hn]]; [|contradiction].
           exists ((morseOf [c] ++ [32]) ++ morseCodes []), ss, [c], ws, [32].
           split; [reflexivity|]. split; [reflexivity|].
           split; [cbn; rewrite app_nil_r; reflexivity|].
           split; [right; split; [reflexivity | discriminate] | exact Hrel].
        -- exists ((morseOf [c] ++ [32]) ++ morseCodes (d :: w1) ++ pad),
             ss, (c :: d :: w1), ws, pad.
           split; [reflexivity|]. split; [reflexivity|].
           split.
           { change (morseCodes (c :: d :: w1))
               with (morseOf [c] ++ 32 :: morseCodes (d :: w1)).
             rewrite <- !app_assoc. reflexivity. }
           split; [|exact Hrel].
           destruct Hpad as [-> | [-> _]];
             [left; reflexivity | right; split; [reflexivity | discriminate]].
Qed.

Lemma toUpperCase_morse (text : jsstring) :
  Forall (fun c => morseLetter c = true \/ c = 32) text ->
  flat_map (toUpperCase host) text = text.
Proof.
  induction 1 as [|c r Hc Hr IH]; [reflexivity|].
  cbn [flat_map]. rewrite IH.
  destruct Hc as [Hc | ->]; [|reflexivity].
  destruct (morseOf_letter c Hc) as (_ & _ & _ & _ & ->). reflexivity.
Qed.

(** X29: Morse code.  For a text of capital letters, digits and spaces,
    [decodeMorse] gives back from what the [morse] case of [encode] made of
    it the text without the spaces at its two ends; the spaces inside,
    also several in a row, are kept. *)
Theorem decodeMorse_encode_morse (text : jsstring) :
  Forall (fun c => morseLetter c = true \/ c = 32) text ->
  decodeMorse (encode_morse host text) = trim text.
Proof.
  intros Htext. unfold encode_morse.
  rewrite toUpperCase_morse by exact Htext.
  rewrite map_map. fold (morseCodes text).
  destruct (morse_parts text Htext)
    as (s1 & ss & w1 & ws & pad & Hs & Hw & -> & Hpad & Hrel).
  pose proof (split_on_words _ text Htext) as Hwords. rewrite Hw in Hwords.
  apply Forall_cons_iff in Hwords. destruct Hwords as [Hw1 Hws].
  unfold decodeMorse.
  assert (Htrim : trim (morseCodes text) = morseCodes text).
  { destruct text as [|c text]; [reflexivity|].
    apply trim_join; [discriminate|].
    apply Forall_map. eapply Forall_impl; [|exact Htext].
    intros d Hd. apply morseOf_token, Hd. }
  rewrite Htrim, Hs. cbn [map].
  rewrite (decode_word _ w1 Hw1)
    by (apply trim_codes; [exact Hw1 | tauto]).
  assert (Hmap : map (fun w => join [] (map (lookupOrEmpty morseToChar)
                                             (split_on 32 (trim w)))) ss
                 = ws).
  { clear - Hrel Hws host. induction Hrel as [|s w ss ws Hsw Hrel IH];
      [reflexivity|].
    apply Forall_cons_iff in Hws. destruct Hws as [Hw Hws].
    cbn [map]. rewrite (decode_word s w Hw Hsw), (IH Hws). reflexivity. }
  rewrite Hmap, <- Hw, join_split_on. reflexivity.
Qed.

End MorseRoundTrip.

Lemma decodeMorse_encode_morse_witness :
  Forall (fun c => morseLetter c = true \/ c = 32) (js " SOS  42 ")
  /\ decodeMorse (encode_morse failingHost (js " SOS  42 ")) = js "SOS  42".
Proof.
  assert (H : Forall (fun c => morseLetter c = true \/ c = 32)
                     (js " SOS  42 ")).
  { repeat constructor; (left; reflexivity) || (right; reflexivity). }
  split; [exact H|].
  exact (decodeMorse_encode_morse failingHost (js " SOS  42 ") H).
Defined.
